(** * A chess rules engine and its FEN codec

    Shallow embedding of [src/lib/chess-utils.ts] (board helpers, FEN
    encoder and decoder, move notation, material balance), of
    [src/lib/chess-engine.ts] (class [ChessEngine]), of the move validation
    and the fallback moves of [src/lib/chess-ai.ts] and of the status panel
    of [src/components/GameStatus.tsx], with the types of [types/chess.ts].

    Conventions of the embedding.
    - A JavaScript number that holds a row, a column or a count is a [Z].
    - [null] and [undefined] in a board cell or an optional field are [None].
    - An optional boolean that the code only tests for truthiness
      ([hasMoved], [isCastling], ...) is a [bool], [false] when absent.
    - A string is a [string] of code units below 256.
    - A call that raises a [TypeError] yields [TypeError] in [completion].
    - The mutually recursive methods [isSquareUnderAttack],
      [isPieceMovementValid] and [isCastlingValid] are tied by a depth
      counter; [None] means that the depth was exhausted.  Lemma
      [isSquareUnderAttack_fuel_total] shows that depth 2 is never exhausted. *)

From Stdlib Require Import ZArith List Bool String Ascii Lia DecimalString
  Sorted.
Import ListNotations.
Open Scope Z_scope.

(** ** Types ([types/chess.ts]) *)

Inductive PieceType := king | queen | rook | bishop | knight | pawn.
Inductive PieceColor := white | black.

(** [type] is the run-time value of the property: [FENCharToPiece] stores
    [typeMap[...]], which is [undefined] for a letter outside kqrbnp. *)
Record ChessPiece := {
  type : option PieceType;
  color : PieceColor;
  id : string;
  hasMoved : bool
}.

Record Position := { row : Z; col : Z }.

Record ChessMove := {
  from : Position;
  to : Position;
  piece : ChessPiece;
  capturedPiece : option ChessPiece;
  isCheck : bool;
  isCheckmate : bool;
  isStalemate : bool;
  isCastling : bool;
  isEnPassant : bool;
  promotion : option PieceType;
  notation : string
}.

Inductive GameStatus := playing | check | checkmate | stalemate | draw.

Record CastlingRights := {
  whiteKingSide : bool;
  whiteQueenSide : bool;
  blackKingSide : bool;
  blackQueenSide : bool
}.

Definition Board := list (list (option ChessPiece)).

Record GameState := {
  board : Board;
  currentPlayer : PieceColor;
  moveHistory : list ChessMove;
  capturedPieces : list ChessPiece;
  gameStatus : GameStatus;
  winner : option PieceColor;
  lastMove : option ChessMove;
  enPassantTarget : option Position;
  castlingRights : CastlingRights
}.

(** Outcome of a call that may raise. *)
Inductive completion (A : Type) : Type :=
| Normal (a : A)
| TypeError.
Arguments Normal {A} a.
Arguments TypeError {A}.

Definition PieceType_eqb (a b : PieceType) : bool :=
  match a, b with
  | king, king | queen, queen | rook, rook
  | bishop, bishop | knight, knight | pawn, pawn => true
  | _, _ => false
  end.

Definition PieceColor_eqb (a b : PieceColor) : bool :=
  match a, b with
  | white, white | black, black => true
  | _, _ => false
  end.

(** [piece.type === k] *)
Definition hasType (p : ChessPiece) (k : PieceType) : bool :=
  match type p with
  | Some t => PieceType_eqb t k
  | None => false
  end.

(** Truthiness of an optional value. *)
Definition isSome {A} (o : option A) : bool :=
  match o with
  | Some _ => true
  | None => false
  end.

(** ** Arrays of arrays *)

(** [board[row][col]].  Reading a column that a row does not have gives
    [undefined].  Reading a row that the board does not have raises a
    [TypeError] in the source and is read as an empty cell here: the two
    agree on a board of eight rows and a row from 0 to 7, so a theorem that
    states what a call returns either follows a call that has returned or
    assumes [wellFormedBoard] and squares of the board. *)
Definition cell (b : Board) (r c : Z) : option ChessPiece :=
  if (r <? 0) || (c <? 0) then None
  else match nth_error b (Z.to_nat r) with
       | Some cells =>
           match nth_error cells (Z.to_nat c) with
           | Some x => x
           | None => None
           end
       | None => None
       end.

(** [cells[n] = v]: an index past the end extends the array with holes. *)
Fixpoint setNth (cells : list (option ChessPiece)) (n : nat)
    (v : option ChessPiece) : list (option ChessPiece) :=
  match n, cells with
  | O, [] => [v]
  | O, _ :: t => v :: t
  | S k, [] => None :: setNth [] k v
  | S k, h :: t => h :: setNth t k v
  end.

Fixpoint mapNth (b : Board) (n : nat)
    (f : list (option ChessPiece) -> list (option ChessPiece)) : Board :=
  match n, b with
  | _, [] => []
  | O, cells :: t => f cells :: t
  | S k, cells :: t => cells :: mapNth t k f
  end.

(** [board[row][col] = v] on a row that exists and a column [>= 0].  On a
    row that the board does not have the source raises; the engine writes
    to rows from 0 to 7 only, which a board of eight rows has. *)
Definition setCell (b : Board) (r c : Z) (v : option ChessPiece) : Board :=
  if (r <? 0) || (c <? 0) then b
  else mapNth b (Z.to_nat r) (fun cells => setNth cells (Z.to_nat c) v).

Definition indices8 : list Z := [0; 1; 2; 3; 4; 5; 6; 7].

(** The pairs visited by
    [for (row = 0; row < 8; row++) for (col = 0; col < 8; col++)]. *)
Definition squares : list (Z * Z) :=
  flat_map (fun r => map (fun c => (r, c)) indices8) indices8.

(** ** [chess-utils.ts] *)

Module ChessUtils.

Local Open Scope string_scope.
Local Open Scope Z_scope.

(** [n.toString()] for an integer. *)
Definition toString (z : Z) : string := NilZero.string_of_int (Z.to_int z).

Definition files : list string := ["a"; "b"; "c"; "d"; "e"; "f"; "g"; "h"].

(** [files[i]], which concatenates as the text undefined when absent. *)
Definition fileAt (i : Z) : string :=
  if (0 <=? i) && (i <? 8)
  then nth (Z.to_nat i) files "undefined"
  else "undefined".

Definition positionToChessNotation (pos : Position) : string :=
  fileAt (col pos) ++ toString (8 - row pos).

(** A number that may be [NaN]. *)
Inductive number := Num (z : Z) | NaN.

(** [parseInt] of a one-character string or of [undefined]. *)
Definition parseInt (c : option ascii) : number :=
  match c with
  | Some ch =>
      let n := Z.of_nat (nat_of_ascii ch) in
      if (48 <=? n) && (n <=? 57) then Num (n - 48) else NaN
  | None => NaN
  end.

(** [files.indexOf(file)] *)
Definition indexOfFile (c : option ascii) : Z :=
  match c with
  | Some ch =>
      let n := Z.of_nat (nat_of_ascii ch) in
      if (97 <=? n) && (n <=? 104) then n - 97 else -1
  | None => -1
  end.

(** Returns [{ row: 8 - rank, col }]; the row is [NaN] when the rank is. *)
Definition chessNotationToPosition (notation : string) : number * Z :=
  let file := String.get 0 notation in
  let rank := parseInt (String.get 1 notation) in
  (match rank with Num r => Num (8 - r) | NaN => NaN end, indexOfFile file).

Definition charMap (t : PieceType) : ascii :=
  match t with
  | king => "k" | queen => "q" | rook => "r"
  | bishop => "b" | knight => "n" | pawn => "p"
  end%char.

(** [toUpperCase] and [toLowerCase] on the letters a-z and A-Z. *)
Definition upperLetter (c : ascii) : ascii :=
  let n := nat_of_ascii c in
  if (97 <=? n)%nat && (n <=? 122)%nat then ascii_of_nat (n - 32) else c.

Definition lowerLetter (c : ascii) : ascii :=
  let n := nat_of_ascii c in
  if (65 <=? n)%nat && (n <=? 90)%nat then ascii_of_nat (n + 32) else c.

(** [char === char.toUpperCase()] for a code unit below 256: false for
    a-z, the micro sign, sharp s, and the lower-case letters E0-FF but the
    division sign F7. *)
Definition isOwnUpperCase (c : ascii) : bool :=
  let n := nat_of_ascii c in
  negb (((97 <=? n) && (n <=? 122)) || (n =? 181) || (n =? 223)
        || ((224 <=? n) && negb (n =? 247)))%nat.

(** [charMap[piece.type]] is [undefined] for an undefined type: the upper
    case of it raises, appending it to a string writes the text undefined. *)
Definition pieceToFENChar (p : ChessPiece) : completion string :=
  match type p with
  | Some t =>
      let char := charMap t in
      Normal (String (match color p with
                      | white => upperLetter char
                      | black => char
                      end) "")
  | None =>
      match color p with
      | white => TypeError
      | black => Normal "undefined"
      end
  end.

(** [typeMap[char.toLowerCase()]]; no code unit below 256 other than the
    twelve letters lowers to a key of [typeMap]. *)
Definition typeMap (c : ascii) : option PieceType :=
  match lowerLetter c with
  | "k" => Some king | "q" => Some queen | "r" => Some rook
  | "b" => Some bishop | "n" => Some knight | "p" => Some pawn
  | _ => None
  end%char.

Definition FENCharToPiece (char : ascii) (id : string) : ChessPiece :=
  let isWhite := isOwnUpperCase char in
  {| type := typeMap char;
     color := if isWhite then white else black;
     id := id;
     hasMoved := false |}.

(** [s.split(sep)] for a one-character separator. *)
Fixpoint split (sep : ascii) (s : string) : list string :=
  match s with
  | EmptyString => [EmptyString]
  | String c rest =>
      if Ascii.eqb c sep then EmptyString :: split sep rest
      else match split sep rest with
           | h :: t => String c h :: t
           | [] => [String c EmptyString]
           end
  end.

(** [s.includes(c)] for a one-character [c]. *)
Fixpoint includes (s : string) (c : ascii) : bool :=
  match s with
  | EmptyString => false
  | String x rest => Ascii.eqb x c || includes rest c
  end.

(** The inner loop of [gameStateToFEN] over the cells of one row, on the
    running [fen] and [emptyCount]. *)
Fixpoint fenCells (cells : list (option ChessPiece)) (fen : string)
    (emptyCount : Z) : completion (string * Z) :=
  match cells with
  | [] => Normal (fen, emptyCount)
  | Some p :: rest =>
      let fen1 := if emptyCount >? 0 then fen ++ toString emptyCount else fen in
      let emptyCount1 := if emptyCount >? 0 then 0 else emptyCount in
      match pieceToFENChar p with
      | Normal ch => fenCells rest (fen1 ++ ch) emptyCount1
      | TypeError => TypeError
      end
  | None :: rest => fenCells rest fen (emptyCount + 1)
  end.

(** The outer loop of [gameStateToFEN]. *)
Fixpoint fenRows (b : Board) (rows : list Z) (fen : string)
    : completion string :=
  match rows with
  | [] => Normal fen
  | r :: rest =>
      match fenCells (map (cell b r) indices8) fen 0 with
      | Normal (fen1, emptyCount) =>
          let fen2 := if emptyCount >? 0 then fen1 ++ toString emptyCount
                      else fen1 in
          let fen3 := if r <? 7 then fen2 ++ "/" else fen2 in
          fenRows b rest fen3
      | TypeError => TypeError
      end
  end.

Definition castlingText (cr : CastlingRights) : string :=
  let castling := "" in
  let castling := if whiteKingSide cr then castling ++ "K" else castling in
  let castling := if whiteQueenSide cr then castling ++ "Q" else castling in
  let castling := if blackKingSide cr then castling ++ "k" else castling in
  let castling := if blackQueenSide cr then castling ++ "q" else castling in
  match castling with
  | EmptyString => "-"
  | _ => castling
  end.

Definition gameStateToFEN (gameState : GameState) : completion string :=
  match fenRows (board gameState) indices8 "" with
  | TypeError => TypeError
  | Normal fen =>
      let fen := fen ++ " " ++ (match currentPlayer gameState with
                                | white => "w"
                                | black => "b"
                                end) in
      let fen := fen ++ " " in
      let fen := fen ++ castlingText (castlingRights gameState) in
      let fen := fen ++ " " in
      let fen := match enPassantTarget gameState with
                 | Some ep => fen ++ positionToChessNotation ep
                 | None => fen ++ "-"
                 end in
      let fen := fen ++ " 0" in
      let fullmoveNumber :=
        Z.of_nat (List.length (moveHistory gameState)) / 2 + 1 in
      Normal (fen ++ " " ++ toString fullmoveNumber)
  end.

(** [char >= '1' && char <= '8'] *)
Definition isDigit1to8 (c : ascii) : bool :=
  let n := Z.of_nat (nat_of_ascii c) in (49 <=? n) && (n <=? 56).

(** The loop of [FENToGameState] over the characters of one row. *)
Fixpoint parseRowChars (chars : string) (r c : Z) (b : Board) : Board :=
  match chars with
  | EmptyString => b
  | String char rest =>
      if isDigit1to8 char
      then parseRowChars rest r (c + (Z.of_nat (nat_of_ascii char) - 48)) b
      else
        let pieceId :=
          String char "" ++ "-" ++ toString r ++ "-" ++ toString c in
        parseRowChars rest r (c + 1)
          (setCell b r c (Some (FENCharToPiece char pieceId)))
  end.

(** The loop over the eight rows; iterating [rows[row]] raises when the
    board field has fewer than eight rows. *)
Fixpoint parseRows (rowIdx : list Z) (rows : list string) (b : Board)
    : completion Board :=
  match rowIdx with
  | [] => Normal b
  | r :: rest =>
      match nth_error rows (Z.to_nat r) with
      | None => TypeError
      | Some chars => parseRows rest rows (parseRowChars chars r 0 b)
      end
  end.

Definition emptyBoard : Board := repeat (repeat None 8) 8.

(** What [FENToGameState] returns: a game state, or a game state whose
    [enPassantTarget] is [{ row: NaN, col }], the other fields being those
    of [gs]. *)
Inductive Parsed :=
| ParsedState (gs : GameState)
| ParsedNaNTarget (gs : GameState) (col : Z).

Definition FENToGameState (fen : string) : completion Parsed :=
  let parts := split " " fen in
  let boardPart := nth 0 parts "" in
  let activeColor :=
    match nth_error parts 1 with
    | Some "w" => white
    | _ => black
    end in
  match nth_error parts 3 with
  | None => TypeError
  | Some part3 =>
      let enPassantTarget :=
        if String.eqb part3 "-" then None
        else Some (chessNotationToPosition part3) in
      match parseRows indices8 (split "/" boardPart) emptyBoard with
      | TypeError => TypeError
      | Normal b =>
          let castlingRights := nth 2 parts "" in
          let state (ep : option Position) :=
            {| board := b;
               currentPlayer := activeColor;
               moveHistory := [];
               capturedPieces := [];
               gameStatus := playing;
               winner := None;
               lastMove := None;
               enPassantTarget := ep;
               castlingRights :=
                 {| whiteKingSide := includes castlingRights "K";
                    whiteQueenSide := includes castlingRights "Q";
                    blackKingSide := includes castlingRights "k";
                    blackQueenSide := includes castlingRights "q" |} |} in
          match enPassantTarget with
          | None => Normal (ParsedState (state None))
          | Some (Num r, c) =>
              Normal (ParsedState (state (Some {| row := r; col := c |})))
          | Some (NaN, c) => Normal (ParsedNaNTarget (state None) c)
          end
      end
  end.

Definition INITIAL_BOARD_FEN : string :=
  "rnbqkbnr/pppppppp/8/8/8/8/PPPPPPPP/RNBQKBNR w KQkq - 0 1".

Definition createInitialGameState : completion Parsed :=
  FENToGameState INITIAL_BOARD_FEN.

Definition isValidPosition (pos : Position) : bool :=
  (row pos >=? 0) && (row pos <? 8) && (col pos >=? 0) && (col pos <? 8).

Definition positionsEqual (pos1 pos2 : Position) : bool :=
  (row pos1 =? row pos2) && (col pos1 =? col pos2).

Definition getPieceAt (b : Board) (pos : Position) : option ChessPiece :=
  if negb (isValidPosition pos) then None
  else cell b (row pos) (col pos).

(** [type.charAt(0).toUpperCase()] *)
Definition typeInitial (t : PieceType) : string :=
  match t with
  | king => "K" | queen => "Q" | rook => "R"
  | bishop => "B" | knight => "K" | pawn => "P"
  end.

Definition generateMoveNotation (move : ChessMove) (gameState : GameState)
    : completion string :=
  if isCastling move then
    Normal (if col (to move) >? col (from move) then "O-O" else "O-O-O")
  else
    let prefix :=
      match type (piece move) with
      | Some pawn => Normal ""
      | Some t => Normal (typeInitial t)
      | None => TypeError
      end in
    match prefix with
    | TypeError => TypeError
    | Normal notation =>
        let notation := notation ++ positionToChessNotation (from move) in
        let notation := match capturedPiece move with
                        | Some _ => notation ++ "x"
                        | None => notation
                        end in
        let notation := notation ++ positionToChessNotation (to move) in
        let notation := match promotion move with
                        | Some t => notation ++ "=" ++ typeInitial t
                        | None => notation
                        end in
        Normal (if isCheckmate move then notation ++ "#"
                else if isCheck move then notation ++ "+"
                else notation)
    end.

(** [notation.replace(/[+#]/, '')]: the first plus or hash sign is removed. *)
Fixpoint removeFirstMark (s : string) : string :=
  match s with
  | EmptyString => EmptyString
  | String c rest =>
      if Ascii.eqb c "+" || Ascii.eqb c "#" then rest
      else String c (removeFirstMark rest)
  end.

(** The branch for regular moves matches a pattern and returns [null]
    whatever the match; only the castling branch returns a move. *)
Definition parseAlgebraicNotation (notation : string) (gameState : GameState)
    : option ChessMove :=
  let cleanNotation := removeFirstMark notation in
  if String.eqb cleanNotation "O-O" || String.eqb cleanNotation "O-O-O" then
    let r := match currentPlayer gameState with
             | white => 7
             | black => 0
             end in
    let kingFrom := {| row := r; col := 4 |} in
    let kingTo :=
      {| row := r; col := if String.eqb cleanNotation "O-O" then 6 else 2 |} in
    match getPieceAt (board gameState) kingFrom with
    | None => None
    | Some kingPiece =>
        Some {| from := kingFrom;
                to := kingTo;
                piece := kingPiece;
                capturedPiece := None;
                isCheck := includes notation "+";
                isCheckmate := includes notation "#";
                isStalemate := false;
                isCastling := true;
                isEnPassant := false;
                promotion := None;
                notation := cleanNotation |}
    end
  else None.

Definition PIECE_VALUES (t : PieceType) : Z :=
  match t with
  | pawn => 1 | knight => 3 | bishop => 3
  | rook => 5 | queen => 9 | king => 0
  end.

(** [PIECE_VALUES[piece.type]], [undefined] for an undefined kind; a sum
    with it is [NaN]. *)
Definition valueOf (p : ChessPiece) : number :=
  match type p with
  | Some t => Num (PIECE_VALUES t)
  | None => NaN
  end.

Definition plus (a b : number) : number :=
  match a, b with
  | Num x, Num y => Num (x + y)
  | _, _ => NaN
  end.

(** Returns [{ white, black }]. *)
Definition calculateMaterialBalance (gameState : GameState)
    : number * number :=
  fold_left
    (fun (totals : number * number) (sq : Z * Z) =>
       match cell (board gameState) (fst sq) (snd sq) with
       | Some piece =>
           let value := valueOf piece in
           match color piece with
           | white => (plus (fst totals) value, snd totals)
           | black => (fst totals, plus (snd totals) value)
           end
       | None => totals
       end)
    squares (Num 0, Num 0).

End ChessUtils.

(** ** [chess-engine.ts] *)

Module ChessEngine.

Import ChessUtils.

(** [color === 'white' ? 'black' : 'white'] *)
Definition opponentOf (c : PieceColor) : PieceColor :=
  match c with
  | white => black
  | black => white
  end.

(** [{ ...piece, hasMoved: true }] *)
Definition withMoved (p : ChessPiece) : ChessPiece :=
  {| type := type p; color := color p; id := id p; hasMoved := true |}.

Definition pawnDirection (c : PieceColor) : Z :=
  match c with
  | white => -1
  | black => 1
  end.

Definition isPawnMoveValid (piece : ChessPiece) (from to : Position)
    (gameState : GameState) : bool :=
  let direction := pawnDirection (color piece) in
  let rowDiff := row to - row from in
  let colDiff := col to - col from in
  let targetPiece := getPieceAt (board gameState) to in
  (* the statements after the forward-move block *)
  let diagonalCapture :=
    if (Z.abs colDiff =? 1) && (rowDiff =? direction) then
      match targetPiece with
      | Some t =>
          if negb (PieceColor_eqb (color t) (color piece)) then true
          else match enPassantTarget gameState with
               | Some ep => positionsEqual to ep
               | None => false
               end
      | None =>
          match enPassantTarget gameState with
          | Some ep => positionsEqual to ep
          | None => false
          end
      end
    else false in
  if colDiff =? 0 then
    match targetPiece with
    | Some _ => false
    | None =>
        if rowDiff =? direction then true
        else if (rowDiff =? 2 * direction)
                && ((PieceColor_eqb (color piece) white && (row from =? 6))
                    || (PieceColor_eqb (color piece) black && (row from =? 1)))
        then true
        else diagonalCapture
    end
  else diagonalCapture.

(** The [while] loop of [isPathClear], at most [n] times through its body;
    [None] when the loop has not reached [to] by then. *)
Fixpoint pathLoop (n : nat) (r c rowStep colStep : Z) (to : Position)
    (b : Board) : option bool :=
  if negb (r =? row to) || negb (c =? col to) then
    match n with
    | O => None
    | S k =>
        match cell b r c with
        | Some _ => Some false
        | None => pathLoop k (r + rowStep) (c + colStep) rowStep colStep to b
        end
    end
  else Some true.

(** The loop reaches [to] within max(|rowDiff|, |colDiff|) steps when the
    two squares are on a line, which is the bound given here. *)
Definition isPathClear (from to : Position) (b : Board) : option bool :=
  let rowStep :=
    if row to =? row from then 0 else if row to >? row from then 1 else -1 in
  let colStep :=
    if col to =? col from then 0 else if col to >? col from then 1 else -1 in
  pathLoop
    (Z.to_nat (Z.max (Z.abs (row to - row from)) (Z.abs (col to - col from))))
    (row from + rowStep) (col from + colStep) rowStep colStep to b.

(** The integers [lo], [lo + 1], ..., below [hi]. *)
Definition between (lo hi : Z) : list Z :=
  map (fun i => lo + Z.of_nat i) (seq 0 (Z.to_nat (hi - lo))).

Definition attackFn := Position -> PieceColor -> GameState -> option bool.

Section Knot.

(** [this.isSquareUnderAttack] as seen from the two methods below. *)
Variable attack : attackFn.

(** [for (const col of kingPath) if (attack ...) return false] *)
Fixpoint kingPathLoop (kingPath : list Z) (r : Z) (byColor : PieceColor)
    (gameState : GameState) : option bool :=
  match kingPath with
  | [] => Some true
  | c :: rest =>
      match attack {| row := r; col := c |} byColor gameState with
      | None => None
      | Some true => Some false
      | Some false => kingPathLoop rest r byColor gameState
      end
  end.

Definition rightsAllow (piece : ChessPiece) (isKingSide : bool)
    (rights : CastlingRights) : bool :=
  match color piece with
  | white =>
      if isKingSide && negb (whiteKingSide rights) then false
      else if negb isKingSide && negb (whiteQueenSide rights) then false
      else true
  | black =>
      if isKingSide && negb (blackKingSide rights) then false
      else if negb isKingSide && negb (blackQueenSide rights) then false
      else true
  end.

Definition isCastlingValid_with (piece : ChessPiece) (from to : Position)
    (gameState : GameState) : option bool :=
  if hasMoved piece then Some false
  else if negb (row from =? row to) then Some false
  else
    let isKingSide := col to >? col from in
    let rookCol := if isKingSide then 7 else 0 in
    match getPieceAt (board gameState) {| row := row from; col := rookCol |} with
    | None => Some false
    | Some cornerRook =>
        if negb (hasType cornerRook rook)
           || negb (PieceColor_eqb (color cornerRook) (color piece))
           || hasMoved cornerRook
        then Some false
        else if negb (rightsAllow piece isKingSide (castlingRights gameState))
        then Some false
        else
          let start := Z.min (col from) rookCol in
          let end_ := Z.max (col from) rookCol in
          if existsb (fun c => isSome (cell (board gameState) (row from) c))
                     (between (start + 1) end_)
          then Some false
          else
            let kingPath :=
              if isKingSide then [col from; col from + 1; col from + 2]
              else [col from; col from - 1; col from - 2] in
            kingPathLoop kingPath (row from) (opponentOf (color piece))
              gameState
    end.

Definition isPieceMovementValid_with (piece : ChessPiece) (from to : Position)
    (gameState : GameState) : option bool :=
  let rowDiff := row to - row from in
  let colDiff := col to - col from in
  let absRowDiff := Z.abs rowDiff in
  let absColDiff := Z.abs colDiff in
  match type piece with
  | Some pawn => Some (isPawnMoveValid piece from to gameState)
  | Some rook =>
      if negb (rowDiff =? 0) && negb (colDiff =? 0) then Some false
      else isPathClear from to (board gameState)
  | Some bishop =>
      if negb (absRowDiff =? absColDiff) then Some false
      else isPathClear from to (board gameState)
  | Some queen =>
      if negb (rowDiff =? 0) && negb (colDiff =? 0)
         && negb (absRowDiff =? absColDiff)
      then Some false
      else isPathClear from to (board gameState)
  | Some knight =>
      Some (((absRowDiff =? 2) && (absColDiff =? 1))
            || ((absRowDiff =? 1) && (absColDiff =? 2)))
  | Some king =>
      if (absRowDiff <=? 1) && (absColDiff <=? 1) then Some true
      else isCastlingValid_with piece from to gameState
  | None => Some false
  end.

(** What the body of the two loops of [isSquareUnderAttack] decides at one
    square: [Some true] for [return true], [Some false] to go on. *)
Definition attackedFrom (position : Position) (byColor : PieceColor)
    (gameState : GameState) (sq : Z * Z) : option bool :=
  let '(r, c) := sq in
  match cell (board gameState) r c with
  | Some piece =>
      if PieceColor_eqb (color piece) byColor then
        let from := {| row := r; col := c |} in
        if hasType piece pawn then
          let direction := pawnDirection (color piece) in
          let pawnAttacks :=
            [ {| row := r + direction; col := c - 1 |};
              {| row := r + direction; col := c + 1 |} ] in
          Some (existsb (fun attackPos =>
                           isValidPosition attackPos
                           && positionsEqual attackPos position)
                        pawnAttacks)
        else isPieceMovementValid_with piece from position gameState
      else Some false
  | None => Some false
  end.

End Knot.

(** A scan that returns [true] at the first square where [f] does. *)
Fixpoint scanAny (f : Z * Z -> option bool) (l : list (Z * Z))
    : option bool :=
  match l with
  | [] => Some false
  | sq :: rest =>
      match f sq with
      | None => None
      | Some true => Some true
      | Some false => scanAny f rest
      end
  end.

Definition isSquareUnderAttack_with (attack : attackFn) : attackFn :=
  fun position byColor gameState =>
    scanAny (attackedFrom attack position byColor gameState) squares.

(** [isSquareUnderAttack] with at most [depth] nested activations. *)
Fixpoint isSquareUnderAttack_fuel (depth : nat) : attackFn :=
  match depth with
  | O => fun _ _ _ => None
  | S d => isSquareUnderAttack_with (isSquareUnderAttack_fuel d)
  end.

Definition callDepth : nat := 2.

Definition returned (o : option bool) : bool :=
  match o with
  | Some b => b
  | None => false
  end.

Definition isSquareUnderAttack (position : Position) (byColor : PieceColor)
    (gameState : GameState) : bool :=
  returned (isSquareUnderAttack_fuel callDepth position byColor gameState).

Definition isCastlingValid (piece : ChessPiece) (from to : Position)
    (gameState : GameState) : bool :=
  returned (isCastlingValid_with (isSquareUnderAttack_fuel callDepth)
              piece from to gameState).

Definition isPieceMovementValid (piece : ChessPiece) (from to : Position)
    (gameState : GameState) : bool :=
  returned (isPieceMovementValid_with (isSquareUnderAttack_fuel callDepth)
              piece from to gameState).

Definition isKingOf (kingColor : PieceColor) (b : Board) (sq : Z * Z) : bool :=
  match cell b (fst sq) (snd sq) with
  | Some piece => hasType piece king && PieceColor_eqb (color piece) kingColor
  | None => false
  end.

Definition isInCheck (gameState : GameState) : bool :=
  let kingColor := currentPlayer gameState in
  let opponentColor := opponentOf kingColor in
  match find (isKingOf kingColor (board gameState)) squares with
  | None => false
  | Some (r, c) =>
      isSquareUnderAttack {| row := r; col := c |} opponentColor gameState
  end.

Definition withBoard (gameState : GameState) (b : Board) : GameState :=
  {| board := b;
     currentPlayer := currentPlayer gameState;
     moveHistory := moveHistory gameState;
     capturedPieces := capturedPieces gameState;
     gameStatus := gameStatus gameState;
     winner := winner gameState;
     lastMove := lastMove gameState;
     enPassantTarget := enPassantTarget gameState;
     castlingRights := castlingRights gameState |}.

Definition makeTemporaryMove (from to : Position) (gameState : GameState)
    : GameState :=
  let newBoard := board gameState in
  let piece := cell newBoard (row from) (col from) in
  let newBoard := setCell newBoard (row to) (col to) piece in
  let newBoard := setCell newBoard (row from) (col from) None in
  withBoard gameState newBoard.

Definition wouldLeaveKingInCheck (from to : Position) (gameState : GameState)
    : bool :=
  let tempGameState := makeTemporaryMove from to gameState in
  isInCheck tempGameState.

Definition isValidMove (from to : Position) (gameState : GameState) : bool :=
  match getPieceAt (board gameState) from with
  | None => false
  | Some piece =>
      if negb (PieceColor_eqb (color piece) (currentPlayer gameState))
      then false
      else if negb (isValidPosition to) then false
      else
        let targetPiece := getPieceAt (board gameState) to in
        if match targetPiece with
           | Some t => PieceColor_eqb (color t) (color piece)
           | None => false
           end
        then false
        else if negb (isPieceMovementValid piece from to gameState) then false
        else if wouldLeaveKingInCheck from to gameState then false
        else true
  end.

Definition positionOf (sq : Z * Z) : Position :=
  {| row := fst sq; col := snd sq |}.

Definition getValidMoves (from : Position) (gameState : GameState)
    : list Position :=
  match getPieceAt (board gameState) from with
  | None => []
  | Some piece =>
      if negb (PieceColor_eqb (color piece) (currentPlayer gameState)) then []
      else filter (fun to => isValidMove from to gameState)
                  (map positionOf squares)
  end.

Definition isCastlingMove (piece : ChessPiece) (from to : Position) : bool :=
  hasType piece king && (Z.abs (col to - col from) =? 2).

Definition isEnPassantMove (piece : ChessPiece) (from to : Position)
    (gameState : GameState) : bool :=
  hasType piece pawn
  && (Z.abs (col to - col from) =? 1)
  && negb (isSome (getPieceAt (board gameState) to))
  && match enPassantTarget gameState with
     | Some ep => positionsEqual to ep
     | None => false
     end.

Definition handleCastling (from to : Position) (b : Board) : Board :=
  let isKingSide := col to >? col from in
  let rookFromCol := if isKingSide then 7 else 0 in
  let rookToCol := if isKingSide then 5 else 3 in
  let cornerRook := cell b (row from) rookFromCol in
  let b := setCell b (row from) rookToCol (option_map withMoved cornerRook) in
  setCell b (row from) rookFromCol None.

Definition updateCastlingRights (currentRights : CastlingRights)
    (move : ChessMove) : CastlingRights :=
  let newRights := currentRights in
  let newRights :=
    if hasType (piece move) king then
      match color (piece move) with
      | white =>
          {| whiteKingSide := false;
             whiteQueenSide := false;
             blackKingSide := blackKingSide newRights;
             blackQueenSide := blackQueenSide newRights |}
      | black =>
          {| whiteKingSide := whiteKingSide newRights;
             whiteQueenSide := whiteQueenSide newRights;
             blackKingSide := false;
             blackQueenSide := false |}
      end
    else newRights in
  if hasType (piece move) rook then
    let r := row (from move) in
    let c := col (from move) in
    {| whiteKingSide :=
         if (r =? 7) && (c =? 7) then false else whiteKingSide newRights;
       whiteQueenSide :=
         if (r =? 7) && (c =? 0) then false else whiteQueenSide newRights;
       blackKingSide :=
         if (r =? 0) && (c =? 7) then false else blackKingSide newRights;
       blackQueenSide :=
         if (r =? 0) && (c =? 0) then false else blackQueenSide newRights |}
  else newRights.

Definition getEnPassantTarget (move : ChessMove) : option Position :=
  if hasType (piece move) pawn
     && (Z.abs (row (to move) - row (from move)) =? 2)
  then Some {| row := (row (from move) + row (to move)) / 2;
               col := col (to move) |}
  else None.

Definition hasValidMoves (gameState : GameState) : bool :=
  existsb (fun sq =>
             match cell (board gameState) (fst sq) (snd sq) with
             | Some piece =>
                 PieceColor_eqb (color piece) (currentPlayer gameState)
                 && (0 <? Z.of_nat
                            (List.length
                               (getValidMoves (positionOf sq) gameState)))
             | None => false
             end)
          squares.

Definition getGameStatus (gameState : GameState) : GameStatus :=
  let hasValidMoves := hasValidMoves gameState in
  let inCheck := isInCheck gameState in
  if negb hasValidMoves then
    if inCheck then checkmate else stalemate
  else if inCheck then check else playing.

Definition withNotation (move : ChessMove) (n : string) : ChessMove :=
  {| from := from move;
     to := to move;
     piece := piece move;
     capturedPiece := capturedPiece move;
     isCheck := isCheck move;
     isCheckmate := isCheckmate move;
     isStalemate := isStalemate move;
     isCastling := isCastling move;
     isEnPassant := isEnPassant move;
     promotion := promotion move;
     notation := n |}.

Definition withStatus (gameState : GameState) (s : GameStatus) : GameState :=
  {| board := board gameState;
     currentPlayer := currentPlayer gameState;
     moveHistory := moveHistory gameState;
     capturedPieces := capturedPieces gameState;
     gameStatus := s;
     winner := winner gameState;
     lastMove := lastMove gameState;
     enPassantTarget := enPassantTarget gameState;
     castlingRights := castlingRights gameState |}.

(** [Normal None] is the [null] of a rejected move.  The [move] object is
    shared by [lastMove] and by the history, so both see its notation. *)
Definition makeMove (from to : Position) (gameState : GameState)
    : completion (option GameState) :=
  if negb (isValidMove from to gameState) then Normal None
  else
    let newBoard := board gameState in
    match cell newBoard (row from) (col from) with
    | None => Normal None (* excluded by [isValidMove]: the [!] of the source *)
    | Some piece =>
        let capturedPiece := cell newBoard (row to) (col to) in
        let move :=
          {| from := from;
             to := to;
             piece := piece;
             capturedPiece := capturedPiece;
             isCheck := false;
             isCheckmate := false;
             isStalemate := false;
             isCastling := isCastlingMove piece from to;
             isEnPassant := isEnPassantMove piece from to gameState;
             promotion := None;
             notation := EmptyString |} in
        let newBoard :=
          setCell newBoard (row to) (col to) (Some (withMoved piece)) in
        let newBoard := setCell newBoard (row from) (col from) None in
        let newBoard :=
          if isCastling move then handleCastling from to newBoard
          else newBoard in
        let newBoard :=
          if isEnPassant move then
            let capturedPawnRow :=
              match color piece with
              | white => row to + 1
              | black => row to - 1
              end in
            setCell newBoard capturedPawnRow (col to) None
          else newBoard in
        let newCastlingRights :=
          updateCastlingRights (castlingRights gameState) move in
        let newEnPassantTarget := getEnPassantTarget move in
        let newCurrentPlayer := opponentOf (currentPlayer gameState) in
        let newGameState (m : ChessMove) (history : list ChessMove) :=
          {| board := newBoard;
             currentPlayer := newCurrentPlayer;
             moveHistory := history;
             capturedPieces :=
               match capturedPiece with
               | Some captured => capturedPieces gameState ++ [captured]
               | None => capturedPieces gameState
               end;
             gameStatus := playing;
             winner := None;
             lastMove := Some m;
             enPassantTarget := newEnPassantTarget;
             castlingRights := newCastlingRights |} in
        match generateMoveNotation move
                (newGameState move (moveHistory gameState)) with
        | TypeError => TypeError
        | Normal text =>
            let move := withNotation move text in
            let state := newGameState move (moveHistory gameState ++ [move]) in
            Normal (Some (withStatus state (getGameStatus state)))
        end
    end.

End ChessEngine.

(** ** [chess-ai.ts] and the fallback of the game page *)

Module ChessAI.

Import ChessUtils ChessEngine.
Local Open Scope string_scope.
Local Open Scope Z_scope.

(** [/^[a-h][1-8]$/.test(s)] *)
Definition isSquareLabel (s : string) : bool :=
  match s with
  | String f (String d EmptyString) =>
      let n := Z.of_nat (nat_of_ascii f) in
      (97 <=? n) && (n <=? 104) && isDigit1to8 d
  | _ => false
  end.

(** [isValidMove] with the destination as [chessNotationToPosition] returns
    it: no comparison holds of a [NaN] row, so no move to it is valid. *)
Definition isValidMoveTo (from : Position) (to : number * Z)
    (gameState : GameState) : bool :=
  match to with
  | (Num r, c) => isValidMove from {| row := r; col := c |} gameState
  | (NaN, _) => false
  end.

Definition validateSimpleMove (moveNotation : string) (gameState : GameState)
    : bool :=
  let to := chessNotationToPosition moveNotation in
  existsb (fun sq => isValidMoveTo (positionOf sq) to gameState) squares.

Definition validateCastling (moveNotation : string) (gameState : GameState)
    : bool :=
  let r := match currentPlayer gameState with
           | white => 7
           | black => 0
           end in
  let kingFrom := {| row := r; col := 4 |} in
  let kingTo :=
    {| row := r; col := if String.eqb moveNotation "O-O" then 6 else 2 |} in
  isValidMove kingFrom kingTo gameState.

Definition validateAIMove (moveNotation : string) (gameState : GameState)
    : bool :=
  if isSquareLabel moveNotation then validateSimpleMove moveNotation gameState
  else if String.eqb moveNotation "O-O" || String.eqb moveNotation "O-O-O"
  then validateCastling moveNotation gameState
  else true.

(** The list [allMoves] both fallbacks build. *)
Definition allMoves (gameState : GameState) : list (Position * Position) :=
  flat_map
    (fun sq =>
       let from := positionOf sq in
       match cell (board gameState) (fst sq) (snd sq) with
       | Some piece =>
           if PieceColor_eqb (color piece) (currentPlayer gameState)
           then map (fun to => (from, to)) (getValidMoves from gameState)
           else []
       | None => []
       end)
    squares.

(** [pick] is the value of [Math.floor(Math.random() * allMoves.length)],
    which is an index of [allMoves]; for another number [allMoves[pick]]
    is [undefined] and reading its [to] raises. *)
Definition generateFallbackMove (gameState : GameState) (pick : nat)
    : completion (option string) :=
  let allMoves := allMoves gameState in
  if (List.length allMoves =? 0)%nat then Normal None
  else match nth_error allMoves pick with
       | Some randomMove =>
           Normal (Some (positionToChessNotation (snd randomMove)))
       | None => TypeError
       end.

Definition parseSimpleMove (moveNotation : string) (gameState : GameState)
    : option (Position * Position) :=
  let castling :=
    if String.eqb moveNotation "O-O" || String.eqb moveNotation "O-O-O" then
      let r := match currentPlayer gameState with
               | white => 7
               | black => 0
               end in
      let from := {| row := r; col := 4 |} in
      let to :=
        {| row := r; col := if String.eqb moveNotation "O-O" then 6 else 2 |} in
      if isValidMove from to gameState then Some (from, to) else None
    else None in
  if isSquareLabel moveNotation then
    match chessNotationToPosition moveNotation with
    | (Num r, c) =>
        let to := {| row := r; col := c |} in
        match find (fun sq =>
                      match cell (board gameState) (fst sq) (snd sq) with
                      | Some piece =>
                          PieceColor_eqb (color piece) (currentPlayer gameState)
                          && isValidMove (positionOf sq) to gameState
                      | None => false
                      end)
                   squares with
        | Some sq => Some (positionOf sq, to)
        | None => castling
        end
    | (NaN, _) => castling
    end
  else castling.

(** [generateFallbackMove] of the game page (the client code in
    [app/api/chess-move/route.ts]), which returns the pair; [undefined] for
    a [pick] that is no index of [allMoves]. *)
Definition pageFallbackMove (gameState : GameState) (pick : nat)
    : option (Position * Position) :=
  let allMoves := allMoves gameState in
  if (List.length allMoves =? 0)%nat then None
  else nth_error allMoves pick.

End ChessAI.

(** ** [components/GameStatus.tsx] *)

Module GameStatusView.

Import ChessUtils ChessEngine.
Local Open Scope string_scope.
Local Open Scope Z_scope.

(** The closure [getStatusMessage] of the component, on its props. *)
Definition getStatusMessage (gameState : GameState)
    (isPlayerTurn isAiThinking : bool) : string :=
  match gameStatus gameState with
  | checkmate =>
      match currentPlayer gameState with
      | white => "AI Wins!"
      | black => "You Win!"
      end
  | stalemate => "Draw - Stalemate"
  | check =>
      match currentPlayer gameState with
      | white => "You are in Check!"
      | black => "AI is in Check"
      end
  | playing =>
      if isAiThinking then "AI is thinking..."
      else if isPlayerTurn then "Your turn" else "AI's turn"
  | draw => "Game in progress"
  end.

Definition isGameOver (gameState : GameState) : bool :=
  match gameStatus gameState with
  | checkmate | stalemate => true
  | _ => false
  end.

Definition calculateMaterial (gameState : GameState) (c : PieceColor)
    : number :=
  fold_left
    (fun (total : number) (sq : Z * Z) =>
       match cell (board gameState) (fst sq) (snd sq) with
       | Some piece =>
           if PieceColor_eqb (color piece) c
           then plus total (valueOf piece)
           else total
       | None => total
       end)
    squares (Num 0).

End GameStatusView.

(** * Readings of the code used in the statements and proofs *)

Module Reading.

Import ChessUtils ChessEngine.
Local Open Scope string_scope.
Local Open Scope Z_scope.

(** ** The engine *)

(** The squares [isCastlingValid] asks [isSquareUnderAttack] about. *)
Definition kingPathOf (from to : Position) : list Z :=
  if col to >? col from then [col from; col from + 1; col from + 2]
  else [col from; col from - 1; col from - 2].

Definition rookColOf (from to : Position) : Z :=
  if col to >? col from then 7 else 0.

(** Everything [isCastlingValid] checks before the king-path loop. *)
Definition castlingGuard (piece : ChessPiece) (from to : Position)
    (gameState : GameState) : bool :=
  negb (hasMoved piece)
  && (row from =? row to)
  && match getPieceAt (board gameState)
             {| row := row from; col := rookColOf from to |} with
     | None => false
     | Some cornerRook =>
         hasType cornerRook rook
         && PieceColor_eqb (color cornerRook) (color piece)
         && negb (hasMoved cornerRook)
         && rightsAllow piece (col to >? col from) (castlingRights gameState)
         && negb (existsb
                    (fun c => isSome (cell (board gameState) (row from) c))
                    (between (Z.min (col from) (rookColOf from to) + 1)
                             (Z.max (col from) (rookColOf from to))))
     end.

(** The attack function that never answers: depth 0. *)
Definition noAttack : attackFn := fun _ _ _ => None.

(** A board of the data model: eight rows of eight cells. *)
Definition wellFormedBoard (b : Board) : Prop :=
  List.length b = 8%nat /\ Forall (fun cells => List.length cells = 8%nat) b.

(** Two states with the same board, side to move, en-passant target and
    castling rights. *)
Definition sameRules (a b : GameState) : Prop :=
  board a = board b
  /\ currentPlayer a = currentPlayer b
  /\ enPassantTarget a = enPassantTarget b
  /\ castlingRights a = castlingRights b.

(** The board that [makeMove] builds for an accepted move of [piece]. *)
Definition boardAfter (piece : ChessPiece) (from to : Position)
    (gameState : GameState) : Board :=
  let b := setCell (board gameState) (row to) (col to)
             (Some (withMoved piece)) in
  let b := setCell b (row from) (col from) None in
  let b := if isCastlingMove piece from to then handleCastling from to b
           else b in
  if isEnPassantMove piece from to gameState
  then setCell b (match color piece with
                  | white => row to + 1
                  | black => row to - 1
                  end) (col to) None
  else b.

(** [cells[m]], a hole read as empty. *)
Definition readNth (cells : list (option ChessPiece)) (m : nat)
    : option ChessPiece :=
  match nth_error cells m with
  | Some x => x
  | None => None
  end.

(** [q] is a piece of board [b], but perhaps for its moved-flag. *)
Definition pieceOf (b : Board) (q : ChessPiece) : Prop :=
  exists r c p,
    cell b r c = Some p
    /\ type q = type p /\ color q = color p /\ id q = id p.

(** Every piece of [new] is a piece of [old]. *)
Definition piecesOf (old new : Board) : Prop :=
  forall r c q, cell new r c = Some q -> pieceOf old q.

(** The castling-rights boolean of a side and a direction. *)
Definition rightFor (c : PieceColor) (kingSide : bool)
    (rights : CastlingRights) : bool :=
  match c, kingSide with
  | white, true => whiteKingSide rights
  | white, false => whiteQueenSide rights
  | black, true => blackKingSide rights
  | black, false => blackQueenSide rights
  end.

(** The rank on which the pawns of a side start. *)
Definition startingRow (c : PieceColor) : Z :=
  match c with
  | white => 6
  | black => 1
  end.

(** ** The codec *)

(** The letter [pieceToFENChar] writes for a kind and a side. *)
Definition fenLetter (t : PieceType) (c : PieceColor) : ascii :=
  match c with
  | white => upperLetter (charMap t)
  | black => charMap t
  end.

(** The pending count of empty squares, as [gameStateToFEN] writes it. *)
Definition flush (emptyCount : Z) : string :=
  if emptyCount >? 0 then toString emptyCount else "".

(** The text of the cells of a row, [emptyCount] empty squares pending. *)
Fixpoint rowText (cells : list (option ChessPiece)) (emptyCount : Z)
    : string :=
  match cells with
  | [] => flush emptyCount
  | Some p :: rest =>
      flush emptyCount
      ++ match type p with
         | Some t => String (fenLetter t (color p)) ""
         | None => "undefined"
         end
      ++ rowText rest 0
  | None :: rest => rowText rest (emptyCount + 1)
  end.

(** The text of the rows [rows] of a board, with their separators. *)
Fixpoint boardText (b : Board) (rows : list Z) : string :=
  match rows with
  | [] => ""
  | r :: rest =>
      rowText (map (cell b r) indices8) 0
      ++ (if r <? 7 then "/" else "")
      ++ boardText b rest
  end.

(** Every piece of the board has one of the six kinds. *)
Definition kindsDefined (b : Board) : Prop :=
  forall r c x, cell b r c = Some x -> type x <> None.

(** Two cells with the same occupancy: both empty, or pieces of the same
    kind and side. *)
Definition sameOccupant (a b : option ChessPiece) : Prop :=
  match a, b with
  | Some x, Some y => type y = type x /\ color y = color x
  | None, None => True
  | _, _ => False
  end.

(** The number of columns a character of a row advances the parser. *)
Definition charWidth (c : ascii) : Z :=
  if isDigit1to8 c then Z.of_nat (nat_of_ascii c) - 48 else 1.

Fixpoint textWidth (s : string) : Z :=
  match s with
  | EmptyString => 0
  | String c rest => charWidth c + textWidth rest
  end.

(** The identity token [FENToGameState] gives the piece of a square. *)
Definition pieceId (char : ascii) (r c : Z) : string :=
  String char "" ++ "-" ++ toString r ++ "-" ++ toString c.

(** The character of a digit from 0 to 9. *)
Definition digitChar (n : Z) : ascii := ascii_of_nat (48 + Z.to_nat n).

(** Every piece among [cells] has one of the six kinds. *)
Definition cellsDefined (cells : list (option ChessPiece)) : Prop :=
  forall x, In (Some x) cells -> type x <> None.

(** The board after the eight rows [s0] ... [s7] are parsed. *)
Definition parsedBoard (s0 s1 s2 s3 s4 s5 s6 s7 : string) : Board :=
  parseRowChars s7 7 0
    (parseRowChars s6 6 0
       (parseRowChars s5 5 0
          (parseRowChars s4 4 0
             (parseRowChars s3 3 0
                (parseRowChars s2 2 0
                   (parseRowChars s1 1 0
                      (parseRowChars s0 0 0 emptyBoard))))))).

Definition colorText (c : PieceColor) : string :=
  match c with
  | white => "w"
  | black => "b"
  end.

Definition targetText (ep : option Position) : string :=
  match ep with
  | Some pos => positionToChessNotation pos
  | None => "-"
  end.

(** The state a returned value carries. *)
Definition returnedState (o : completion Parsed) : option GameState :=
  match o with
  | Normal (ParsedState gs) => Some gs
  | Normal (ParsedNaNTarget gs _) => Some gs
  | TypeError => None
  end.

(** ** Boards that differ in moved-flags of one side *)

(** [b1] is [b2] but for pieces of [side] that are marked as moved in [b1]. *)
Definition similarBoards (side : PieceColor) (b1 b2 : Board) : Prop :=
  List.length b1 = List.length b2
  /\ forall r c,
       cell b1 r c = cell b2 r c
       \/ exists y,
            color y = side
            /\ cell b2 r c = Some y
            /\ cell b1 r c = Some (withMoved y).

(** Every castling right of [r1] is one of [r2]. *)
Definition rightsWithin (r1 r2 : CastlingRights) : Prop :=
  forall c kingSide,
    rightFor c kingSide r1 = true -> rightFor c kingSide r2 = true.

(** The rank on which the king of a side starts. *)
Definition homeRow (c : PieceColor) : Z :=
  match c with
  | white => 7
  | black => 0
  end.

(** ** Material *)

(** What [calculateMaterialBalance] adds to the total of [side] for the
    content of a cell whose piece, if any, has a kind. *)
Definition worth (side : PieceColor) (o : option ChessPiece) : Z :=
  match o with
  | Some x =>
      if PieceColor_eqb (color x) side
      then match type x with
           | Some t => PIECE_VALUES t
           | None => 0
           end
      else 0
  | None => 0
  end.

(** The sum of [worth] over the cells at [sqs]. *)
Fixpoint worthOver (side : PieceColor) (b : Board) (sqs : list (Z * Z)) : Z :=
  match sqs with
  | [] => 0
  | sq :: rest => worth side (cell b (fst sq) (snd sq)) + worthOver side b rest
  end.

Definition material (side : PieceColor) (b : Board) : Z :=
  worthOver side b squares.

(** The content of the cell that an en-passant capture empties; [None] for
    a move that is not one. *)
Definition passantCell (piece : ChessPiece) (from to : Position)
    (gameState : GameState) : option ChessPiece :=
  if isEnPassantMove piece from to gameState
  then cell (board gameState) (row from) (col to)
  else None.

(** ** The king of a side *)

(** The square [(r, c)] of the board holds a king of [side]. *)
Definition kingSquare (side : PieceColor) (b : Board) (r c : Z) : Prop :=
  0 <= r < 8 /\ 0 <= c < 8
  /\ exists k, cell b r c = Some k /\ type k = Some king /\ color k = side.

(** [(r, c)] is the first square that holds a king of [side], the squares
    taken row by row from row 0 and, in a row, from column 0. *)
Definition firstKingSquare (side : PieceColor) (b : Board) (r c : Z) : Prop :=
  kingSquare side b r c
  /\ forall r' c', kingSquare side b r' c' -> 8 * r + c <= 8 * r' + c'.

(** The king of the side to move is attacked by the other side: the square
    of its king, the first one if the board holds several, is under attack.
    A side without a king is not attacked. *)
Definition kingAttacked (gs : GameState) : Prop :=
  exists r c,
    firstKingSquare (currentPlayer gs) (board gs) r c
    /\ isSquareUnderAttack {| row := r; col := c |}
         (opponentOf (currentPlayer gs)) gs = true.

End Reading.

(** * Positions used as instances *)

Module Positions.

Import ChessUtils ChessEngine.
Local Open Scope string_scope.
Local Open Scope Z_scope.

Definition square (r c : Z) : Position := {| row := r; col := c |}.

Definition noPieces : GameState :=
  {| board := emptyBoard;
     currentPlayer := white;
     moveHistory := [];
     capturedPieces := [];
     gameStatus := playing;
     winner := None;
     lastMove := None;
     enPassantTarget := None;
     castlingRights :=
       {| whiteKingSide := false; whiteQueenSide := false;
          blackKingSide := false; blackQueenSide := false |} |}.

(** The state [FENToGameState] returns for a well-formed text. *)
Definition stateOfFEN (fen : string) : GameState :=
  match FENToGameState fen with
  | Normal (ParsedState gs) => gs
  | _ => noPieces
  end.

(** The state after an accepted move. *)
Definition playMove (from to : Position) (gameState : GameState)
    : GameState :=
  match makeMove from to gameState with
  | Normal (Some gs) => gs
  | _ => gameState
  end.

Definition initialState : GameState := stateOfFEN INITIAL_BOARD_FEN.

(** After 1. f3 e6 2. g4: black mates with the queen on h4. *)
Definition beforeFoolsMate : GameState :=
  playMove (square 6 6) (square 4 6)
    (playMove (square 1 4) (square 2 4)
       (playMove (square 6 5) (square 5 5) initialState)).

(** White king a5, white pawn e5, black rook h5, black king h8; black has
    just played d7-d5, so the pawns on d5 and e5 both shield the king from
    the rook and d6 is the en-passant target. *)
Definition pinnedEnPassant : GameState :=
  playMove (square 1 3) (square 3 3)
    (stateOfFEN "7k/3p4/8/K3P2r/8/8/8/8 b - - 0 1").

(** Kings on e1 and e8, white pawn e5; black has just played d7-d5. *)
Definition plainEnPassant : GameState :=
  playMove (square 1 3) (square 3 3)
    (stateOfFEN "4k3/3p4/8/4P3/8/8/8/4K3 b - - 0 1").

(** White king e1 and rook a1, neither has moved, queenside right kept. *)
Definition queensideReady : GameState :=
  stateOfFEN "4k3/8/8/8/8/8/8/R3K3 w Q - 0 1".

(** As [queensideReady] with a black rook on d8, which attacks d1. *)
Definition queensideCrossed : GameState :=
  stateOfFEN "3rk3/8/8/8/8/8/8/R3K3 w Q - 0 1".

(** White pawn e2 with a black knight on e3, in front of it. *)
Definition blockedPawn : GameState :=
  stateOfFEN "4k3/8/8/8/8/4n3/4P3/4K3 w - - 0 1".

(** The piece [FENToGameState] puts on a square for a letter. *)
Definition parsedPiece (char : ascii) (r c : Z) : ChessPiece :=
  FENCharToPiece char
    (String char "" ++ "-" ++ toString r ++ "-" ++ toString c).

(** After 1. e4 d5: the pawn on e4 may capture on d5. *)
Definition beforeCapture : GameState :=
  playMove (square 1 3) (square 3 3)
    (playMove (square 6 4) (square 4 4) initialState).

End Positions.

(** * Properties of the engine *)

Module EngineFacts.

Import ChessUtils ChessEngine Reading Positions.

(** ** Loops *)

Lemma scanAny_ext (f g : Z * Z -> option bool) (l : list (Z * Z)) :
  (forall sq, In sq l -> f sq = g sq) -> scanAny f l = scanAny g l.
Proof.
  induction l as [|sq rest IH]; intros H; simpl; [reflexivity|].
  rewrite (H sq (or_introl eq_refl)).
  destruct (g sq) as [[|]|]; try reflexivity.
  apply IH. intros s Hs. apply H. now right.
Qed.

Lemma scanAny_returns (f : Z * Z -> option bool) (l : list (Z * Z)) :
  (forall sq, In sq l -> f sq <> None) -> scanAny f l <> None.
Proof.
  induction l as [|sq rest IH]; intros H; simpl; [discriminate|].
  destruct (f sq) as [[|]|] eqn:E.
  - discriminate.
  - apply IH. intros s Hs. apply H. now right.
  - exfalso. apply (H sq (or_introl eq_refl)). exact E.
Qed.

Lemma squares_bounds (r c : Z) :
  In (r, c) squares <-> (0 <= r < 8 /\ 0 <= c < 8).
Proof.
  split.
  - intros H.
    assert (F : forallb (fun sq => (0 <=? fst sq) && (fst sq <? 8)
                                   && (0 <=? snd sq) && (snd sq <? 8))
                        squares = true) by reflexivity.
    rewrite forallb_forall in F. specialize (F _ H). simpl in F. lia.
  - intros [Hr Hc].
    assert (Er : r = 0 \/ r = 1 \/ r = 2 \/ r = 3 \/ r = 4 \/ r = 5
                 \/ r = 6 \/ r = 7) by lia.
    assert (Ec : c = 0 \/ c = 1 \/ c = 2 \/ c = 3 \/ c = 4 \/ c = 5
                 \/ c = 6 \/ c = 7) by lia.
    unfold squares, indices8.
    repeat (destruct Er as [-> | Er]);
      try subst r;
      repeat (destruct Ec as [-> | Ec]); try subst c; simpl; tauto.
Qed.

Lemma between_In (lo hi x : Z) : In x (between lo hi) <-> lo <= x < hi.
Proof.
  unfold between. rewrite in_map_iff. split.
  - intros [i [<- Hi]]. apply in_seq in Hi. lia.
  - intros H. exists (Z.to_nat (x - lo)). split; [lia|].
    apply in_seq. lia.
Qed.

Lemma pathLoop_returns (n : nat) : forall r c rowStep colStep to b k,
  0 <= k <= Z.of_nat n ->
  r + k * rowStep = row to -> c + k * colStep = col to ->
  pathLoop n r c rowStep colStep to b <> None.
Proof.
  induction n as [|n IH]; intros r c rowStep colStep to b k Hk Hr Hc.
  - assert (k = 0) by lia. subst k. simpl.
    replace (r =? row to) with true by (symmetry; apply Z.eqb_eq; lia).
    replace (c =? col to) with true by (symmetry; apply Z.eqb_eq; lia).
    simpl. discriminate.
  - simpl.
    destruct (negb (r =? row to) || negb (c =? col to)) eqn:E;
      [|discriminate].
    destruct (cell b r c); [discriminate|].
    apply (IH _ _ _ _ _ _ (k - 1)).
    + assert (k <> 0).
      { intros ->. rewrite Z.mul_0_l, Z.add_0_r in Hr, Hc.
        apply Z.eqb_eq in Hr, Hc. rewrite Hr, Hc in E. discriminate. }
      lia.
    + lia.
    + lia.
Qed.

Lemma isPathClear_returns (from to : Position) (b : Board) :
  row to = row from \/ col to = col from
  \/ Z.abs (row to - row from) = Z.abs (col to - col from) ->
  isPathClear from to b <> None.
Proof.
  intros H. unfold isPathClear.
  set (m := Z.max (Z.abs (row to - row from)) (Z.abs (col to - col from))).
  destruct (Z.eq_dec m 0) as [E0|E0].
  - apply (pathLoop_returns _ _ _ _ _ _ _ 0); [lia| |].
    + destruct (row to =? row from) eqn:E1; [apply Z.eqb_eq in E1; lia|].
      apply Z.eqb_neq in E1. lia.
    + destruct (col to =? col from) eqn:E1; [apply Z.eqb_eq in E1; lia|].
      apply Z.eqb_neq in E1. lia.
  - apply (pathLoop_returns _ _ _ _ _ _ _ (m - 1)); [lia| |].
    + destruct (row to =? row from) eqn:E1; [apply Z.eqb_eq in E1; lia|].
      apply Z.eqb_neq in E1.
      destruct (row to >? row from) eqn:E2; lia.
    + destruct (col to =? col from) eqn:E1; [apply Z.eqb_eq in E1; lia|].
      apply Z.eqb_neq in E1.
      destruct (col to >? col from) eqn:E2; lia.
Qed.

(** ** The castling test and the depth of the recursion *)

Ltac split_andb :=
  repeat match goal with
         | H : _ && _ = true |- _ =>
             let H1 := fresh H in
             apply andb_prop in H; destruct H as [H H1]
         end.

Lemma isCastlingValid_with_guard (attack : attackFn) (piece : ChessPiece)
    (from to : Position) (gameState : GameState) :
  isCastlingValid_with attack piece from to gameState
  = if castlingGuard piece from to gameState
    then kingPathLoop attack (kingPathOf from to) (row from)
           (opponentOf (color piece)) gameState
    else Some false.
Proof.
  unfold isCastlingValid_with, castlingGuard, kingPathOf, rookColOf.
  destruct (hasMoved piece); [reflexivity|].
  destruct (row from =? row to); [|reflexivity].
  cbn [negb andb].
  destruct (getPieceAt (board gameState) _) as [cr|]; [|reflexivity].
  destruct (hasType cr rook); [|reflexivity].
  destruct (PieceColor_eqb (color cr) (color piece)); [|reflexivity].
  destruct (hasMoved cr); [reflexivity|].
  cbn [negb andb orb].
  destruct (rightsAllow piece _ _); [|reflexivity].
  cbn [negb andb].
  destruct (existsb _ _); [reflexivity|].
  cbn [negb]. destruct (col to >? col from); reflexivity.
Qed.

Lemma getPieceAt_cell (b : Board) (pos : Position) (p : ChessPiece) :
  getPieceAt b pos = Some p ->
  cell b (row pos) (col pos) = Some p
  /\ 0 <= row pos < 8 /\ 0 <= col pos < 8.
Proof.
  unfold getPieceAt, isValidPosition. intros H.
  destruct ((row pos >=? 0) && (row pos <? 8)
            && (col pos >=? 0) && (col pos <? 8)) eqn:E;
    cbn [negb] in H; [|discriminate].
  split; [exact H | lia].
Qed.

Lemma getPieceAt_valid (b : Board) (r c : Z) :
  0 <= r < 8 -> 0 <= c < 8 ->
  getPieceAt b {| row := r; col := c |} = cell b r c.
Proof.
  intros Hr Hc. unfold getPieceAt, isValidPosition. cbn [row col].
  replace ((r >=? 0) && (r <? 8) && (c >=? 0) && (c <? 8)) with true
    by (symmetry; lia).
  reflexivity.
Qed.

Lemma PieceColor_eqb_eq (a b : PieceColor) :
  PieceColor_eqb a b = true <-> a = b.
Proof. destruct a, b; simpl; split; congruence. Qed.

Lemma PieceColor_eqb_opponent (c : PieceColor) :
  PieceColor_eqb c (opponentOf c) = false.
Proof. destruct c; reflexivity. Qed.

(** What a passing guard says about the row of the king. *)
Lemma castlingGuard_row (piece : ChessPiece) (from to : Position)
    (gameState : GameState) :
  castlingGuard piece from to gameState = true ->
  exists cornerRook,
    cell (board gameState) (row from) (rookColOf from to) = Some cornerRook
    /\ color cornerRook = color piece
    /\ 0 <= row from < 8
    /\ forall c,
         Z.min (col from) (rookColOf from to) < c
           < Z.max (col from) (rookColOf from to) ->
         cell (board gameState) (row from) c = None.
Proof.
  unfold castlingGuard. intros H.
  destruct (getPieceAt (board gameState) _) as [cr|] eqn:Ecr.
  2:{ rewrite andb_false_r in H. discriminate. }
  apply getPieceAt_cell in Ecr. cbn [row col] in Ecr.
  destruct Ecr as [Ecell [Hrow _]].
  split_andb.
  exists cr. repeat split; try lia; try assumption.
  - now apply PieceColor_eqb_eq.
  - intros c Hc.
    match goal with
    | Hx : negb (existsb _ _) = true |- _ =>
        apply negb_true_iff in Hx;
        destruct (cell (board gameState) (row from) c) eqn:Ec;
          [|reflexivity];
        exfalso;
        assert (Hex : existsb
                        (fun c0 => isSome (cell (board gameState) (row from) c0))
                        (between (Z.min (col from) (rookColOf from to) + 1)
                           (Z.max (col from) (rookColOf from to))) = true)
          by (apply existsb_exists; exists c; split;
              [apply between_In; lia | rewrite Ec; reflexivity]);
        congruence
    end.
Qed.

(** While a king may castle towards one end of its row, no king of the other
    side passes the guard for a square on that side of it: its corner rook
    would be the first king's. *)
Lemma castlingGuard_excludes (kingA kingB : ChessPiece)
    (fromA toA fromB : Position) (gameState : GameState) (c : Z) :
  castlingGuard kingA fromA toA gameState = true ->
  cell (board gameState) (row fromA) (col fromA) = Some kingA ->
  0 <= col fromA < 8 ->
  cell (board gameState) (row fromB) (col fromB) = Some kingB ->
  0 <= col fromB < 8 ->
  color kingB = opponentOf (color kingA) ->
  In c (kingPathOf fromA toA) ->
  castlingGuard kingB fromB {| row := row fromA; col := c |} gameState
  = false.
Proof.
  intros HG HA HcA HB HcB Hcol Hin.
  destruct (castlingGuard_row _ _ _ _ HG) as [rk [Hrk [Hrkc [Hrow Hclear]]]].
  unfold castlingGuard. cbn [row col].
  destruct (hasMoved kingB); [reflexivity|].
  destruct (row fromB =? row fromA) eqn:Erow; [|reflexivity].
  apply Z.eqb_eq in Erow. cbn [negb andb].
  assert (Hne : col fromB <> col fromA).
  { intros E. rewrite Erow, E, HA in HB. injection HB as <-.
    destruct (color kingA); discriminate. }
  assert (Hside : rookColOf fromB {| row := row fromA; col := c |}
                  = rookColOf fromA toA).
  { unfold rookColOf, kingPathOf in *. cbn [row col].
    destruct (col toA >? col fromA) eqn:EA.
    - (* the corner is column 7 *)
      assert (col fromB < col fromA).
      { destruct (Z_lt_ge_dec (col fromB) (col fromA)) as [Hlt|Hge]; [exact Hlt|].
        exfalso.
        destruct (Z.eq_dec (col fromB) 7) as [E7|E7].
        - rewrite Erow, E7, Hrk in HB. injection HB as <-.
          rewrite Hrkc in Hcol. destruct (color kingA); discriminate.
        - rewrite Erow, (Hclear (col fromB)) in HB; [discriminate | lia]. }
      replace (c >? col fromB) with true; [reflexivity|].
      simpl in Hin. lia.
    - (* the corner is column 0 *)
      assert (col fromA < col fromB).
      { destruct (Z_lt_ge_dec (col fromA) (col fromB)) as [Hlt|Hge]; [exact Hlt|].
        exfalso.
        destruct (Z.eq_dec (col fromB) 0) as [E0|E0].
        - rewrite Erow, E0, Hrk in HB. injection HB as <-.
          rewrite Hrkc in Hcol. destruct (color kingA); discriminate.
        - rewrite Erow, (Hclear (col fromB)) in HB; [discriminate | lia]. }
      replace (c >? col fromB) with false; [reflexivity|].
      simpl in Hin. lia. }
  rewrite Hside, Erow.
  assert (Hrc : 0 <= rookColOf fromA toA < 8)
    by (unfold rookColOf; destruct (col toA >? col fromA); lia).
  rewrite (getPieceAt_valid _ _ _ Hrow Hrc), Hrk.
  replace (PieceColor_eqb (color rk) (color kingB)) with false.
  - now rewrite andb_false_r.
  - rewrite Hrkc, Hcol. symmetry. apply PieceColor_eqb_opponent.
Qed.

Lemma kingPathLoop_ext (att1 att2 : attackFn) (path : list Z) (r : Z)
    (byColor : PieceColor) (gs1 gs2 : GameState) :
  (forall c, In c path ->
     att1 {| row := r; col := c |} byColor gs1
     = att2 {| row := r; col := c |} byColor gs2) ->
  kingPathLoop att1 path r byColor gs1 = kingPathLoop att2 path r byColor gs2.
Proof.
  induction path as [|c rest IH]; intros H; simpl; [reflexivity|].
  rewrite (H c (or_introl eq_refl)).
  destruct (att2 _ _ _) as [[|]|]; try reflexivity.
  apply IH. intros c' Hc'. apply H. now right.
Qed.

Lemma kingPathLoop_returns (att : attackFn) (path : list Z) (r : Z)
    (byColor : PieceColor) (gameState : GameState) :
  (forall c, In c path ->
     att {| row := r; col := c |} byColor gameState <> None) ->
  kingPathLoop att path r byColor gameState <> None.
Proof.
  induction path as [|c rest IH]; intros H; simpl; [discriminate|].
  destruct (att _ _ _) as [[|]|] eqn:E.
  - discriminate.
  - apply IH. intros c' Hc'. apply H. now right.
  - exfalso. apply (H c (or_introl eq_refl)). exact E.
Qed.

(** Pieces other than kings never ask [isSquareUnderAttack]. *)
Lemma isPieceMovementValid_with_other (att : attackFn) (piece : ChessPiece)
    (from to : Position) (gameState : GameState) :
  hasType piece king = false ->
  isPieceMovementValid_with att piece from to gameState
  = isPieceMovementValid_with noAttack piece from to gameState
  /\ isPieceMovementValid_with noAttack piece from to gameState <> None.
Proof.
  unfold hasType, isPieceMovementValid_with. intros Hk.
  destruct (type piece) as [[]|]; try discriminate Hk;
    (split; [reflexivity|]); try discriminate.
  - (* queen *)
    destruct (negb (row to - row from =? 0) && negb (col to - col from =? 0)
              && negb (Z.abs (row to - row from) =? Z.abs (col to - col from)))
      eqn:E; [discriminate|].
    apply isPathClear_returns. lia.
  - (* rook *)
    destruct (negb (row to - row from =? 0) && negb (col to - col from =? 0))
      eqn:E; [discriminate|].
    apply isPathClear_returns. lia.
  - (* bishop *)
    destruct (negb (Z.abs (row to - row from) =? Z.abs (col to - col from)))
      eqn:E; [discriminate|].
    apply isPathClear_returns. lia.
Qed.

Section Nested.

(** A king on [fromA] that passes the castling guard towards [toA]. *)
Variables (kingA : ChessPiece) (fromA toA : Position) (gameState : GameState).
Hypothesis guardA : castlingGuard kingA fromA toA gameState = true.
Hypothesis cellA :
  cell (board gameState) (row fromA) (col fromA) = Some kingA.
Hypothesis colA : 0 <= col fromA < 8.

(** The scan started by the king-path loop needs no further depth. *)
Lemma attackedFrom_nested (att : attackFn) (c : Z) (sq : Z * Z) :
  In c (kingPathOf fromA toA) ->
  In sq squares ->
  let target := {| row := row fromA; col := c |} in
  attackedFrom att target (opponentOf (color kingA)) gameState sq
  = attackedFrom noAttack target (opponentOf (color kingA)) gameState sq
  /\ attackedFrom noAttack target (opponentOf (color kingA)) gameState sq
     <> None.
Proof.
  intros Hc Hsq target. subst target. destruct sq as [r b].
  apply squares_bounds in Hsq. destruct Hsq as [Hr Hb].
  unfold attackedFrom.
  destruct (cell (board gameState) r b) as [kingB|] eqn:EB;
    [|split; [reflexivity | discriminate]].
  destruct (PieceColor_eqb (color kingB) (opponentOf (color kingA))) eqn:Ecol;
    [|split; [reflexivity | discriminate]].
  destruct (hasType kingB pawn); [split; [reflexivity | discriminate]|].
  destruct (hasType kingB king) eqn:Ek.
  2:{ destruct (isPieceMovementValid_with_other att kingB
                  {| row := r; col := b |} {| row := row fromA; col := c |}
                  gameState Ek) as [E1 E2].
      split; assumption. }
  unfold isPieceMovementValid_with. unfold hasType in Ek.
  destruct (type kingB) as [[]|]; try discriminate Ek.
  destruct ((Z.abs (_ - row {| row := r; col := b |}) <=? 1)
            && (Z.abs (_ - col {| row := r; col := b |}) <=? 1));
    [split; [reflexivity | discriminate]|].
  rewrite !isCastlingValid_with_guard.
  rewrite (castlingGuard_excludes kingA kingB fromA toA
             {| row := r; col := b |} gameState c); auto.
  - split; [reflexivity | discriminate].
  - now apply PieceColor_eqb_eq.
Qed.

Lemma isSquareUnderAttack_nested (att : attackFn) (c : Z) :
  In c (kingPathOf fromA toA) ->
  let target := {| row := row fromA; col := c |} in
  isSquareUnderAttack_with att target (opponentOf (color kingA)) gameState
  = isSquareUnderAttack_fuel 1 target (opponentOf (color kingA)) gameState
  /\ isSquareUnderAttack_fuel 1 target (opponentOf (color kingA)) gameState
     <> None.
Proof.
  intros Hc target. subst target. cbn [isSquareUnderAttack_fuel].
  unfold isSquareUnderAttack_with. split.
  - apply scanAny_ext. intros sq Hsq.
    exact (proj1 (attackedFrom_nested att c sq Hc Hsq)).
  - apply scanAny_returns. intros sq Hsq.
    exact (proj2 (attackedFrom_nested noAttack c sq Hc Hsq)).
Qed.

End Nested.

(** One level of [isSquareUnderAttack] below it is all that
    [isPieceMovementValid] needs, for a piece that stands on [from]. *)
Lemma isPieceMovementValid_with_depth (n : nat) (piece : ChessPiece)
    (from to : Position) (gameState : GameState) :
  cell (board gameState) (row from) (col from) = Some piece ->
  0 <= col from < 8 ->
  isPieceMovementValid_with (isSquareUnderAttack_fuel (S n)) piece from to
    gameState
  = isPieceMovementValid_with (isSquareUnderAttack_fuel 1) piece from to
      gameState
  /\ isPieceMovementValid_with (isSquareUnderAttack_fuel 1) piece from to
       gameState <> None.
Proof.
  intros Hcell Hcol.
  destruct (hasType piece king) eqn:Ek.
  2:{ destruct (isPieceMovementValid_with_other (isSquareUnderAttack_fuel (S n))
                  piece from to gameState Ek) as [E1 E2].
      destruct (isPieceMovementValid_with_other (isSquareUnderAttack_fuel 1)
                  piece from to gameState Ek) as [E3 _].
      split; congruence. }
  unfold isPieceMovementValid_with. unfold hasType in Ek.
  destruct (type piece) as [[]|]; try discriminate Ek.
  destruct ((Z.abs (row to - row from) <=? 1)
            && (Z.abs (col to - col from) <=? 1));
    [split; [reflexivity | discriminate]|].
  rewrite !isCastlingValid_with_guard.
  destruct (castlingGuard piece from to gameState) eqn:EG;
    [|split; [reflexivity | discriminate]].
  split.
  - apply kingPathLoop_ext. intros c Hc.
    exact (proj1 (isSquareUnderAttack_nested piece from to gameState
                    EG Hcell Hcol (isSquareUnderAttack_fuel n) c Hc)).
  - apply kingPathLoop_returns. intros c Hc.
    exact (proj2 (isSquareUnderAttack_nested piece from to gameState
                    EG Hcell Hcol (isSquareUnderAttack_fuel 0) c Hc)).
Qed.

(** [isSquareUnderAttack] returns, and two nested activations are the most
    it ever has: the answer at any greater depth is the answer at depth 2. *)
Lemma isSquareUnderAttack_fuel_total (n : nat) (position : Position)
    (byColor : PieceColor) (gameState : GameState) :
  isSquareUnderAttack_fuel (S (S n)) position byColor gameState
  = Some (isSquareUnderAttack position byColor gameState).
Proof.
  assert (Hsq : forall m sq, In sq squares ->
            attackedFrom (isSquareUnderAttack_fuel (S m)) position byColor
              gameState sq
            = attackedFrom (isSquareUnderAttack_fuel 1) position byColor
                gameState sq
            /\ attackedFrom (isSquareUnderAttack_fuel 1) position byColor
                 gameState sq <> None).
  { intros m [r c] Hin. apply squares_bounds in Hin. destruct Hin as [Hr Hc].
    unfold attackedFrom.
    destruct (cell (board gameState) r c) as [p|] eqn:Ep;
      [|split; [reflexivity | discriminate]].
    destruct (PieceColor_eqb (color p) byColor);
      [|split; [reflexivity | discriminate]].
    destruct (hasType p pawn); [split; [reflexivity | discriminate]|].
    apply isPieceMovementValid_with_depth; assumption. }
  assert (E : isSquareUnderAttack_fuel (S (S n)) position byColor gameState
              = isSquareUnderAttack_fuel 2 position byColor gameState).
  { cbn [isSquareUnderAttack_fuel]. unfold isSquareUnderAttack_with.
    apply scanAny_ext. intros sq Hin. exact (proj1 (Hsq n sq Hin)). }
  rewrite E. unfold isSquareUnderAttack, callDepth.
  destruct (isSquareUnderAttack_fuel 2 position byColor gameState) eqn:E2;
    [reflexivity|].
  exfalso. revert E2. cbn [isSquareUnderAttack_fuel].
  unfold isSquareUnderAttack_with.
  apply scanAny_returns. intros sq Hin. exact (proj2 (Hsq 0%nat sq Hin)).
Qed.

(** ** The methods of the class, as equations *)

Lemma kingPathLoop_total (n : nat) (path : list Z) (r : Z)
    (byColor : PieceColor) (gameState : GameState) :
  kingPathLoop (isSquareUnderAttack_fuel (S (S n))) path r byColor gameState
  = Some (forallb
            (fun c => negb (isSquareUnderAttack {| row := r; col := c |}
                              byColor gameState))
            path).
Proof.
  induction path as [|c rest IH]; simpl; [reflexivity|].
  change (isSquareUnderAttack_with (isSquareUnderAttack_with
            (isSquareUnderAttack_fuel n)))
    with (isSquareUnderAttack_fuel (S (S n))).
  rewrite isSquareUnderAttack_fuel_total.
  destruct (isSquareUnderAttack _ _ _); [reflexivity | exact IH].
Qed.

(** [isCastlingValid]: the guard, then no attacked square on the path. *)
Lemma isCastlingValid_unfold (piece : ChessPiece) (from to : Position)
    (gameState : GameState) :
  isCastlingValid piece from to gameState
  = castlingGuard piece from to gameState
    && forallb
         (fun c => negb (isSquareUnderAttack {| row := row from; col := c |}
                           (opponentOf (color piece)) gameState))
         (kingPathOf from to).
Proof.
  unfold isCastlingValid, callDepth.
  rewrite isCastlingValid_with_guard.
  destruct (castlingGuard piece from to gameState); [|reflexivity].
  rewrite kingPathLoop_total. reflexivity.
Qed.


Lemma isPieceMovementValid_king (piece : ChessPiece) (from to : Position)
    (gameState : GameState) :
  type piece = Some king ->
  isPieceMovementValid piece from to gameState
  = ((Z.abs (row to - row from) <=? 1) && (Z.abs (col to - col from) <=? 1))
    || isCastlingValid piece from to gameState.
Proof.
  intros Hk. unfold isPieceMovementValid, isCastlingValid,
    isPieceMovementValid_with. rewrite Hk.
  destruct ((Z.abs (row to - row from) <=? 1)
            && (Z.abs (col to - col from) <=? 1)); reflexivity.
Qed.

(** What an accepted move has passed. *)
Lemma isValidMove_inv (from to : Position) (gameState : GameState) :
  isValidMove from to gameState = true ->
  exists piece,
    getPieceAt (board gameState) from = Some piece
    /\ color piece = currentPlayer gameState
    /\ isValidPosition to = true
    /\ (forall t, getPieceAt (board gameState) to = Some t ->
                  color t <> color piece)
    /\ isPieceMovementValid piece from to gameState = true
    /\ wouldLeaveKingInCheck from to gameState = false.
Proof.
  unfold isValidMove. intros H.
  destruct (getPieceAt (board gameState) from) as [p|]; [|discriminate].
  exists p. split; [reflexivity|].
  destruct (PieceColor_eqb (color p) (currentPlayer gameState)) eqn:Ec;
    cbn [negb] in H; [|discriminate].
  destruct (isValidPosition to); cbn [negb] in H; [|discriminate].
  destruct (getPieceAt (board gameState) to) as [t|] eqn:Et.
  - destruct (PieceColor_eqb (color t) (color p)) eqn:Etc; [discriminate|].
    destruct (isPieceMovementValid p from to gameState);
      cbn [negb] in H; [|discriminate].
    destruct (wouldLeaveKingInCheck from to gameState); [discriminate|].
    repeat split; try reflexivity.
    + now apply PieceColor_eqb_eq.
    + intros t' Ht' E. injection Ht' as <-.
      apply PieceColor_eqb_eq in E. congruence.
  - destruct (isPieceMovementValid p from to gameState);
      cbn [negb] in H; [|discriminate].
    destruct (wouldLeaveKingInCheck from to gameState); [discriminate|].
    repeat split; try reflexivity.
    + now apply PieceColor_eqb_eq.
    + intros t' Ht'. discriminate.
Qed.

(** ** The scan for a legal move *)

Lemma positionOf_eta (pos : Position) : positionOf (row pos, col pos) = pos.
Proof. destruct pos. reflexivity. Qed.

Lemma hasValidMoves_spec (gameState : GameState) :
  hasValidMoves gameState = true
  <-> exists from to, isValidMove from to gameState = true.
Proof.
  unfold hasValidMoves. rewrite existsb_exists. split.
  - intros [[r c] [Hin H]]. cbn [fst snd] in H.
    destruct (cell (board gameState) r c) as [p|]; [|discriminate].
    apply andb_prop in H. destruct H as [_ Hlen].
    unfold getValidMoves in Hlen.
    destruct (getPieceAt (board gameState) (positionOf (r, c)));
      [|discriminate].
    destruct (negb _); [discriminate|].
    destruct (filter _ _) as [|t rest] eqn:Ef; [discriminate|].
    assert (Ht : In t (filter
                         (fun to => isValidMove (positionOf (r, c)) to gameState)
                         (map positionOf squares)))
      by (rewrite Ef; now left).
    apply filter_In in Ht. exists (positionOf (r, c)), t. apply Ht.
  - intros [from [to H]].
    destruct (isValidMove_inv _ _ _ H) as [p [Hp [Hc [Hv _]]]].
    destruct (getPieceAt_cell _ _ _ Hp) as [Hcell [Hr Hcl]].
    exists (row from, col from). split; [now apply squares_bounds|].
    cbn [fst snd]. rewrite Hcell, positionOf_eta.
    apply andb_true_intro. split; [now apply PieceColor_eqb_eq|].
    unfold getValidMoves. rewrite Hp.
    replace (PieceColor_eqb (color p) (currentPlayer gameState)) with true
      by (symmetry; now apply PieceColor_eqb_eq).
    cbn [negb].
    assert (Ht : In to (filter (fun t => isValidMove from t gameState)
                          (map positionOf squares))).
    { apply filter_In. split; [|exact H].
      apply in_map_iff. exists (row to, col to).
      split; [apply positionOf_eta|].
      apply squares_bounds. unfold isValidPosition in Hv. lia. }
    destruct (filter _ _); [destruct Ht | reflexivity].
Qed.

(** ** Fields the rules do not read *)

Lemma isPieceMovementValid_with_sameRules (att1 att2 : attackFn)
    (piece : ChessPiece) (from to : Position) (a b : GameState) :
  sameRules a b ->
  (forall p c, att1 p c a = att2 p c b) ->
  isPieceMovementValid_with att1 piece from to a
  = isPieceMovementValid_with att2 piece from to b.
Proof.
  intros [Hb [Hp [He Hc]]] Hatt.
  unfold isPieceMovementValid_with.
  destruct (type piece) as [[]|]; try reflexivity.
  - (* king *)
    destruct ((Z.abs (row to - row from) <=? 1)
              && (Z.abs (col to - col from) <=? 1)); [reflexivity|].
    rewrite !isCastlingValid_with_guard.
    unfold castlingGuard. rewrite Hb, Hc.
    match goal with |- (if ?g then _ else _) = _ => destruct g end;
      [|reflexivity].
    apply kingPathLoop_ext. intros c _. apply Hatt.
  - now rewrite Hb.
  - now rewrite Hb.
  - now rewrite Hb.
  - unfold isPawnMoveValid. now rewrite Hb, He.
Qed.

Lemma isSquareUnderAttack_fuel_sameRules (n : nat) :
  forall position byColor a b,
    sameRules a b ->
    isSquareUnderAttack_fuel n position byColor a
    = isSquareUnderAttack_fuel n position byColor b.
Proof.
  induction n as [|n IH]; intros position byColor a b Hab; [reflexivity|].
  cbn [isSquareUnderAttack_fuel]. unfold isSquareUnderAttack_with.
  apply scanAny_ext. intros [r c] _. unfold attackedFrom.
  destruct Hab as [Hb Hrest]. rewrite Hb.
  destruct (cell (board b) r c) as [p|]; [|reflexivity].
  destruct (PieceColor_eqb (color p) byColor); [|reflexivity].
  destruct (hasType p pawn); [reflexivity|].
  apply isPieceMovementValid_with_sameRules.
  - split; assumption.
  - intros q k. apply IH. split; assumption.
Qed.

Lemma isInCheck_sameRules (a b : GameState) :
  sameRules a b -> isInCheck a = isInCheck b.
Proof.
  intros Hab. unfold isInCheck, isSquareUnderAttack.
  destruct Hab as [Hb [Hp Hrest]]. rewrite Hb, Hp.
  destruct (find _ squares) as [[r c]|]; [|reflexivity].
  f_equal. apply isSquareUnderAttack_fuel_sameRules.
  repeat split; tauto.
Qed.

Lemma isValidMove_sameRules (from to : Position) (a b : GameState) :
  sameRules a b -> isValidMove from to a = isValidMove from to b.
Proof.
  intros Hab. unfold isValidMove.
  assert (Hm : forall p, isPieceMovementValid p from to a
                         = isPieceMovementValid p from to b).
  { intros p. unfold isPieceMovementValid. f_equal.
    apply isPieceMovementValid_with_sameRules; [exact Hab|].
    intros q k. now apply isSquareUnderAttack_fuel_sameRules. }
  assert (Hk : wouldLeaveKingInCheck from to a
               = wouldLeaveKingInCheck from to b).
  { unfold wouldLeaveKingInCheck. apply isInCheck_sameRules.
    destruct Hab as [Hb [Hp [He Hc]]].
    unfold sameRules, makeTemporaryMove, withBoard. cbn.
    rewrite Hb. repeat split; assumption. }
  destruct Hab as [Hb [Hp [He Hc]]]. rewrite Hb, Hp, Hk.
  destruct (getPieceAt (board b) from) as [p|]; [|reflexivity].
  rewrite Hm. reflexivity.
Qed.

Lemma sameRules_withStatus (gameState : GameState) (s : GameStatus) :
  sameRules (withStatus gameState s) gameState.
Proof. repeat split. Qed.

Lemma hasValidMoves_sameRules (a b : GameState) :
  sameRules a b -> hasValidMoves a = hasValidMoves b.
Proof.
  intros Hab.
  destruct (hasValidMoves a) eqn:Ea; destruct (hasValidMoves b) eqn:Eb;
    try reflexivity.
  - apply hasValidMoves_spec in Ea. destruct Ea as [f [t Hft]].
    rewrite (isValidMove_sameRules f t a b Hab) in Hft.
    assert (hasValidMoves b = true)
      by (apply hasValidMoves_spec; eauto). congruence.
  - apply hasValidMoves_spec in Eb. destruct Eb as [f [t Hft]].
    rewrite <- (isValidMove_sameRules f t a b Hab) in Hft.
    assert (hasValidMoves a = true)
      by (apply hasValidMoves_spec; eauto). congruence.
Qed.

Lemma getGameStatus_sameRules (a b : GameState) :
  sameRules a b -> getGameStatus a = getGameStatus b.
Proof.
  intros Hab. unfold getGameStatus.
  now rewrite (hasValidMoves_sameRules a b Hab), (isInCheck_sameRules a b Hab).
Qed.

(** ** What [makeMove] returns *)

Lemma makeMove_inv (from to : Position) (gameState gs' : GameState) :
  makeMove from to gameState = Normal (Some gs') ->
  exists piece text,
    isValidMove from to gameState = true
    /\ cell (board gameState) (row from) (col from) = Some piece
    /\ let move :=
         {| from := from; to := to; piece := piece;
            capturedPiece := cell (board gameState) (row to) (col to);
            isCheck := false; isCheckmate := false; isStalemate := false;
            isCastling := isCastlingMove piece from to;
            isEnPassant := isEnPassantMove piece from to gameState;
            promotion := None; notation := text |} in
       board gs' = boardAfter piece from to gameState
       /\ currentPlayer gs' = opponentOf (currentPlayer gameState)
       /\ moveHistory gs' = moveHistory gameState ++ [move]
       /\ capturedPieces gs'
          = match cell (board gameState) (row to) (col to) with
            | Some captured => capturedPieces gameState ++ [captured]
            | None => capturedPieces gameState
            end
       /\ winner gs' = None
       /\ lastMove gs' = Some move
       /\ gameStatus gs' = getGameStatus gs'.
Proof.
  unfold makeMove. intros H.
  destruct (isValidMove from to gameState) eqn:EV; cbn [negb] in H;
    [|discriminate].
  destruct (cell (board gameState) (row from) (col from)) as [p|] eqn:Ep;
    [|discriminate].
  cbv zeta in H.
  destruct (generateMoveNotation _ _) as [text|]; [|discriminate].
  injection H as <-.
  exists p, text. split; [reflexivity|]. split; [reflexivity|].
  cbv zeta.
  do 6 (split; [reflexivity|]).
  match goal with
  | |- gameStatus (withStatus ?st _) = _ =>
      transitivity (getGameStatus st); [reflexivity|]
  end.
  symmetry. apply getGameStatus_sameRules, sameRules_withStatus.
Qed.

(** ** Reading a board after an assignment *)

Lemma nth_error_mapNth (b : Board) (n m : nat)
    (f : list (option ChessPiece) -> list (option ChessPiece)) :
  nth_error (mapNth b n f) m
  = if Nat.eqb n m then option_map f (nth_error b n) else nth_error b m.
Proof.
  revert n m. induction b as [|cells rest IH]; intros n m.
  - destruct n, m; simpl; try reflexivity;
      destruct (Nat.eqb n m); reflexivity.
  - destruct n, m; simpl; try reflexivity. apply IH.
Qed.

Lemma readNth_setNth (cells : list (option ChessPiece)) (n m : nat)
    (v : option ChessPiece) :
  readNth (setNth cells n v) m = if Nat.eqb n m then v else readNth cells m.
Proof.
  unfold readNth. revert cells m.
  induction n as [|n IH]; intros cells m.
  - destruct cells, m; simpl; try reflexivity. now destruct m.
  - destruct cells as [|h t], m; simpl; try reflexivity.
    + rewrite IH. destruct (Nat.eqb n m); [reflexivity|]. now destruct m.
    + apply IH.
Qed.

Lemma cell_readNth (b : Board) (r c : Z) :
  cell b r c
  = if (r <? 0) || (c <? 0) then None
    else match nth_error b (Z.to_nat r) with
         | Some cells => readNth cells (Z.to_nat c)
         | None => None
         end.
Proof. reflexivity. Qed.

Lemma cell_setCell_other (b : Board) (r c r' c' : Z) (v : option ChessPiece) :
  r' <> r \/ c' <> c ->
  cell (setCell b r c v) r' c' = cell b r' c'.
Proof.
  intros Hne. rewrite !cell_readNth. unfold setCell.
  destruct ((r' <? 0) || (c' <? 0)) eqn:E'; [reflexivity|].
  destruct ((r <? 0) || (c <? 0)) eqn:E; [reflexivity|].
  rewrite nth_error_mapNth.
  destruct (Nat.eqb (Z.to_nat r) (Z.to_nat r')) eqn:Er; [|reflexivity].
  apply Nat.eqb_eq in Er. rewrite <- Er.
  destruct (nth_error b (Z.to_nat r)) as [cells|]; [|reflexivity].
  cbn [option_map]. rewrite readNth_setNth.
  destruct (Nat.eqb (Z.to_nat c) (Z.to_nat c')) eqn:Ec; [|reflexivity].
  apply Nat.eqb_eq in Ec. lia.
Qed.

Lemma cell_setCell_same (b : Board) (r c : Z) (v : option ChessPiece) :
  0 <= r -> (Z.to_nat r < List.length b)%nat -> 0 <= c ->
  cell (setCell b r c v) r c = v.
Proof.
  intros Hr Hlen Hc. rewrite cell_readNth. unfold setCell.
  replace ((r <? 0) || (c <? 0)) with false by (symmetry; lia).
  rewrite nth_error_mapNth, Nat.eqb_refl.
  destruct (nth_error b (Z.to_nat r)) as [cells|] eqn:E.
  - cbn [option_map]. now rewrite readNth_setNth, Nat.eqb_refl.
  - apply nth_error_None in E. lia.
Qed.

Lemma cell_setCell_cases (b : Board) (r c r' c' : Z) (v : option ChessPiece) :
  cell (setCell b r c v) r' c' = cell b r' c'
  \/ cell (setCell b r c v) r' c' = v.
Proof.
  destruct (Z.eq_dec r' r) as [->|Hr];
    [|left; apply cell_setCell_other; now left].
  destruct (Z.eq_dec c' c) as [->|Hc];
    [|left; apply cell_setCell_other; now right].
  rewrite !cell_readNth. unfold setCell.
  destruct ((r <? 0) || (c <? 0)) eqn:E; [now left|].
  rewrite nth_error_mapNth, Nat.eqb_refl.
  destruct (nth_error b (Z.to_nat r)) as [cells|]; [|now left].
  cbn [option_map]. rewrite readNth_setNth, Nat.eqb_refl. now right.
Qed.

Lemma length_setCell (b : Board) (r c : Z) (v : option ChessPiece) :
  List.length (setCell b r c v) = List.length b.
Proof.
  unfold setCell. destruct ((r <? 0) || (c <? 0)); [reflexivity|].
  generalize (Z.to_nat r) as n. induction b as [|cells rest IH]; intros n.
  - now destruct n.
  - destruct n; simpl; [reflexivity|]. now rewrite IH.
Qed.

(** ** Where the pieces of the new board come from *)

Lemma piecesOf_refl (b : Board) : piecesOf b b.
Proof. intros r c q H. exists r, c, q. auto. Qed.

Lemma piecesOf_setCell (old b : Board) (r c : Z) (v : option ChessPiece) :
  piecesOf old b ->
  (forall q, v = Some q -> pieceOf old q) ->
  piecesOf old (setCell b r c v).
Proof.
  intros Hb Hv r' c' q H.
  destruct (cell_setCell_cases b r c r' c' v) as [E|E]; rewrite E in H.
  - exact (Hb _ _ _ H).
  - exact (Hv _ H).
Qed.

Lemma pieceOf_withMoved (b : Board) (p : ChessPiece) :
  pieceOf b p -> pieceOf b (withMoved p).
Proof. intros [r [c [p0 H]]]. exists r, c, p0. exact H. Qed.

Lemma piecesOf_handleCastling (old b : Board) (from to : Position) :
  piecesOf old b -> piecesOf old (handleCastling from to b).
Proof.
  intros Hb. unfold handleCastling.
  apply piecesOf_setCell; [|discriminate].
  apply piecesOf_setCell; [exact Hb|].
  intros q Hq.
  destruct (cell b (row from) (if col to >? col from then 7 else 0))
    as [rk|] eqn:E; [|discriminate].
  injection Hq as <-. apply pieceOf_withMoved. exact (Hb _ _ _ E).
Qed.

Lemma piecesOf_boardAfter (p : ChessPiece) (from to : Position)
    (gameState : GameState) :
  cell (board gameState) (row from) (col from) = Some p ->
  piecesOf (board gameState) (boardAfter p from to gameState).
Proof.
  intros Hp. unfold boardAfter.
  assert (H1 : piecesOf (board gameState)
                 (setCell
                    (setCell (board gameState) (row to) (col to)
                       (Some (withMoved p)))
                    (row from) (col from) None)).
  { apply piecesOf_setCell; [|discriminate].
    apply piecesOf_setCell; [apply piecesOf_refl|].
    intros q Hq. injection Hq as <-. apply pieceOf_withMoved.
    exists (row from), (col from), p. auto. }
  assert (H2 : piecesOf (board gameState)
                 (if isCastlingMove p from to
                  then handleCastling from to
                         (setCell
                            (setCell (board gameState) (row to) (col to)
                               (Some (withMoved p)))
                            (row from) (col from) None)
                  else setCell
                         (setCell (board gameState) (row to) (col to)
                            (Some (withMoved p)))
                         (row from) (col from) None)).
  { destruct (isCastlingMove p from to);
      [apply piecesOf_handleCastling|]; exact H1. }
  cbv zeta. destruct (isEnPassantMove p from to gameState); [|exact H2].
  apply piecesOf_setCell; [exact H2 | discriminate].
Qed.

Lemma hasType_eq (p : ChessPiece) (k : PieceType) :
  hasType p k = true <-> type p = Some k.
Proof.
  unfold hasType. destruct (type p) as [t|]; [|split; discriminate].
  destruct t, k; simpl; split; congruence.
Qed.

Lemma rightsAllow_rightFor (p : ChessPiece) (kingSide : bool)
    (rights : CastlingRights) :
  rightsAllow p kingSide rights = rightFor (color p) kingSide rights.
Proof.
  unfold rightsAllow, rightFor.
  destruct (color p), kingSide, rights as [[] [] [] []]; reflexivity.
Qed.

(** ** [makeMove] and [isInCheck] *)

(** An accepted move is the move of a piece that has a kind, so the
    notation is always written: [makeMove] does not raise. *)
Lemma makeMove_never_raises (from to : Position) (gameState : GameState) :
  makeMove from to gameState <> TypeError.
Proof.
  unfold makeMove.
  destruct (isValidMove from to gameState) eqn:EV; cbn [negb];
    [|discriminate].
  destruct (cell (board gameState) (row from) (col from)) as [p|] eqn:Ep;
    [|discriminate].
  destruct (isValidMove_inv _ _ _ EV) as [p0 [Hp0 [_ [_ [_ [Hmove _]]]]]].
  destruct (getPieceAt_cell _ _ _ Hp0) as [Hc0 _].
  rewrite Ep in Hc0. injection Hc0 as <-.
  cbv zeta. unfold generateMoveNotation.
  cbn [isCastling piece capturedPiece promotion isCheckmate isCheck].
  destruct (isCastlingMove p from to); [discriminate|].
  destruct (type p) as [t|] eqn:Et.
  - destruct t; discriminate.
  - exfalso. unfold isPieceMovementValid, isPieceMovementValid_with in Hmove.
    rewrite Et in Hmove. discriminate.
Qed.

(** With one king of the side to move on the board, [isInCheck] is the
    attack test on the square of that king. *)
Lemma isInCheck_only_king (gameState : GameState) (r c : Z) :
  0 <= r < 8 -> 0 <= c < 8 ->
  isKingOf (currentPlayer gameState) (board gameState) (r, c) = true ->
  (forall r' c',
     isKingOf (currentPlayer gameState) (board gameState) (r', c') = true ->
     r' = r /\ c' = c) ->
  isInCheck gameState
  = isSquareUnderAttack {| row := r; col := c |}
      (opponentOf (currentPlayer gameState)) gameState.
Proof.
  intros Hr Hc Hking Honly. unfold isInCheck.
  destruct (find (isKingOf (currentPlayer gameState) (board gameState))
              squares) as [[r' c']|] eqn:E.
  - apply find_some in E. destruct E as [_ E].
    destruct (Honly r' c' E) as [-> ->]. reflexivity.
  - exfalso.
    assert (Hin : In (r, c) squares) by (apply squares_bounds; auto).
    pose proof (find_none _ _ E _ Hin) as H. congruence.
Qed.

(** ** The instances *)

Lemma instance_positions :
  gameStateToFEN initialState = Normal INITIAL_BOARD_FEN
  /\ gameStateToFEN beforeFoolsMate
     = Normal
         "rnbqkbnr/pppp1ppp/4p3/8/6P1/5P2/PPPPP2P/RNBQKBNR b KQkq g3 0 2"%string
  /\ gameStateToFEN pinnedEnPassant
     = Normal "7k/8/8/K2pP2r/8/8/8/8 w - d6 0 1"%string
  /\ gameStateToFEN plainEnPassant
     = Normal "4k3/8/8/3pP3/8/8/8/4K3 w - d6 0 1"%string
  /\ gameStateToFEN queensideReady
     = Normal "4k3/8/8/8/8/8/8/R3K3 w Q - 0 1"%string
  /\ gameStateToFEN queensideCrossed
     = Normal "3rk3/8/8/8/8/8/8/R3K3 w Q - 0 1"%string
  /\ gameStateToFEN blockedPawn
     = Normal "4k3/8/8/8/8/4n3/4P3/4K3 w - - 0 1"%string.
Proof. vm_compute. repeat split. Qed.

(** The side to move has twenty legal moves in the initial position. *)
Example initial_position_moves :
  List.length
    (flat_map (fun sq => getValidMoves (positionOf sq) initialState) squares)
  = 20%nat.
Proof. vm_compute. reflexivity. Qed.

(** In [queensideCrossed] neither e1 nor c1 is attacked, d1 is, and the
    king may not castle across it. *)
Example castling_across_attacked_square :
  isSquareUnderAttack (square 7 4) black queensideCrossed = false
  /\ isSquareUnderAttack (square 7 3) black queensideCrossed = true
  /\ isSquareUnderAttack (square 7 2) black queensideCrossed = false
  /\ isValidMove (square 7 4) (square 7 2) queensideCrossed = false
  /\ isValidMove (square 7 4) (square 7 2) queensideReady = true.
Proof. vm_compute. repeat split. Qed.

End EngineFacts.

(** * Properties of the codec *)

Module CodecFacts.

Import ChessUtils ChessEngine Reading EngineFacts.
Local Open Scope string_scope.
Local Open Scope Z_scope.

(** ** Strings *)

Lemma append_assoc (a b c : string) : (a ++ b) ++ c = a ++ (b ++ c).
Proof. induction a as [|x a IH]; simpl; [reflexivity | now rewrite IH]. Qed.

Lemma append_nil_r (a : string) : a ++ "" = a.
Proof. induction a as [|x a IH]; simpl; [reflexivity | now rewrite IH]. Qed.

Lemma includes_append (a b : string) (c : ascii) :
  includes (a ++ b) c = includes a c || includes b c.
Proof.
  induction a as [|x a IH]; simpl; [reflexivity|].
  now rewrite IH, orb_assoc.
Qed.

Lemma split_without (sep : ascii) (s : string) :
  includes s sep = false -> split sep s = [s].
Proof.
  induction s as [|x s IH]; simpl; intros H; [reflexivity|].
  apply orb_false_elim in H. destruct H as [Hx Hs].
  rewrite Hx, (IH Hs). reflexivity.
Qed.

Lemma split_append (sep : ascii) (a rest : string) :
  includes a sep = false ->
  split sep (a ++ String sep rest) = a :: split sep rest.
Proof.
  induction a as [|x a IH]; simpl; intros H.
  - now rewrite Ascii.eqb_refl.
  - apply orb_false_elim in H. destruct H as [Hx Ha].
    rewrite Hx, (IH Ha). reflexivity.
Qed.

(** ** Digits and letters *)

Lemma small_cases (n : Z) :
  0 <= n <= 8 ->
  n = 0 \/ n = 1 \/ n = 2 \/ n = 3 \/ n = 4 \/ n = 5 \/ n = 6 \/ n = 7
  \/ n = 8.
Proof. lia. Qed.

Ltac by_small_cases n H :=
  let E := fresh in
  pose proof (small_cases n H) as E;
  repeat (destruct E as [E | E]; [subst n|]); [..|subst n].

Lemma toString_digit (n : Z) :
  1 <= n <= 8 ->
  toString n = String (digitChar n) ""
  /\ isDigit1to8 (digitChar n) = true
  /\ Z.of_nat (nat_of_ascii (digitChar n)) - 48 = n
  /\ Ascii.eqb (digitChar n) " " = false
  /\ Ascii.eqb (digitChar n) "/" = false.
Proof.
  intros H. assert (H0 : 0 <= n <= 8) by lia.
  by_small_cases n H0; try lia; repeat split.
Qed.

Lemma fenLetter_facts (t : PieceType) (c : PieceColor) :
  isDigit1to8 (fenLetter t c) = false
  /\ typeMap (fenLetter t c) = Some t
  /\ isOwnUpperCase (fenLetter t c) = PieceColor_eqb c white
  /\ Ascii.eqb (fenLetter t c) " " = false
  /\ Ascii.eqb (fenLetter t c) "/" = false.
Proof. destruct t, c; repeat split. Qed.

Lemma FENCharToPiece_fenLetter (x : ChessPiece) (t : PieceType) (i : string) :
  type x = Some t ->
  type (FENCharToPiece (fenLetter t (color x)) i) = type x
  /\ color (FENCharToPiece (fenLetter t (color x)) i) = color x.
Proof.
  intros Ht. unfold FENCharToPiece. cbn [type color].
  destruct (fenLetter_facts t (color x)) as [_ [Hmap [Hup _]]].
  rewrite Hmap, Hup, Ht. split; [reflexivity|].
  destruct (color x); reflexivity.
Qed.

(** ** The encoder *)

Lemma pieceToFENChar_defined (x : ChessPiece) (t : PieceType) :
  type x = Some t ->
  pieceToFENChar x = Normal (String (fenLetter t (color x)) "").
Proof.
  intros Ht. unfold pieceToFENChar. rewrite Ht.
  destruct (color x); reflexivity.
Qed.

Lemma fenCells_rowText (cells : list (option ChessPiece)) :
  cellsDefined cells ->
  forall fen n, 0 <= n ->
    exists pre n',
      fenCells cells fen n = Normal (fen ++ pre, n')
      /\ pre ++ flush n' = rowText cells n.
Proof.
  induction cells as [|[x|] rest IH]; intros Hdef fen n Hn.
  - exists "", n. simpl. now rewrite append_nil_r.
  - assert (Hrest : cellsDefined rest)
      by (intros y Hy; apply Hdef; now right).
    destruct (type x) as [t|] eqn:Ht;
      [|exfalso; exact (Hdef x (or_introl eq_refl) Ht)].
    cbn [fenCells rowText].
    rewrite (pieceToFENChar_defined x t Ht), Ht.
    assert (E1 : (if n >? 0 then fen ++ toString n else fen) = fen ++ flush n).
    { unfold flush. destruct (n >? 0); [reflexivity|].
      now rewrite append_nil_r. }
    assert (E2 : (if n >? 0 then 0 else n) = 0)
      by (destruct (n >? 0) eqn:E; lia).
    rewrite E1, E2.
    destruct (IH Hrest ((fen ++ flush n) ++ String (fenLetter t (color x)) "")
                0 (Z.le_refl 0)) as [pre [n' [Hf Hr]]].
    exists (flush n ++ String (fenLetter t (color x)) "" ++ pre), n'.
    split.
    + rewrite Hf. now rewrite !append_assoc.
    + rewrite !append_assoc. now rewrite Hr.
  - assert (Hrest : cellsDefined rest)
      by (intros y Hy; apply Hdef; now right).
    cbn [fenCells rowText]. apply (IH Hrest). lia.
Qed.

Lemma kindsDefined_cells (b : Board) (r : Z) :
  kindsDefined b -> cellsDefined (map (cell b r) indices8).
Proof.
  intros Hb x Hx. apply in_map_iff in Hx. destruct Hx as [c [Hc _]].
  exact (Hb r c x Hc).
Qed.

Lemma fenRows_boardText (b : Board) (rows : list Z) :
  kindsDefined b ->
  forall fen, fenRows b rows fen = Normal (fen ++ boardText b rows).
Proof.
  intros Hb. induction rows as [|r rest IH]; intros fen.
  - simpl. now rewrite append_nil_r.
  - cbn [fenRows boardText].
    destruct (fenCells_rowText _ (kindsDefined_cells b r Hb) fen 0
                (Z.le_refl 0)) as [pre [n' [Hf Hr]]].
    rewrite Hf.
    assert (E : (if n' >? 0 then (fen ++ pre) ++ toString n' else fen ++ pre)
                = fen ++ rowText (map (cell b r) indices8) 0).
    { rewrite <- Hr. unfold flush. destruct (n' >? 0).
      - now rewrite append_assoc.
      - now rewrite append_nil_r. }
    rewrite E.
    destruct (r <? 7); rewrite IH, ?append_assoc; [reflexivity|].
    reflexivity.
Qed.

Lemma flush_cases (n : Z) :
  0 <= n <= 8 ->
  (n = 0 /\ flush n = "")
  \/ (1 <= n /\ flush n = String (digitChar n) "").
Proof.
  intros H. unfold flush. destruct (n >? 0) eqn:E.
  - right. split; [lia|]. apply toString_digit. lia.
  - left. split; [lia | reflexivity].
Qed.

(** The text of a row has no space and no slash. *)
Lemma rowText_without (sep : ascii) (cells : list (option ChessPiece)) :
  sep = " "%char \/ sep = "/"%char ->
  cellsDefined cells ->
  forall n, 0 <= n -> n + Z.of_nat (List.length cells) <= 8 ->
    includes (rowText cells n) sep = false.
Proof.
  intros Hsep.
  assert (Hflush : forall n, 0 <= n <= 8 -> includes (flush n) sep = false).
  { intros n Hn. destruct (flush_cases n Hn) as [[_ ->]|[H1 ->]];
      [reflexivity|].
    destruct (toString_digit n (conj H1 (proj2 Hn))) as [_ [_ [_ [E1 E2]]]].
    cbn [includes]. rewrite orb_false_r.
    destruct Hsep as [-> | ->]; assumption. }
  induction cells as [|[x|] rest IH]; intros Hdef n Hn Hlen;
    cbn [List.length] in Hlen.
  - cbn [rowText]. apply Hflush. lia.
  - assert (Hrest : cellsDefined rest)
      by (intros y Hy; apply Hdef; now right).
    destruct (type x) as [t|] eqn:Ht;
      [|exfalso; exact (Hdef x (or_introl eq_refl) Ht)].
    cbn [rowText]. rewrite Ht, !includes_append, Hflush by lia.
    rewrite (IH Hrest 0) by lia.
    destruct (fenLetter_facts t (color x)) as [_ [_ [_ [E1 E2]]]].
    cbn [includes orb]. rewrite !orb_false_r.
    destruct Hsep as [-> | ->]; assumption.
  - assert (Hrest : cellsDefined rest)
      by (intros y Hy; apply Hdef; now right).
    cbn [rowText]. apply (IH Hrest); lia.
Qed.

(** ** The decoder, one row *)

Lemma charWidth_pos (c : ascii) : 1 <= charWidth c.
Proof.
  unfold charWidth, isDigit1to8. destruct (_ && _) eqn:E; lia.
Qed.

Lemma parseRowChars_step (x : ascii) (s : string) (r c : Z) (b : Board) :
  parseRowChars (String x s) r c b
  = parseRowChars s r (c + charWidth x)
      (if isDigit1to8 x then b
       else setCell b r c (Some (FENCharToPiece x (pieceId x r c)))).
Proof.
  cbn [parseRowChars]. unfold charWidth, pieceId.
  destruct (isDigit1to8 x); reflexivity.
Qed.

Lemma parseRowChars_other_row (s : string) (r r' : Z) :
  r' <> r ->
  forall c b c', cell (parseRowChars s r c b) r' c' = cell b r' c'.
Proof.
  intros Hr. induction s as [|x s IH]; intros c b c'; [reflexivity|].
  rewrite parseRowChars_step, IH.
  destruct (isDigit1to8 x); [reflexivity|].
  apply cell_setCell_other. now left.
Qed.

Lemma parseRowChars_left (s : string) (r : Z) :
  forall c b r' c', c' < c ->
    cell (parseRowChars s r c b) r' c' = cell b r' c'.
Proof.
  induction s as [|x s IH]; intros c b r' c' Hc; [reflexivity|].
  rewrite parseRowChars_step, IH by (pose proof (charWidth_pos x); lia).
  destruct (isDigit1to8 x); [reflexivity|].
  apply cell_setCell_other. right. lia.
Qed.

Lemma parseRowChars_length (s : string) (r : Z) :
  forall c b, List.length (parseRowChars s r c b) = List.length b.
Proof.
  induction s as [|x s IH]; intros c b; [reflexivity|].
  rewrite parseRowChars_step, IH.
  destruct (isDigit1to8 x); [reflexivity | apply length_setCell].
Qed.

Lemma parseRowChars_append (pre s : string) (r : Z) :
  forall c b,
    parseRowChars (pre ++ s) r c b
    = parseRowChars s r (c + textWidth pre) (parseRowChars pre r c b).
Proof.
  induction pre as [|x pre IH]; intros c b.
  - simpl. now rewrite Z.add_0_r.
  - cbn [append textWidth]. rewrite !parseRowChars_step, IH.
    now rewrite Z.add_assoc.
Qed.

(** The cells of row [r] after a row is parsed depend on the cells of row
    [r] before, and on nothing else of the board. *)
Lemma parseRowChars_congr (s : string) (r : Z) :
  0 <= r ->
  forall c b1 b2,
    0 <= c ->
    (Z.to_nat r < List.length b1)%nat ->
    (Z.to_nat r < List.length b2)%nat ->
    (forall c', cell b1 r c' = cell b2 r c') ->
    forall c', cell (parseRowChars s r c b1) r c'
               = cell (parseRowChars s r c b2) r c'.
Proof.
  intros Hr. induction s as [|x s IH]; intros c b1 b2 Hc H1 H2 Hb c';
    [apply Hb|].
  rewrite !parseRowChars_step.
  pose proof (charWidth_pos x) as Hw.
  destruct (isDigit1to8 x).
  - apply IH; auto; lia.
  - apply IH; rewrite ?length_setCell; auto; try lia.
    intros c''. destruct (Z.eq_dec c'' c) as [->|Hne].
    + now rewrite !cell_setCell_same.
    + rewrite !cell_setCell_other by (now right). apply Hb.
Qed.

(** A character that is not one of the digits 1 to 8 is stored as a piece,
    on the column that the characters before it add up to. *)
Lemma parseRowChars_stores (pre post : string) (x : ascii) (r : Z)
    (b : Board) :
  0 <= r -> (Z.to_nat r < List.length b)%nat ->
  isDigit1to8 x = false ->
  cell (parseRowChars (pre ++ String x post) r 0 b) r (textWidth pre)
  = Some (FENCharToPiece x (pieceId x r (textWidth pre))).
Proof.
  intros Hr Hlen Hx.
  assert (Hw : 0 <= textWidth pre).
  { clear. induction pre as [|y pre IH]; simpl; [lia|].
    pose proof (charWidth_pos y). lia. }
  rewrite parseRowChars_append, parseRowChars_step, Hx, Z.add_0_l.
  rewrite parseRowChars_left by (pose proof (charWidth_pos x); lia).
  apply cell_setCell_same; [lia | now rewrite parseRowChars_length | lia].
Qed.

Lemma parse_flush_letter (n : Z) (L : ascii) (s : string) (r c : Z)
    (b : Board) :
  0 <= n <= 8 -> isDigit1to8 L = false ->
  parseRowChars (flush n ++ String L s) r c b
  = parseRowChars s r (c + n + 1)
      (setCell b r (c + n) (Some (FENCharToPiece L (pieceId L r (c + n))))).
Proof.
  intros Hn HL.
  destruct (flush_cases n Hn) as [[-> ->]|[H1 ->]].
  - cbn [append]. rewrite parseRowChars_step, HL. unfold charWidth.
    rewrite HL, Z.add_0_r. reflexivity.
  - destruct (toString_digit n (conj H1 (proj2 Hn))) as [_ [Hd [Hv _]]].
    cbn [append]. rewrite !parseRowChars_step, Hd, HL. unfold charWidth.
    rewrite Hd, HL, Hv. reflexivity.
Qed.

Lemma parse_flush (n : Z) (r c : Z) (b : Board) :
  0 <= n <= 8 -> parseRowChars (flush n) r c b = b.
Proof.
  intros Hn. destruct (flush_cases n Hn) as [[-> ->]|[H1 ->]]; [reflexivity|].
  destruct (toString_digit n (conj H1 (proj2 Hn))) as [_ [Hd _]].
  rewrite parseRowChars_step, Hd. reflexivity.
Qed.

Section RowRoundTrip.

Variable r : Z.
Hypothesis r_nonneg : 0 <= r.

(** Parsing the text of [cells] leaves the columns before them alone. *)
Lemma parse_rowText_left (cells : list (option ChessPiece)) :
  cellsDefined cells ->
  forall n c b c',
    0 <= n -> n + Z.of_nat (List.length cells) <= 8 -> c' < c + n ->
    cell (parseRowChars (rowText cells n) r c b) r c' = cell b r c'.
Proof.
  induction cells as [|[x|] rest IH]; intros Hdef n c b c' Hn Hlen Hc;
    cbn [List.length] in Hlen.
  - cbn [rowText]. rewrite parse_flush by lia. reflexivity.
  - assert (Hrest : cellsDefined rest)
      by (intros y Hy; apply Hdef; now right).
    destruct (type x) as [t|] eqn:Ht;
      [|exfalso; exact (Hdef x (or_introl eq_refl) Ht)].
    cbn [rowText]. rewrite Ht. cbn [append].
    rewrite parse_flush_letter by (try lia; apply fenLetter_facts).
    rewrite (IH Hrest) by lia.
    apply cell_setCell_other. right. lia.
  - assert (Hrest : cellsDefined rest)
      by (intros y Hy; apply Hdef; now right).
    cbn [rowText]. apply (IH Hrest); lia.
Qed.

(** Parsing the text of [cells] writes, for each piece, a piece of the same
    kind and side on its column, and leaves the empty columns alone. *)
Lemma parse_rowText (cells : list (option ChessPiece)) :
  cellsDefined cells ->
  forall n c b j,
    0 <= n -> 0 <= c -> n + Z.of_nat (List.length cells) <= 8 ->
    (Z.to_nat r < List.length b)%nat ->
    0 <= j < Z.of_nat (List.length cells) ->
    match nth (Z.to_nat j) cells None with
    | Some x =>
        exists y,
          cell (parseRowChars (rowText cells n) r c b) r (c + n + j) = Some y
          /\ type y = type x /\ color y = color x
    | None =>
        cell (parseRowChars (rowText cells n) r c b) r (c + n + j)
        = cell b r (c + n + j)
    end.
Proof.
  induction cells as [|[x|] rest IH]; intros Hdef n c b j Hn Hc Hlen Hb Hj;
    cbn [List.length] in Hlen, Hj.
  - lia.
  - assert (Hrest : cellsDefined rest)
      by (intros y Hy; apply Hdef; now right).
    destruct (type x) as [t|] eqn:Ht;
      [|exfalso; exact (Hdef x (or_introl eq_refl) Ht)].
    cbn [rowText]. rewrite Ht. cbn [append].
    rewrite parse_flush_letter by (try lia; apply fenLetter_facts).
    destruct (Z.eq_dec j 0) as [->|Hj0].
    + cbn [Z.to_nat nth]. rewrite Z.add_0_r.
      rewrite parseRowChars_left by lia.
      rewrite cell_setCell_same by lia.
      eexists. split; [reflexivity|].
      now apply FENCharToPiece_fenLetter.
    + replace (Z.to_nat j) with (S (Z.to_nat (j - 1))) by lia.
      cbn [nth].
      specialize (IH Hrest 0 (c + n + 1)
                    (setCell b r (c + n)
                       (Some (FENCharToPiece (fenLetter t (color x))
                                (pieceId (fenLetter t (color x)) r (c + n)))))
                    (j - 1)).
      replace (c + n + 1 + 0 + (j - 1)) with (c + n + j) in IH by lia.
      rewrite length_setCell in IH.
      assert (IH' := IH (Z.le_refl 0) ltac:(lia) ltac:(lia) Hb ltac:(lia)).
      destruct (nth (Z.to_nat (j - 1)) rest None); [exact IH'|].
      rewrite IH'. apply cell_setCell_other. right. lia.
  - assert (Hrest : cellsDefined rest)
      by (intros y Hy; apply Hdef; now right).
    cbn [rowText].
    destruct (Z.eq_dec j 0) as [->|Hj0].
    + cbn [Z.to_nat nth]. rewrite Z.add_0_r.
      apply (parse_rowText_left rest Hrest); lia.
    + replace (Z.to_nat j) with (S (Z.to_nat (j - 1))) by lia.
      cbn [nth].
      specialize (IH Hrest (n + 1) c b (j - 1)).
      replace (c + (n + 1) + (j - 1)) with (c + n + j) in IH by lia.
      apply IH; lia.
Qed.

End RowRoundTrip.

(** ** The decoder, the board *)

Lemma cell_emptyBoard (r c : Z) : cell emptyBoard r c = None.
Proof.
  unfold cell. destruct ((r <? 0) || (c <? 0)); [reflexivity|].
  destruct (nth_error emptyBoard (Z.to_nat r)) as [cells|] eqn:E;
    [|reflexivity].
  apply nth_error_In in E. unfold emptyBoard in E.
  apply repeat_spec in E. subst cells.
  destruct (nth_error (repeat None 8) (Z.to_nat c)) as [x|] eqn:E';
    [|reflexivity].
  apply nth_error_In in E'. now apply repeat_spec in E'.
Qed.

Lemma parseRows_eight (s0 s1 s2 s3 s4 s5 s6 s7 : string)
    (more : list string) :
  parseRows indices8 (s0 :: s1 :: s2 :: s3 :: s4 :: s5 :: s6 :: s7 :: more)
    emptyBoard
  = Normal (parsedBoard s0 s1 s2 s3 s4 s5 s6 s7).
Proof. reflexivity. Qed.

(** Row [r] of the parsed board is row [r] of its text parsed alone. *)
Lemma cell_parsedBoard (s0 s1 s2 s3 s4 s5 s6 s7 : string) (r c : Z) :
  0 <= r < 8 ->
  cell (parsedBoard s0 s1 s2 s3 s4 s5 s6 s7) r c
  = cell (parseRowChars (nth (Z.to_nat r) [s0; s1; s2; s3; s4; s5; s6; s7] "")
            r 0 emptyBoard) r c.
Proof.
  intros Hr. unfold parsedBoard.
  assert (H0 : 0 <= r <= 8) by lia.
  by_small_cases r H0; try lia; simpl nth;
    repeat (rewrite parseRowChars_other_row by lia);
    try reflexivity;
    (apply parseRowChars_congr;
     [ lia | lia
     | rewrite !parseRowChars_length; cbn; lia
     | cbn; lia
     | intros c'; repeat (rewrite parseRowChars_other_row by lia);
       reflexivity ]).
Qed.

Lemma parseRows_throws (rows : list string) :
  forall idx b,
    parseRows idx rows b = TypeError
    <-> exists r, In r idx /\ nth_error rows (Z.to_nat r) = None.
Proof.
  induction idx as [|r rest IH]; intros b; cbn [parseRows].
  - split; [discriminate | intros [r [[] _]]].
  - destruct (nth_error rows (Z.to_nat r)) as [chars|] eqn:E.
    + rewrite IH. split.
      * intros [r' [Hin H]]. exists r'. split; [now right | exact H].
      * intros [r' [[<-|Hin] H]]; [congruence | exists r'; auto].
    + split; [|reflexivity]. intros _. exists r. split; [now left | exact E].
Qed.

Lemma parseRows_throws_eight (rows : list string) (b : Board) :
  parseRows indices8 rows b = TypeError <-> (List.length rows < 8)%nat.
Proof.
  rewrite parseRows_throws. split.
  - intros [r [Hin H]]. apply nth_error_None in H.
    assert (0 <= r < 8) by (unfold indices8 in Hin; simpl in Hin; lia).
    lia.
  - intros H. exists (Z.of_nat (List.length rows)). split.
    + unfold indices8. simpl. lia.
    + apply nth_error_None. lia.
Qed.

(** ** The text of a state *)

Lemma gameStateToFEN_text (p : GameState) :
  kindsDefined (board p) ->
  exists tail,
    gameStateToFEN p
    = Normal (boardText (board p) indices8
              ++ String " " (colorText (currentPlayer p)
              ++ String " " (castlingText (castlingRights p)
              ++ String " " (targetText (enPassantTarget p)
              ++ String " " tail)))).
Proof.
  intros Hk. unfold gameStateToFEN.
  rewrite (fenRows_boardText _ _ Hk). cbn [append].
  exists ("0 " ++ toString (Z.of_nat (List.length (moveHistory p)) / 2 + 1)).
  f_equal.
  change (match currentPlayer p with white => "w" | black => "b" end)
    with (colorText (currentPlayer p)).
  destruct (enPassantTarget p) as [ep|]; cbn [targetText];
    rewrite !append_assoc; cbn [append]; reflexivity.
Qed.

Lemma boardText_rows (b : Board) :
  boardText b indices8
  = rowText (map (cell b 0) indices8) 0
    ++ String "/" (rowText (map (cell b 1) indices8) 0
    ++ String "/" (rowText (map (cell b 2) indices8) 0
    ++ String "/" (rowText (map (cell b 3) indices8) 0
    ++ String "/" (rowText (map (cell b 4) indices8) 0
    ++ String "/" (rowText (map (cell b 5) indices8) 0
    ++ String "/" (rowText (map (cell b 6) indices8) 0
    ++ String "/" (rowText (map (cell b 7) indices8) 0))))))).
Proof.
  unfold indices8 at 1. cbn [boardText Z.ltb Z.compare Pos.compare
                               Pos.compare_cont append].
  now rewrite append_nil_r.
Qed.

Lemma rowText_board_without (sep : ascii) (b : Board) (r : Z) :
  sep = " "%char \/ sep = "/"%char ->
  kindsDefined b ->
  includes (rowText (map (cell b r) indices8) 0) sep = false.
Proof.
  intros Hsep Hk. apply rowText_without; auto.
  - now apply kindsDefined_cells.
  - lia.
  - cbn. lia.
Qed.

Lemma boardText_split (b : Board) :
  kindsDefined b ->
  includes (boardText b indices8) " " = false
  /\ split "/" (boardText b indices8)
     = map (fun r => rowText (map (cell b r) indices8) 0) indices8.
Proof.
  intros Hk. rewrite boardText_rows. split.
  - repeat (rewrite includes_append; cbn [includes]).
    rewrite !rowText_board_without by auto. reflexivity.
  - rewrite !split_append by (apply rowText_board_without; auto).
    rewrite split_without by (apply rowText_board_without; auto).
    reflexivity.
Qed.

Lemma castlingText_facts (cr : CastlingRights) :
  includes (castlingText cr) " " = false
  /\ includes (castlingText cr) "K" = whiteKingSide cr
  /\ includes (castlingText cr) "Q" = whiteQueenSide cr
  /\ includes (castlingText cr) "k" = blackKingSide cr
  /\ includes (castlingText cr) "q" = blackQueenSide cr.
Proof. destruct cr as [[] [] [] []]; repeat split. Qed.

Lemma targetText_facts (r c : Z) :
  0 <= r < 8 -> 0 <= c < 8 ->
  let s := positionToChessNotation {| row := r; col := c |} in
  includes s " " = false
  /\ String.eqb s "-" = false
  /\ chessNotationToPosition s = (Num r, c).
Proof.
  intros Hr Hc.
  assert (Hr0 : 0 <= r <= 8) by lia. assert (Hc0 : 0 <= c <= 8) by lia.
  by_small_cases r Hr0; try lia; by_small_cases c Hc0; try lia;
    repeat split.
Qed.

Lemma nth_rowTexts (b : Board) (r : Z) :
  0 <= r < 8 ->
  nth (Z.to_nat r)
    (map (fun r0 => rowText (map (cell b r0) indices8) 0) indices8) ""
  = rowText (map (cell b r) indices8) 0.
Proof.
  intros Hr. assert (H0 : 0 <= r <= 8) by lia.
  by_small_cases r H0; try lia; reflexivity.
Qed.

Lemma rowTexts_list (b : Board) :
  map (fun r0 => rowText (map (cell b r0) indices8) 0) indices8
  = [rowText (map (cell b 0) indices8) 0;
     rowText (map (cell b 1) indices8) 0;
     rowText (map (cell b 2) indices8) 0;
     rowText (map (cell b 3) indices8) 0;
     rowText (map (cell b 4) indices8) 0;
     rowText (map (cell b 5) indices8) 0;
     rowText (map (cell b 6) indices8) 0;
     rowText (map (cell b 7) indices8) 0].
Proof. reflexivity. Qed.

Lemma nth_cells (b : Board) (r c : Z) :
  0 <= c < 8 ->
  nth (Z.to_nat c) (map (cell b r) indices8) None = cell b r c.
Proof.
  intros Hc. assert (H0 : 0 <= c <= 8) by lia.
  by_small_cases c H0; try lia; reflexivity.
Qed.

(** The cells of a parsed row text, against the cells it was written from. *)
Lemma parsed_row_sameOccupant (b : Board) (r c : Z) :
  kindsDefined b -> 0 <= r < 8 -> 0 <= c < 8 ->
  sameOccupant (cell b r c)
    (cell (parseRowChars (rowText (map (cell b r) indices8) 0) r 0 emptyBoard)
       r c).
Proof.
  intros Hk Hr Hc.
  pose proof (parse_rowText r (proj1 Hr) (map (cell b r) indices8)
                (kindsDefined_cells b r Hk) 0 0 emptyBoard c) as H.
  rewrite (nth_cells b r c Hc) in H. cbn [Z.add] in H.
  assert (H' := H (Z.le_refl 0) (Z.le_refl 0) ltac:(cbn; lia)
                  ltac:(cbn; lia) ltac:(cbn; lia)).
  unfold sameOccupant.
  destruct (cell b r c) as [x|].
  - destruct H' as [y [Hy Hxy]]. rewrite Hy. exact Hxy.
  - rewrite H', cell_emptyBoard. exact I.
Qed.

Lemma kindsDefined_check (b : Board) :
  forallb (forallb (fun o => match o with
                             | Some x => isSome (type x)
                             | None => true
                             end)) b = true ->
  kindsDefined b.
Proof.
  intros H r c x Hx. unfold cell in Hx.
  destruct ((r <? 0) || (c <? 0)); [discriminate|].
  destruct (nth_error b (Z.to_nat r)) as [cells|] eqn:Er; [|discriminate].
  destruct (nth_error cells (Z.to_nat c)) as [o|] eqn:Ec; [|discriminate].
  subst o. apply nth_error_In in Er, Ec.
  rewrite forallb_forall in H. specialize (H _ Er).
  rewrite forallb_forall in H. specialize (H _ Ec). cbn in H.
  destruct (type x); [discriminate | discriminate H].
Qed.

End CodecFacts.

(** * The claims about the engine *)

Module EngineClaims.

Import ChessUtils ChessEngine Reading Positions EngineFacts.

(** C1, at the input where it fails.  In [pinnedEnPassant] white captures
    e5xd6 en passant: [makeMove] accepts the move, the pawn on d5 leaves the
    fifth rank with the capturing pawn, and in the state returned the king on
    a5 of white, the side that has just moved, is attacked by black, which
    it was not before the move. *)
Lemma en_passant_leaves_own_king_attacked :
  let gs' := playMove (square 3 4) (square 2 3) pinnedEnPassant in
  currentPlayer pinnedEnPassant = white
  /\ makeMove (square 3 4) (square 2 3) pinnedEnPassant = Normal (Some gs')
  /\ find (isKingOf white (board gs')) squares = Some (3, 0)
  /\ isSquareUnderAttack (square 3 0) black pinnedEnPassant = false
  /\ isSquareUnderAttack (square 3 0) black gs' = true.
Proof. vm_compute. repeat split. Qed.

(** The king's square, as the scan of [isInCheck] finds it. *)

Lemma find_least {A} (key : A -> Z) (p : A -> bool) (l : list A) (x : A) :
  StronglySorted (fun a b => key a < key b) l ->
  find p l = Some x ->
  forall y, In y l -> p y = true -> key x <= key y.
Proof.
  induction 1 as [|a l Hl IH Ha]; cbn [find]; [discriminate|].
  destruct (p a) eqn:Ea.
  - intros E y Hy _. injection E as <-. destruct Hy as [<-|Hy]; [lia|].
    rewrite Forall_forall in Ha. specialize (Ha y Hy). lia.
  - intros E y [<-|Hy] Hp; [congruence|]. now apply IH.
Qed.

Lemma squares_sorted :
  StronglySorted (fun a b => 8 * fst a + snd a < 8 * fst b + snd b) squares.
Proof.
  apply Sorted_StronglySorted.
  - intros a b c. lia.
  - unfold squares, indices8. cbn [flat_map map app].
    repeat (constructor; cbn [fst snd]; try lia).
Qed.

Lemma isKingOf_kingSquare (side : PieceColor) (b : Board) (r c : Z) :
  0 <= r < 8 -> 0 <= c < 8 ->
  isKingOf side b (r, c) = true <-> kingSquare side b r c.
Proof.
  intros Hr Hc. unfold isKingOf, kingSquare. cbn [fst snd]. split.
  - destruct (cell b r c) as [k|]; [|discriminate]. intros H.
    apply andb_prop in H. destruct H as [Hk Hs].
    apply hasType_eq in Hk. apply PieceColor_eqb_eq in Hs.
    split; [exact Hr|]. split; [exact Hc|]. exists k. auto.
  - intros [_ [_ [k [-> [Hk Hs]]]]].
    apply hasType_eq in Hk. apply PieceColor_eqb_eq in Hs.
    now rewrite Hk, Hs.
Qed.

Lemma find_firstKingSquare (side : PieceColor) (b : Board) (r c : Z) :
  find (isKingOf side b) squares = Some (r, c) <-> firstKingSquare side b r c.
Proof.
  split.
  - intros E. pose proof (find_some _ _ E) as [Hin Hking].
    apply squares_bounds in Hin. destruct Hin as [Hr Hc]. split.
    + now apply isKingOf_kingSquare.
    + intros r' c' Hk'. pose proof Hk' as [Hr' [Hc' _]].
      apply (find_least (fun sq => 8 * fst sq + snd sq) _ _ _
               squares_sorted E (r', c')).
      * now apply squares_bounds.
      * now apply isKingOf_kingSquare.
  - intros [Hk Hleast]. pose proof Hk as [Hr [Hc _]].
    destruct (find (isKingOf side b) squares) as [[r' c']|] eqn:E.
    + pose proof (find_some _ _ E) as [Hin Hking].
      apply squares_bounds in Hin. destruct Hin as [Hr' Hc'].
      assert (H1 : 8 * r + c <= 8 * r' + c')
        by (apply Hleast; now apply isKingOf_kingSquare).
      assert (H2 : 8 * r' + c' <= 8 * r + c).
      { apply (find_least (fun sq => 8 * fst sq + snd sq) _ _ _
                 squares_sorted E (r, c)).
        - now apply squares_bounds.
        - now apply isKingOf_kingSquare. }
      assert (r' = r) by lia. assert (c' = c) by lia. now subst.
    + exfalso.
      assert (Hin : In (r, c) squares) by now apply squares_bounds.
      pose proof (find_none _ _ E _ Hin) as F.
      apply (isKingOf_kingSquare side b r c Hr Hc) in Hk. congruence.
Qed.

(** [isInCheck] is the attack test on the square of the king of the side to
    move. *)
Lemma isInCheck_kingAttacked (gs : GameState) :
  isInCheck gs = true <-> kingAttacked gs.
Proof.
  unfold isInCheck, kingAttacked. cbv zeta. split.
  - destruct (find (isKingOf (currentPlayer gs) (board gs)) squares)
      as [[r c]|] eqn:E; [|discriminate].
    intros H. exists r, c. split; [now apply find_firstKingSquare | exact H].
  - intros [r [c [Hfirst H]]]. apply find_firstKingSquare in Hfirst.
    now rewrite Hfirst.
Qed.

(** C2.  After an accepted [makeMove] the side to move is the other side, and
    the status of the new state is decided for that side: with a legal move,
    [check] when its king is attacked and [playing] otherwise; with none,
    [checkmate] when its king is attacked and [stalemate] otherwise.  The
    king is attacked when [isSquareUnderAttack] holds, for the other side, of
    the square that holds the king of the side to move. *)
Theorem status_after_makeMove (from to : Position) (gs gs' : GameState) :
  makeMove from to gs = Normal (Some gs') ->
  currentPlayer gs' = opponentOf (currentPlayer gs)
  /\ ((exists f t, isValidMove f t gs' = true) -> kingAttacked gs' ->
      gameStatus gs' = check)
  /\ ((exists f t, isValidMove f t gs' = true) -> ~ kingAttacked gs' ->
      gameStatus gs' = playing)
  /\ (~ (exists f t, isValidMove f t gs' = true) -> kingAttacked gs' ->
      gameStatus gs' = checkmate)
  /\ (~ (exists f t, isValidMove f t gs' = true) -> ~ kingAttacked gs' ->
      gameStatus gs' = stalemate).
Proof.
  intros H. destruct (makeMove_inv _ _ _ _ H) as [p [text [_ [_ Hgs]]]].
  cbv zeta in Hgs.
  destruct Hgs as [_ [Hplayer [_ [_ [_ [_ Hstatus]]]]]].
  split; [exact Hplayer|]. rewrite Hstatus. unfold getGameStatus.
  assert (Hattacked : kingAttacked gs' -> isInCheck gs' = true)
    by apply isInCheck_kingAttacked.
  assert (Hsafe : ~ kingAttacked gs' -> isInCheck gs' = false).
  { intros Hn. destruct (isInCheck gs') eqn:E; [|reflexivity].
    exfalso. apply Hn. now apply isInCheck_kingAttacked. }
  assert (Hlegal : (exists f t, isValidMove f t gs' = true) ->
                   hasValidMoves gs' = true)
    by apply hasValidMoves_spec.
  assert (Hstuck : ~ (exists f t, isValidMove f t gs' = true) ->
                   hasValidMoves gs' = false).
  { intros Hn. destruct (hasValidMoves gs') eqn:E; [|reflexivity].
    exfalso. apply Hn. now apply hasValidMoves_spec. }
  repeat split; intros Hm Hk;
    first [rewrite (Hlegal Hm) | rewrite (Hstuck Hm)];
    first [rewrite (Hattacked Hk) | rewrite (Hsafe Hk)]; reflexivity.
Qed.

(** Fool's mate: white, to move, has no legal move and its king on e1 is
    attacked by the queen on h4. *)
Lemma status_after_makeMove_witness :
  let gs' := playMove (square 0 3) (square 4 7) beforeFoolsMate in
  currentPlayer gs' = white
  /\ ~ (exists f t, isValidMove f t gs' = true)
  /\ firstKingSquare white (board gs') 7 4
  /\ isSquareUnderAttack (square 7 4) black gs' = true
  /\ gameStatus gs' = checkmate.
Proof.
  cbv zeta.
  assert (Hstuck : ~ (exists f t,
                         isValidMove f t
                           (playMove (square 0 3) (square 4 7)
                              beforeFoolsMate) = true)).
  { intros Hlegal. apply hasValidMoves_spec in Hlegal.
    vm_compute in Hlegal. discriminate. }
  assert (Hfirst : firstKingSquare white
                     (board (playMove (square 0 3) (square 4 7)
                               beforeFoolsMate)) 7 4).
  { apply find_firstKingSquare. vm_compute. reflexivity. }
  assert (Hattack : isSquareUnderAttack (square 7 4) black
                      (playMove (square 0 3) (square 4 7) beforeFoolsMate)
                    = true)
    by (vm_compute; reflexivity).
  split; [vm_compute; reflexivity|].
  split; [exact Hstuck|]. split; [exact Hfirst|]. split; [exact Hattack|].
  destruct (status_after_makeMove (square 0 3) (square 4 7) beforeFoolsMate
              (playMove (square 0 3) (square 4 7) beforeFoolsMate))
    as [_ [_ [_ [Hmate _]]]].
  - vm_compute. reflexivity.
  - apply Hmate; [exact Hstuck|]. exists 7, 4. split; [exact Hfirst|].
    exact Hattack.
Defined.

(** C3 as stated fails: the queen move that mates in [beforeFoolsMate] gives
    a state with status [checkmate] whose winner is not the side that moved. *)
Lemma checkmate_without_winner :
  let gs' := playMove (square 0 3) (square 4 7) beforeFoolsMate in
  currentPlayer beforeFoolsMate = black
  /\ makeMove (square 0 3) (square 4 7) beforeFoolsMate = Normal (Some gs')
  /\ gameStatus gs' = checkmate
  /\ winner gs' <> Some black.
Proof. vm_compute. repeat split. discriminate. Qed.

(** C3, amended.  [makeMove] never sets the winner: in every state it
    returns, a checkmate included, the winner field is unset. *)
Theorem makeMove_winner_unset (from to : Position) (gs gs' : GameState) :
  makeMove from to gs = Normal (Some gs') -> winner gs' = None.
Proof.
  intros H. destruct (makeMove_inv _ _ _ _ H) as [p [text [_ [_ Hgs]]]].
  cbv zeta in Hgs. tauto.
Qed.

Lemma makeMove_winner_unset_witness :
  gameStatus (playMove (square 0 3) (square 4 7) beforeFoolsMate) = checkmate
  /\ winner (playMove (square 0 3) (square 4 7) beforeFoolsMate) = None.
Proof.
  split; [vm_compute; reflexivity|].
  apply (makeMove_winner_unset (square 0 3) (square 4 7) beforeFoolsMate).
  vm_compute. reflexivity.
Defined.

(** C5.  A king move of two columns along its row is accepted by
    [isValidMove] only if the king has not moved, the corner on that side
    holds a rook of the king's side that has not moved, the castling right of
    that side and direction is set, the squares strictly between king and
    rook are empty, and none of the king's origin, midpoint and destination
    is attacked by the opponent in the state before the move. *)
Theorem castling_accepted_only_if (from to : Position) (gs : GameState)
    (k : ChessPiece) :
  getPieceAt (board gs) from = Some k ->
  type k = Some king ->
  row to = row from ->
  Z.abs (col to - col from) = 2 ->
  isValidMove from to gs = true ->
  let kingSide := col to >? col from in
  let rookCol := if kingSide then 7 else 0 in
  hasMoved k = false
  /\ (exists cornerRook,
        getPieceAt (board gs) {| row := row from; col := rookCol |}
        = Some cornerRook
        /\ type cornerRook = Some rook
        /\ color cornerRook = color k
        /\ hasMoved cornerRook = false)
  /\ rightFor (color k) kingSide (castlingRights gs) = true
  /\ (forall c, Z.min (col from) rookCol < c < Z.max (col from) rookCol ->
                cell (board gs) (row from) c = None)
  /\ (forall c, c = col from \/ c = (col from + col to) / 2 \/ c = col to ->
                isSquareUnderAttack {| row := row from; col := c |}
                  (opponentOf (color k)) gs = false).
Proof.
  intros Hk Hking Hrow Hcol Hvalid kingSide rookCol.
  destruct (isValidMove_inv _ _ _ Hvalid) as [p [Hp [_ [_ [_ [Hmove _]]]]]].
  rewrite Hk in Hp. injection Hp as <-.
  rewrite (isPieceMovementValid_king _ _ _ _ Hking) in Hmove.
  replace (Z.abs (col to - col from) <=? 1) with false in Hmove
    by (symmetry; lia).
  rewrite andb_false_r, orb_false_l, isCastlingValid_unfold in Hmove.
  apply andb_prop in Hmove. destruct Hmove as [Hguard Hpath].
  destruct (castlingGuard_row _ _ _ _ Hguard) as [rk0 [_ [_ [_ Hclear]]]].
  unfold castlingGuard in Hguard. fold kingSide in Hguard.
  change (rookColOf from to) with rookCol in Hguard, Hclear.
  destruct (getPieceAt (board gs) {| row := row from; col := rookCol |})
    as [rk|] eqn:Erk; [|rewrite andb_false_r in Hguard; discriminate].
  split_andb.
  repeat split.
  - now apply negb_true_iff.
  - exists rk. repeat split.
    + now apply hasType_eq.
    + now apply PieceColor_eqb_eq.
    + now apply negb_true_iff.
  - now rewrite <- rightsAllow_rightFor.
  - exact Hclear.
  - intros c Hc. rewrite forallb_forall in Hpath.
    apply negb_true_iff, (Hpath c).
    unfold kingPathOf. destruct (col to >? col from) eqn:E; simpl.
    + assert (Hmid : (col from + col to) / 2 = col from + 1)
        by (symmetry; apply Z.div_unique with (r := 0); lia).
      lia.
    + assert (Hmid : (col from + col to) / 2 = col from - 1)
        by (symmetry; apply Z.div_unique with (r := 0); lia).
      lia.
Qed.

Lemma castling_accepted_only_if_witness :
  isValidMove (square 7 4) (square 7 2) queensideReady = true
  /\ rightFor white false (castlingRights queensideReady) = true
  /\ (forall c, c = 4 \/ c = 3 \/ c = 2 ->
                isSquareUnderAttack (square 7 c) black queensideReady = false).
Proof.
  assert (Hvalid : isValidMove (square 7 4) (square 7 2) queensideReady = true)
    by (vm_compute; reflexivity).
  split; [exact Hvalid|].
  destruct (castling_accepted_only_if (square 7 4) (square 7 2) queensideReady
              (parsedPiece "K" 7 4))
    as [_ [_ [Hright [_ Hpath]]]].
  - vm_compute. reflexivity.
  - reflexivity.
  - reflexivity.
  - reflexivity.
  - exact Hvalid.
  - split; [exact Hright|].
    intros c Hc. apply (Hpath c). cbn. lia.
Defined.



(** C7, at the input where it fails.  In [queensideReady] the white king is
    on e1 and b1 is three columns away on the same row: [isValidMove] accepts
    e1-b1, and [makeMove] puts the king on b1 and leaves the rook on a1. *)
Lemma king_moves_three_columns :
  let gs' := playMove (square 7 4) (square 7 1) queensideReady in
  getPieceAt (board queensideReady) (square 7 4) = Some (parsedPiece "K" 7 4)
  /\ isValidMove (square 7 4) (square 7 1) queensideReady = true
  /\ makeMove (square 7 4) (square 7 1) queensideReady = Normal (Some gs')
  /\ cell (board gs') 7 1 = Some (withMoved (parsedPiece "K" 7 4))
  /\ cell (board gs') 7 0 = Some (parsedPiece "R" 7 0).
Proof. vm_compute. repeat split. Qed.

(** C8, at the input where it fails.  In [plainEnPassant] white captures
    e5xd6 en passant: the black pawn leaves d5, the square behind the
    destination, but the list of captured pieces stays as it was, empty. *)
Lemma en_passant_capture_not_listed :
  let gs' := playMove (square 3 4) (square 2 3) plainEnPassant in
  enPassantTarget plainEnPassant = Some (square 2 3)
  /\ cell (board plainEnPassant) 3 3 = Some (withMoved (parsedPiece "p" 1 3))
  /\ makeMove (square 3 4) (square 2 3) plainEnPassant = Normal (Some gs')
  /\ option_map isEnPassant (lastMove gs') = Some true
  /\ cell (board gs') 3 3 = None
  /\ capturedPieces plainEnPassant = []
  /\ capturedPieces gs' = [].
Proof. vm_compute. repeat split. Qed.

(** C10.  After an accepted [makeMove] every piece on the new board is a
    piece of the old board with the same kind, side and identity; a pawn that
    has moved stands on its destination as a pawn, whatever the row; and the
    move record, the last of the history, has no promotion. *)
Theorem makeMove_keeps_kinds (from to : Position) (gs gs' : GameState) :
  wellFormedBoard (board gs) ->
  makeMove from to gs = Normal (Some gs') ->
  (forall r c q, cell (board gs') r c = Some q -> pieceOf (board gs) q)
  /\ (forall p, cell (board gs) (row from) (col from) = Some p ->
                type p = Some pawn ->
                cell (board gs') (row to) (col to) = Some (withMoved p))
  /\ (exists m, lastMove gs' = Some m
                /\ moveHistory gs' = moveHistory gs ++ [m]
                /\ promotion m = None).
Proof.
  intros [Hlen _] H.
  destruct (makeMove_inv _ _ _ _ H) as [p [text [Hvalid [Hp Hgs]]]].
  cbv zeta in Hgs.
  destruct Hgs as [Hboard [_ [Hhist [_ [_ [Hlast _]]]]]].
  split; [|split].
  - rewrite Hboard. apply piecesOf_boardAfter. exact Hp.
  - intros p' Hp' Hpawn. rewrite Hp in Hp'. injection Hp' as <-.
    destruct (isValidMove_inv _ _ _ Hvalid)
      as [p0 [Hp0 [_ [Hto [Hother _]]]]].
    destruct (getPieceAt_cell _ _ _ Hp0) as [Hc0 [Hr0 Hcl0]].
    rewrite Hp in Hc0. injection Hc0 as <-.
    assert (Hne : row from <> row to \/ col from <> col to).
    { destruct (Z.eq_dec (row from) (row to)) as [Er|]; [|now left].
      destruct (Z.eq_dec (col from) (col to)) as [Ec|]; [|now right].
      exfalso. apply (Hother p); [|reflexivity].
      rewrite <- Hp0. destruct from, to. cbn in Er, Ec. now subst. }
    unfold isValidPosition in Hto.
    rewrite Hboard. unfold boardAfter, isCastlingMove.
    replace (hasType p king) with false
      by (unfold hasType; now rewrite Hpawn).
    cbn [andb].
    assert (Hat : cell (setCell
                          (setCell (board gs) (row to) (col to)
                             (Some (withMoved p)))
                          (row from) (col from) None) (row to) (col to)
                  = Some (withMoved p)).
    { rewrite cell_setCell_other by lia.
      apply cell_setCell_same; lia. }
    destruct (isEnPassantMove p from to gs); [|exact Hat].
    rewrite cell_setCell_other; [exact Hat|].
    left. destruct (color p); lia.
  - eexists. split; [exact Hlast|]. split; [exact Hhist | reflexivity].
Qed.

Lemma makeMove_keeps_kinds_witness :
  let gs' := playMove (square 3 4) (square 2 3) plainEnPassant in
  (forall r c q, cell (board gs') r c = Some q ->
                 pieceOf (board plainEnPassant) q)
  /\ (forall p, cell (board plainEnPassant) 3 4 = Some p ->
                type p = Some pawn ->
                cell (board gs') 2 3 = Some (withMoved p))
  /\ (exists m, lastMove gs' = Some m
                /\ moveHistory gs' = moveHistory plainEnPassant ++ [m]
                /\ promotion m = None).
Proof.
  apply (makeMove_keeps_kinds (square 3 4) (square 2 3) plainEnPassant).
  - split; [reflexivity|]. vm_compute. repeat constructor.
  - vm_compute. reflexivity.
Defined.

End EngineClaims.

(** * The claims about the codec *)

Module CodecClaims.

Import ChessUtils ChessEngine Reading Positions EngineFacts CodecFacts.
Local Open Scope string_scope.
Local Open Scope Z_scope.

(** C4.  For a game state whose board is eight rows of eight cells holding
    pieces of the six kinds, and whose en-passant target, if any, is a square
    of the board, [gameStateToFEN] returns a text from which
    [FENToGameState] returns a state with the same kind and side of piece on
    every square, the same side to move, the same four castling rights and the
    same en-passant target. *)
Theorem FEN_round_trip (p : GameState) :
  wellFormedBoard (board p) ->
  kindsDefined (board p) ->
  (forall ep, enPassantTarget p = Some ep -> isValidPosition ep = true) ->
  exists fen q,
    gameStateToFEN p = Normal fen
    /\ FENToGameState fen = Normal (ParsedState q)
    /\ (forall r c, 0 <= r < 8 -> 0 <= c < 8 ->
          sameOccupant (cell (board p) r c) (cell (board q) r c))
    /\ currentPlayer q = currentPlayer p
    /\ castlingRights q = castlingRights p
    /\ enPassantTarget q = enPassantTarget p.
Proof.
  intros _ Hk Hep.
  destruct (gameStateToFEN_text p Hk) as [tail Hfen].
  destruct (boardText_split (board p) Hk) as [Hsp Hrows].
  destruct (castlingText_facts (castlingRights p))
    as [HcrSp [HcK [HcQ [Hck Hcq]]]].
  assert (Htarget :
            includes (targetText (enPassantTarget p)) " " = false
            /\ (if String.eqb (targetText (enPassantTarget p)) "-"
                then None
                else Some (chessNotationToPosition
                             (targetText (enPassantTarget p))))
               = option_map (fun pos => (Num (row pos), col pos))
                   (enPassantTarget p)).
  { destruct (enPassantTarget p) as [ep|] eqn:E; [|split; reflexivity].
    specialize (Hep ep eq_refl). unfold isValidPosition in Hep.
    destruct ep as [r c]. cbn [row col] in Hep.
    destruct (targetText_facts r c ltac:(lia) ltac:(lia)) as [H1 [H2 H3]].
    cbn [targetText option_map row col]. rewrite H2, H3. split; auto. }
  destruct Htarget as [HtSp Htarget].
  destruct (enPassantTarget p) as [[er ec]|] eqn:Eep;
    (eexists; eexists; split; [exact Hfen|]).
  all: unfold FENToGameState.
  all: rewrite (split_append " " _ _ Hsp).
  all: rewrite (split_append " " (colorText (currentPlayer p)))
    by (destruct (currentPlayer p); reflexivity).
  all: rewrite (split_append " " _ _ HcrSp), (split_append " " _ _ HtSp).
  all: cbn [nth nth_error].
  all: rewrite Htarget, Hrows, rowTexts_list.
  all: rewrite parseRows_eight, HcK, HcQ, Hck, Hcq.
  all: cbn [option_map row col].
  - split; [reflexivity|]. cbn [board currentPlayer castlingRights
                                 enPassantTarget].
    repeat split.
    + intros r c Hr Hc. rewrite cell_parsedBoard by exact Hr.
      rewrite <- rowTexts_list, nth_rowTexts by exact Hr.
      now apply parsed_row_sameOccupant.
    + destruct (currentPlayer p); reflexivity.
    + destruct (castlingRights p); reflexivity.
  - split; [reflexivity|]. cbn [board currentPlayer castlingRights
                                 enPassantTarget].
    repeat split.
    + intros r c Hr Hc. rewrite cell_parsedBoard by exact Hr.
      rewrite <- rowTexts_list, nth_rowTexts by exact Hr.
      now apply parsed_row_sameOccupant.
    + destruct (currentPlayer p); reflexivity.
    + destruct (castlingRights p); reflexivity.
Qed.

(** [plainEnPassant] has an en-passant target and pieces that have moved. *)
Lemma FEN_round_trip_witness :
  enPassantTarget plainEnPassant = Some (square 2 3)
  /\ exists fen q,
       gameStateToFEN plainEnPassant = Normal fen
       /\ FENToGameState fen = Normal (ParsedState q)
       /\ (forall r c, 0 <= r < 8 -> 0 <= c < 8 ->
             sameOccupant (cell (board plainEnPassant) r c)
               (cell (board q) r c))
       /\ currentPlayer q = currentPlayer plainEnPassant
       /\ castlingRights q = castlingRights plainEnPassant
       /\ enPassantTarget q = enPassantTarget plainEnPassant.
Proof.
  split; [vm_compute; reflexivity|].
  apply (FEN_round_trip plainEnPassant).
  - split; [reflexivity|]. vm_compute. repeat constructor.
  - apply kindsDefined_check. vm_compute. reflexivity.
  - intros ep H. vm_compute in H. injection H as <-. reflexivity.
Defined.

(** C9 as stated fails.  The empty text, which has none of the fields, makes
    [FENToGameState] raise; a text whose last row ends with the letter x is
    parsed as any other, and h1 holds a piece of undefined kind. *)
Lemma malformed_text_not_signalled :
  FENToGameState "" = TypeError
  /\ exists gs,
       FENToGameState "8/8/8/8/8/8/8/7x w - - 0 1" = Normal (ParsedState gs)
       /\ cell (board gs) 7 7 = Some (parsedPiece "x" 7 7)
       /\ type (parsedPiece "x" 7 7) = None.
Proof.
  split; [reflexivity|].
  eexists. split; [vm_compute; reflexivity|].
  split; vm_compute; reflexivity.
Qed.

(** C9, amended.  [FENToGameState] has no decode failure of its own.  It
    raises a [TypeError] exactly when the text has fewer than four fields
    separated by spaces or its first field has fewer than eight rows
    separated by slashes.  On any other text it returns a state, and a
    character of one of the eight rows that is not a digit from 1 to 8 is
    stored as a piece on the column the characters before it add up to, with
    the kind [typeMap] gives the letter: none for an unrecognized letter. *)
Theorem FENToGameState_outcomes (fen : string) :
  let parts := split " " fen in
  let rows := split "/" (nth 0 parts "") in
  (FENToGameState fen = TypeError
   <-> (List.length parts < 4 \/ List.length rows < 8)%nat)
  /\ (forall r pre x post,
        (4 <= List.length parts)%nat ->
        (8 <= List.length rows)%nat ->
        0 <= r < 8 ->
        nth_error rows (Z.to_nat r) = Some (pre ++ String x post) ->
        isDigit1to8 x = false ->
        exists gs q,
          returnedState (FENToGameState fen) = Some gs
          /\ cell (board gs) r (textWidth pre) = Some q
          /\ q = FENCharToPiece x (pieceId x r (textWidth pre))
          /\ type q = typeMap x).
Proof.
  intros parts rows. unfold FENToGameState. fold parts. fold rows.
  split.
  - destruct (nth_error parts 3) as [part3|] eqn:E3.
    + assert (Hlen : (4 <= List.length parts)%nat).
      { assert (nth_error parts 3 <> None) by congruence.
        apply nth_error_Some in H. lia. }
      destruct (parseRows indices8 rows emptyBoard) as [b|] eqn:Eb.
      * split.
        -- destruct (if String.eqb part3 "-" then None
                     else Some (chessNotationToPosition part3))
             as [[[z|] c]|]; discriminate.
        -- intros [H|H]; [lia|].
           apply (parseRows_throws_eight rows emptyBoard) in H. congruence.
      * split; [|reflexivity]. intros _. right.
        now apply (parseRows_throws_eight rows emptyBoard).
    + split; [|reflexivity]. intros _. left.
      apply nth_error_None in E3. lia.
  - intros r pre x post Hparts Hrows Hr Hnth Hx.
    destruct (nth_error parts 3) as [part3|] eqn:E3;
      [|apply nth_error_None in E3; lia].
    destruct rows as [|s0 [|s1 [|s2 [|s3 [|s4 [|s5 [|s6 [|s7 more]]]]]]]];
      cbn [List.length] in Hrows; try lia.
    rewrite parseRows_eight.
    assert (Hcell : cell (parsedBoard s0 s1 s2 s3 s4 s5 s6 s7) r (textWidth pre)
                    = Some (FENCharToPiece x (pieceId x r (textWidth pre)))).
    { rewrite cell_parsedBoard by exact Hr.
      assert (Hs : nth (Z.to_nat r) [s0; s1; s2; s3; s4; s5; s6; s7] ""
                   = pre ++ String x post).
      { assert (H0 : 0 <= r <= 8) by lia.
        by_small_cases r H0; try lia; simpl in Hnth |- *; congruence. }
      rewrite Hs. apply parseRowChars_stores; [lia | cbn; lia | exact Hx]. }
    destruct (if String.eqb part3 "-" then None
              else Some (chessNotationToPosition part3)) as [[[z|] c]|];
      (eexists; eexists; split; [reflexivity|]; split; [exact Hcell|];
       split; reflexivity).
Qed.

Lemma FENToGameState_outcomes_witness :
  exists gs q,
    returnedState (FENToGameState "8/8/8/8/8/8/8/7x w - - 0 1") = Some gs
    /\ cell (board gs) 7 7 = Some q
    /\ q = FENCharToPiece "x" (pieceId "x" 7 7)
    /\ type q = None.
Proof.
  apply (proj2 (FENToGameState_outcomes "8/8/8/8/8/8/8/7x w - - 0 1")
           7 "7" "x"%char "").
  - vm_compute. lia.
  - vm_compute. lia.
  - lia.
  - reflexivity.
  - reflexivity.
Defined.

End CodecClaims.

(** * Further properties of the engine *)

Module EngineExtras.

Import ChessUtils ChessEngine Reading Positions EngineFacts.

(** ** Helpers *)

Lemma squares_NoDup : NoDup squares.
Proof.
  unfold squares, indices8. cbn [flat_map map app].
  repeat (constructor;
          [ cbn [In]; intros H;
            repeat (destruct H as [H | H]; [discriminate H|]); exact H
          | ]).
  constructor.
Qed.

Lemma positionOf_inj (a b : Z * Z) : positionOf a = positionOf b -> a = b.
Proof.
  destruct a, b. unfold positionOf. cbn. intros H. now injection H as -> ->.
Qed.

Lemma positions_NoDup : NoDup (map positionOf squares).
Proof.
  assert (H : forall l : list (Z * Z), NoDup l -> NoDup (map positionOf l)).
  { induction l as [|x l IH]; intros Hl; cbn [map]; [constructor|].
    inversion Hl as [|y l' Hx Hl' E]; subst. constructor; [|now apply IH].
    intros Hin. apply in_map_iff in Hin. destruct Hin as [z [Hz Hin]].
    apply positionOf_inj in Hz. now subst. }
  apply H, squares_NoDup.
Qed.

(** The fields of the state an accepted move returns that [makeMove_inv]
    leaves out. *)
Lemma makeMove_rights_target (from to : Position) (gs gs' : GameState) :
  makeMove from to gs = Normal (Some gs') ->
  exists p,
    cell (board gs) (row from) (col from) = Some p
    /\ castlingRights gs'
       = {| whiteKingSide :=
              if hasType p king && PieceColor_eqb (color p) white then false
              else if hasType p rook && (row from =? 7) && (col from =? 7)
                   then false
                   else whiteKingSide (castlingRights gs);
            whiteQueenSide :=
              if hasType p king && PieceColor_eqb (color p) white then false
              else if hasType p rook && (row from =? 7) && (col from =? 0)
                   then false
                   else whiteQueenSide (castlingRights gs);
            blackKingSide :=
              if hasType p king && PieceColor_eqb (color p) black then false
              else if hasType p rook && (row from =? 0) && (col from =? 7)
                   then false
                   else blackKingSide (castlingRights gs);
            blackQueenSide :=
              if hasType p king && PieceColor_eqb (color p) black then false
              else if hasType p rook && (row from =? 0) && (col from =? 0)
                   then false
                   else blackQueenSide (castlingRights gs) |}
    /\ enPassantTarget gs'
       = if hasType p pawn && (Z.abs (row to - row from) =? 2)
         then Some {| row := (row from + row to) / 2; col := col to |}
         else None.
Proof.
  unfold makeMove. intros H.
  destruct (isValidMove from to gs); cbn [negb] in H; [|discriminate].
  destruct (cell (board gs) (row from) (col from)) as [p|]; [|discriminate].
  cbv zeta in H.
  destruct (generateMoveNotation _ _) as [text|]; [|discriminate].
  injection H as <-. exists p. split; [reflexivity|].
  cbn [castlingRights enPassantTarget withStatus].
  unfold updateCastlingRights, getEnPassantTarget. cbn.
  split; [|reflexivity].
  unfold hasType.
  destruct (type p) as [[]|], (color p), (castlingRights gs) as [a b c d];
    cbn; try reflexivity;
    destruct (row from =? 7), (row from =? 0), (col from =? 7),
      (col from =? 0); reflexivity.
Qed.

(** What a state after an accepted move keeps of the castling rights. *)
Lemma rights_after_within (from to : Position) (gs gs' : GameState) :
  makeMove from to gs = Normal (Some gs') ->
  rightsWithin (castlingRights gs') (castlingRights gs).
Proof.
  intros H c kingSide.
  destruct (makeMove_rights_target _ _ _ _ H) as [p [_ [Hr _]]].
  rewrite Hr. unfold rightFor.
  destruct c, kingSide; cbn [whiteKingSide whiteQueenSide blackKingSide
                               blackQueenSide];
    repeat match goal with
           | |- context [if ?b then _ else _] => destruct b
           end; auto; discriminate.
Qed.

(** ** Acceptance *)

Lemma makeMove_accepts (from to : Position) (gs : GameState) :
  isValidMove from to gs = true ->
  exists gs', makeMove from to gs = Normal (Some gs').
Proof.
  intros EV. pose proof (makeMove_never_raises from to gs) as Hraise.
  destruct (isValidMove_inv _ _ _ EV) as [p [Hp _]].
  apply getPieceAt_cell in Hp. destruct Hp as [Hp _].
  revert Hraise. unfold makeMove. rewrite EV, Hp. cbn [negb]. cbv zeta.
  destruct (generateMoveNotation _ _); [eauto | congruence].
Qed.

Lemma makeMove_declines (from to : Position) (gs : GameState) :
  isValidMove from to gs = false -> makeMove from to gs = Normal None.
Proof. intros EV. unfold makeMove. now rewrite EV. Qed.

(** X1.  On a board of eight rows of eight cells [makeMove] never raises; it
    returns [null] exactly for the moves that [isValidMove] rejects and a
    state for every move it accepts. *)
Theorem makeMove_rejects_iff (from to : Position) (gs : GameState) :
  wellFormedBoard (board gs) ->
  makeMove from to gs <> TypeError
  /\ (makeMove from to gs = Normal None <-> isValidMove from to gs = false)
  /\ ((exists gs', makeMove from to gs = Normal (Some gs'))
      <-> isValidMove from to gs = true).
Proof.
  intros _. split; [apply makeMove_never_raises|].
  destruct (isValidMove from to gs) eqn:EV.
  - destruct (makeMove_accepts _ _ _ EV) as [gs' E].
    split; split; eauto; try discriminate.
    rewrite E. discriminate.
  - pose proof (makeMove_declines _ _ _ EV) as E.
    rewrite E. split; split; auto; try discriminate.
    intros [gs' H]. discriminate.
Qed.

Lemma makeMove_rejects_iff_witness :
  makeMove (square 6 4) (square 3 4) initialState <> TypeError
  /\ (makeMove (square 6 4) (square 3 4) initialState = Normal None
      <-> isValidMove (square 6 4) (square 3 4) initialState = false)
  /\ ((exists gs',
          makeMove (square 6 4) (square 3 4) initialState = Normal (Some gs'))
      <-> isValidMove (square 6 4) (square 3 4) initialState = true).
Proof.
  apply (makeMove_rejects_iff (square 6 4) (square 3 4) initialState).
  split; [reflexivity|]. vm_compute. repeat constructor.
Defined.

Lemma getValidMoves_In (from to : Position) (gs : GameState) :
  In to (getValidMoves from gs) <-> isValidMove from to gs = true.
Proof.
  unfold getValidMoves.
  destruct (getPieceAt (board gs) from) as [p|] eqn:Ep.
  - destruct (PieceColor_eqb (color p) (currentPlayer gs)) eqn:Ec;
      cbn [negb].
    + rewrite filter_In. split; [tauto|].
      intros H. split; [|exact H].
      destruct (isValidMove_inv _ _ _ H) as [_ [_ [_ [Hv _]]]].
      apply in_map_iff. exists (row to, col to).
      split; [apply positionOf_eta|].
      apply squares_bounds. unfold isValidPosition in Hv. lia.
    + split; [intros []|].
      intros H. destruct (isValidMove_inv _ _ _ H) as [q [Hq [Hc _]]].
      rewrite Ep in Hq. injection Hq as <-.
      apply PieceColor_eqb_eq in Hc. congruence.
  - split; [intros []|].
    intros H. destruct (isValidMove_inv _ _ _ H) as [q [Hq _]]. congruence.
Qed.

(** X2.  [getValidMoves] lists the destinations that [isValidMove] accepts
    from [from], each of them once. *)
Theorem getValidMoves_exact (from : Position) (gs : GameState) :
  NoDup (getValidMoves from gs)
  /\ forall to, In to (getValidMoves from gs) <-> isValidMove from to gs = true.
Proof.
  split; [|intros to; apply getValidMoves_In].
  unfold getValidMoves.
  destruct (getPieceAt (board gs) from) as [p|]; [|constructor].
  destruct (negb _); [constructor|].
  apply NoDup_filter, positions_NoDup.
Qed.

(** ** Bookkeeping of [makeMove] *)

(** X3.  Castling rights are only ever lost: a right that holds after an
    accepted move held before it. *)
Theorem makeMove_rights_only_lost (from to : Position) (gs gs' : GameState) :
  makeMove from to gs = Normal (Some gs') ->
  forall c kingSide,
    rightFor c kingSide (castlingRights gs') = true ->
    rightFor c kingSide (castlingRights gs) = true.
Proof. intros H. exact (rights_after_within _ _ _ _ H). Qed.

Lemma makeMove_rights_only_lost_witness :
  rightFor white true (castlingRights initialState) = true.
Proof.
  apply (makeMove_rights_only_lost (square 6 4) (square 4 4) initialState
           (playMove (square 6 4) (square 4 4) initialState)).
  - vm_compute. reflexivity.
  - vm_compute. reflexivity.
Defined.

(** X4.  After an accepted move of a king both castling rights of its side
    are off, and after an accepted move of a rook from a corner of the board
    the right that goes with that corner is off, whose rook it may be. *)
Theorem makeMove_rights_lost (from to : Position) (gs gs' : GameState)
    (p : ChessPiece) :
  makeMove from to gs = Normal (Some gs') ->
  cell (board gs) (row from) (col from) = Some p ->
  (type p = Some king ->
   forall kingSide, rightFor (color p) kingSide (castlingRights gs') = false)
  /\ (type p = Some rook ->
      forall c kingSide,
        row from = (match c with white => 7 | black => 0 end) ->
        col from = (if kingSide : bool then 7 else 0) ->
        rightFor c kingSide (castlingRights gs') = false).
Proof.
  intros H Hp.
  destruct (makeMove_rights_target _ _ _ _ H) as [q [Hq [Hr _]]].
  rewrite Hp in Hq. injection Hq as <-. rewrite Hr. unfold rightFor, hasType.
  split; intros Ht; rewrite Ht.
  - intros kingSide. destruct (color p), kingSide; reflexivity.
  - intros c kingSide Hrow Hcol. rewrite Hrow, Hcol.
    destruct c, kingSide; reflexivity.
Qed.

Lemma makeMove_rights_lost_witness :
  rightFor white false (castlingRights queensideReady) = true
  /\ rightFor white false
       (castlingRights (playMove (square 7 0) (square 7 1) queensideReady))
     = false.
Proof.
  split; [vm_compute; reflexivity|].
  apply (proj2 (makeMove_rights_lost (square 7 0) (square 7 1) queensideReady
                  (playMove (square 7 0) (square 7 1) queensideReady)
                  (parsedPiece "R" 7 0)
                  ltac:(vm_compute; reflexivity)
                  ltac:(vm_compute; reflexivity))
          ltac:(reflexivity) white false); reflexivity.
Defined.

(** X5.  The en-passant target after an accepted move is set exactly when a
    pawn has advanced two rows; the pawn then came from the starting row of
    its side along its column, and the target is the square it passed over. *)
Theorem makeMove_enPassantTarget (from to : Position) (gs gs' : GameState)
    (p : ChessPiece) :
  makeMove from to gs = Normal (Some gs') ->
  cell (board gs) (row from) (col from) = Some p ->
  (enPassantTarget gs' <> None
   <-> type p = Some pawn /\ Z.abs (row to - row from) = 2)
  /\ forall target,
       enPassantTarget gs' = Some target ->
       row from = startingRow (color p)
       /\ col to = col from
       /\ row to = row from + 2 * pawnDirection (color p)
       /\ target = {| row := row from + pawnDirection (color p);
                      col := col from |}.
Proof.
  intros H Hp.
  destruct (makeMove_rights_target _ _ _ _ H) as [q [Hq [_ He]]].
  rewrite Hp in Hq. injection Hq as <-. rewrite He.
  destruct (makeMove_inv _ _ _ _ H) as [q [_ [Hvalid [Hq _]]]].
  rewrite Hp in Hq. injection Hq as <-.
  destruct (hasType p pawn) eqn:Et; cbn [andb].
  2:{ split; [|discriminate]. split; [congruence|].
      intros [Ht _]. apply hasType_eq in Ht. congruence. }
  apply hasType_eq in Et.
  destruct (Z.abs (row to - row from) =? 2) eqn:E2.
  2:{ split; [|discriminate]. split; [congruence|].
      intros [_ Ha]. apply Z.eqb_neq in E2. contradiction. }
  apply Z.eqb_eq in E2.
  split; [split; [auto | discriminate]|].
  intros target Ht. injection Ht as <-.
  destruct (isValidMove_inv _ _ _ Hvalid) as [q [Hq [_ [_ [_ [Hmove _]]]]]].
  apply getPieceAt_cell in Hq. destruct Hq as [Hq _].
  rewrite Hp in Hq. injection Hq as <-.
  unfold isPieceMovementValid, isPieceMovementValid_with in Hmove.
  rewrite Et in Hmove. cbn [returned] in Hmove.
  unfold isPawnMoveValid in Hmove.
  assert (Hdiag : (Z.abs (col to - col from) =? 1)
                  && (row to - row from =? pawnDirection (color p)) = false).
  { apply andb_false_iff. right. apply Z.eqb_neq.
    destruct (color p); cbn [pawnDirection]; lia. }
  rewrite Hdiag in Hmove.
  destruct (col to - col from =? 0) eqn:Ec; [|discriminate].
  apply Z.eqb_eq in Ec.
  destruct (getPieceAt (board gs) to); [discriminate|].
  destruct (row to - row from =? pawnDirection (color p)) eqn:E1.
  { apply Z.eqb_eq in E1. destruct (color p); cbn [pawnDirection] in E1; lia. }
  destruct ((row to - row from =? 2 * pawnDirection (color p))
            && (PieceColor_eqb (color p) white && (row from =? 6)
                || PieceColor_eqb (color p) black && (row from =? 1))) eqn:Ed;
    [|discriminate].
  apply andb_prop in Ed. destruct Ed as [Ed Es]. apply Z.eqb_eq in Ed.
  assert (Hstart : row from = startingRow (color p)).
  { destruct (color p); cbn [PieceColor_eqb andb orb startingRow] in *;
      rewrite ?orb_false_r in Es; lia. }
  repeat split; try lia.
  f_equal; [|lia].
  symmetry. apply Z.div_unique with (r := 0); [lia|].
  destruct (color p); cbn [pawnDirection] in *; lia.
Qed.

Lemma makeMove_enPassantTarget_witness :
  enPassantTarget plainEnPassant = Some (square 2 3).
Proof.
  destruct (makeMove_enPassantTarget (square 1 3) (square 3 3)
              (stateOfFEN "4k3/3p4/8/4P3/8/8/8/4K3 b - - 0 1")
              plainEnPassant (parsedPiece "p" 1 3)
              ltac:(vm_compute; reflexivity) ltac:(vm_compute; reflexivity))
    as [_ H].
  destruct (enPassantTarget plainEnPassant) as [t|] eqn:E.
  - destruct (H t eq_refl) as [_ [_ [_ ->]]]. reflexivity.
  - vm_compute in E. discriminate E.
Defined.

(** X6.  After an accepted move the game is over, with status checkmate or
    stalemate, exactly when [makeMove] rejects every move from the new
    state. *)
Theorem makeMove_over_iff_stuck (from to : Position) (gs gs' : GameState) :
  makeMove from to gs = Normal (Some gs') ->
  (gameStatus gs' = checkmate \/ gameStatus gs' = stalemate
   <-> forall f t, makeMove f t gs' = Normal None)
  /\ (gameStatus gs' = check \/ gameStatus gs' = playing
      <-> exists f t next, makeMove f t gs' = Normal (Some next)).
Proof.
  intros H. destruct (makeMove_inv _ _ _ _ H) as [p [text [_ [_ Hgs]]]].
  cbv zeta in Hgs. destruct Hgs as [_ [_ [_ [_ [_ [_ Hstatus]]]]]].
  rewrite Hstatus. unfold getGameStatus.
  destruct (hasValidMoves gs') eqn:Ev; cbn [negb].
  - apply hasValidMoves_spec in Ev. destruct Ev as [f [t Hft]].
    destruct (makeMove_accepts _ _ _ Hft) as [next Hnext].
    split; split.
    + destruct (isInCheck gs'); intros [E|E]; discriminate.
    + intros Hall. rewrite Hall in Hnext. discriminate.
    + intros _. eauto.
    + intros _. destruct (isInCheck gs'); auto.
  - assert (Hnone : forall f t, makeMove f t gs' = Normal None).
    { intros f t. apply makeMove_declines.
      destruct (isValidMove f t gs') eqn:E; [|reflexivity].
      assert (hasValidMoves gs' = true)
        by (apply hasValidMoves_spec; eauto). congruence. }
    split; split.
    + intros _. exact Hnone.
    + intros _. destruct (isInCheck gs'); auto.
    + destruct (isInCheck gs'); intros [E|E]; discriminate.
    + intros [f [t [next Hn]]]. rewrite Hnone in Hn. discriminate.
Qed.

Lemma makeMove_over_iff_stuck_witness :
  let gs' := playMove (square 0 3) (square 4 7) beforeFoolsMate in
  (gameStatus gs' = checkmate \/ gameStatus gs' = stalemate
   <-> forall f t, makeMove f t gs' = Normal None)
  /\ (gameStatus gs' = check \/ gameStatus gs' = playing
      <-> exists f t next, makeMove f t gs' = Normal (Some next)).
Proof.
  apply (makeMove_over_iff_stuck (square 0 3) (square 4 7) beforeFoolsMate).
  vm_compute. reflexivity.
Defined.

(** X7.  An accepted move adds one record to the history, which is also the
    last move of the new state and holds the two squares and the piece
    moved; the occupant of the destination, if any, belongs to the side that
    did not move and is added to the captured pieces, which are otherwise
    kept. *)
Theorem makeMove_history_captures (src dst : Position) (gs gs' : GameState) :
  makeMove src dst gs = Normal (Some gs') ->
  exists m p,
    moveHistory gs' = moveHistory gs ++ [m]
    /\ lastMove gs' = Some m
    /\ from m = src /\ to m = dst
    /\ cell (board gs) (row src) (col src) = Some p
    /\ piece m = p
    /\ color p = currentPlayer gs
    /\ capturedPiece m = cell (board gs) (row dst) (col dst)
    /\ match cell (board gs) (row dst) (col dst) with
       | Some captured =>
           color captured = opponentOf (currentPlayer gs)
           /\ capturedPieces gs' = capturedPieces gs ++ [captured]
       | None => capturedPieces gs' = capturedPieces gs
       end.
Proof.
  intros H. destruct (makeMove_inv _ _ _ _ H) as [p [text [Hvalid [Hp Hgs]]]].
  cbv zeta in Hgs.
  destruct Hgs as [_ [_ [Hhist [Hcap [_ [Hlast _]]]]]].
  destruct (isValidMove_inv _ _ _ Hvalid)
    as [q [Hq [Hcol [Hdst [Hother _]]]]].
  destruct (getPieceAt_cell _ _ _ Hq) as [Hq' _].
  rewrite Hp in Hq'. injection Hq' as <-.
  eexists. exists p.
  split; [exact Hhist|]. split; [exact Hlast|].
  do 5 (split; [first [reflexivity | assumption]|]).
  split; [reflexivity|].
  destruct (cell (board gs) (row dst) (col dst)) as [captured|] eqn:Ec;
    [|exact Hcap].
  split; [|exact Hcap].
  assert (Hg : getPieceAt (board gs) dst = Some captured).
  { unfold getPieceAt. rewrite Hdst. exact Ec. }
  specialize (Hother captured Hg). rewrite <- Hcol.
  destruct (color captured), (color p); try reflexivity; congruence.
Qed.

Lemma makeMove_history_captures_witness :
  let gs' := playMove (square 4 4) (square 3 3) beforeCapture in
  exists m p,
    moveHistory gs' = moveHistory beforeCapture ++ [m]
    /\ lastMove gs' = Some m
    /\ from m = square 4 4 /\ to m = square 3 3
    /\ cell (board beforeCapture) 4 4 = Some p
    /\ piece m = p
    /\ color p = currentPlayer beforeCapture
    /\ capturedPiece m = cell (board beforeCapture) 3 3
    /\ match cell (board beforeCapture) 3 3 with
       | Some captured =>
           color captured = opponentOf (currentPlayer beforeCapture)
           /\ capturedPieces gs' = capturedPieces beforeCapture ++ [captured]
       | None => capturedPieces gs' = capturedPieces beforeCapture
       end.
Proof.
  apply (makeMove_history_captures (square 4 4) (square 3 3) beforeCapture).
  vm_compute. reflexivity.
Defined.

(** ** The path between two squares *)

Lemma between_cons (lo hi : Z) :
  lo < hi -> between lo hi = lo :: between (lo + 1) hi.
Proof.
  intros H. unfold between.
  replace (Z.to_nat (hi - lo)) with (S (Z.to_nat (hi - (lo + 1)))) by lia.
  cbn [seq map]. f_equal; [lia|].
  rewrite <- seq_shift, map_map. apply map_ext. intros i. lia.
Qed.

Lemma between_nil (lo hi : Z) : hi <= lo -> between lo hi = [].
Proof.
  intros H. unfold between.
  replace (Z.to_nat (hi - lo)) with 0%nat by lia. reflexivity.
Qed.

Lemma pathLoop_spec (b : Board) (origin to : Position) (sr sc n : Z) :
  -1 <= sr <= 1 -> -1 <= sc <= 1 -> (sr <> 0 \/ sc <> 0 \/ n = 0) ->
  row origin + n * sr = row to -> col origin + n * sc = col to ->
  forall fuel j,
    0 <= j <= n -> n - j <= Z.of_nat fuel ->
    pathLoop fuel (row origin + j * sr) (col origin + j * sc) sr sc to b
    = Some (forallb
              (fun k => negb (isSome (cell b (row origin + k * sr)
                                        (col origin + k * sc))))
              (between j n)).
Proof.
  intros Hsr Hsc Hstep Hr Hc.
  induction fuel as [|fuel IH]; intros j Hj Hfuel.
  - assert (j = n) by lia. subst j. cbn [pathLoop].
    rewrite Hr, Hc, !Z.eqb_refl. cbn. now rewrite between_nil by lia.
  - cbn [pathLoop].
    destruct (Z.eq_dec j n) as [->|Hne].
    + rewrite Hr, Hc, !Z.eqb_refl. cbn. now rewrite between_nil by lia.
    + assert (Hnot : negb (row origin + j * sr =? row to)
                     || negb (col origin + j * sc =? col to) = true).
      { apply orb_true_iff.
        destruct (Z.eq_dec sr 0) as [E0|E0].
        - right. apply negb_true_iff, Z.eqb_neq. nia.
        - left. apply negb_true_iff, Z.eqb_neq. nia. }
      rewrite Hnot, between_cons by lia. cbn [forallb].
      destruct (cell b (row origin + j * sr) (col origin + j * sc));
        [reflexivity|].
      cbn [isSome negb andb].
      replace (row origin + j * sr + sr) with (row origin + (j + 1) * sr)
        by lia.
      replace (col origin + j * sc + sc) with (col origin + (j + 1) * sc)
        by lia.
      apply IH; lia.
Qed.

(** X8.  For two squares of a board of eight rows of eight cells that lie on
    a row, a column or a diagonal, [isPathClear] returns, and it returns
    [true] exactly when every square strictly between them is empty; the two
    squares themselves are not looked at. *)
Theorem isPathClear_spec (from to : Position) (b : Board) :
  wellFormedBoard b ->
  isValidPosition from = true ->
  isValidPosition to = true ->
  row to = row from \/ col to = col from
  \/ Z.abs (row to - row from) = Z.abs (col to - col from) ->
  isPathClear from to b
  = Some (forallb
            (fun k =>
               negb (isSome (cell b
                               (row from + k * Z.sgn (row to - row from))
                               (col from + k * Z.sgn (col to - col from)))))
            (between 1
               (Z.max (Z.abs (row to - row from))
                  (Z.abs (col to - col from))))).
Proof.
  intros _ _ _ Hline. unfold isPathClear.
  set (n := Z.max (Z.abs (row to - row from)) (Z.abs (col to - col from))).
  assert (Esr : (if row to =? row from then 0
                 else if row to >? row from then 1 else -1)
                = Z.sgn (row to - row from)).
  { destruct (row to =? row from) eqn:E1; [apply Z.eqb_eq in E1; lia|].
    apply Z.eqb_neq in E1. destruct (row to >? row from) eqn:E2; lia. }
  assert (Esc : (if col to =? col from then 0
                 else if col to >? col from then 1 else -1)
                = Z.sgn (col to - col from)).
  { destruct (col to =? col from) eqn:E1; [apply Z.eqb_eq in E1; lia|].
    apply Z.eqb_neq in E1. destruct (col to >? col from) eqn:E2; lia. }
  rewrite Esr, Esc.
  destruct (Z.eq_dec n 0) as [E0|E0].
  - rewrite E0, between_nil by lia. cbn [Z.to_nat forallb pathLoop].
    replace (row from + Z.sgn (row to - row from) =? row to) with true
      by (symmetry; apply Z.eqb_eq; lia).
    replace (col from + Z.sgn (col to - col from) =? col to) with true
      by (symmetry; apply Z.eqb_eq; lia).
    reflexivity.
  - pose proof (pathLoop_spec b from to (Z.sgn (row to - row from))
                  (Z.sgn (col to - col from)) n
                  ltac:(lia) ltac:(lia) ltac:(lia) ltac:(lia) ltac:(lia)
                  (Z.to_nat n) 1 ltac:(lia) ltac:(lia)) as H.
    rewrite !Z.mul_1_l in H. exact H.
Qed.

Lemma isPathClear_spec_witness :
  isPathClear (square 7 0) (square 7 4) (board queensideReady) = Some true
  /\ isPathClear (square 0 3) (square 4 7) (board initialState) = Some false.
Proof.
  split.
  - rewrite (isPathClear_spec (square 7 0) (square 7 4)
               (board queensideReady));
      [ vm_compute; reflexivity
      | split; [reflexivity | vm_compute; repeat constructor]
      | reflexivity
      | reflexivity
      | left; reflexivity ].
  - rewrite (isPathClear_spec (square 0 3) (square 4 7) (board initialState));
      [ vm_compute; reflexivity
      | split; [reflexivity | vm_compute; repeat constructor]
      | reflexivity
      | reflexivity
      | right; right; reflexivity ].
Defined.

(** ** The board after a move *)

Lemma length_setNth (cells : list (option ChessPiece)) (n : nat)
    (v : option ChessPiece) :
  (n < List.length cells)%nat ->
  List.length (setNth cells n v) = List.length cells.
Proof.
  revert cells. induction n as [|n IH]; intros [|h t] H; cbn in *; try lia.
  rewrite IH; lia.
Qed.

Lemma wellFormedBoard_setCell (b : Board) (r c : Z) (v : option ChessPiece) :
  wellFormedBoard b -> 0 <= c < 8 -> wellFormedBoard (setCell b r c v).
Proof.
  intros [Hlen Hrows] Hc. split; [now rewrite length_setCell|].
  unfold setCell. destruct ((r <? 0) || (c <? 0)); [exact Hrows|].
  clear Hlen. generalize (Z.to_nat r) as n.
  induction Hrows as [|cells rest Hcells Hrest IH]; intros n.
  - destruct n; constructor.
  - destruct n; cbn [mapNth]; constructor; auto.
    rewrite length_setNth; [exact Hcells | lia].
Qed.

(** X9.  An accepted move on a board of eight rows of eight cells returns
    such a board. *)
Theorem makeMove_wellFormedBoard (from to : Position) (gs gs' : GameState) :
  wellFormedBoard (board gs) ->
  makeMove from to gs = Normal (Some gs') ->
  wellFormedBoard (board gs').
Proof.
  intros Hwf H.
  destruct (makeMove_inv _ _ _ _ H) as [p [text [Hvalid [Hp Hgs]]]].
  cbv zeta in Hgs. destruct Hgs as [Hboard _]. rewrite Hboard.
  destruct (isValidMove_inv _ _ _ Hvalid) as [q [Hq [_ [Hto _]]]].
  apply getPieceAt_cell in Hq. destruct Hq as [_ [_ Hfc]].
  unfold isValidPosition in Hto.
  unfold boardAfter, handleCastling. cbv zeta.
  repeat match goal with
         | |- wellFormedBoard (if ?x then _ else _) => destruct x
         | |- wellFormedBoard (setCell _ _ _ _) =>
             apply wellFormedBoard_setCell
         end; try assumption; try lia;
    destruct (col to >? col from); lia.
Qed.

Lemma makeMove_wellFormedBoard_witness :
  wellFormedBoard (board (playMove (square 7 4) (square 7 2) queensideReady)).
Proof.
  apply (makeMove_wellFormedBoard (square 7 4) (square 7 2) queensideReady).
  - split; [reflexivity|]. vm_compute. repeat constructor.
  - vm_compute. reflexivity.
Defined.

(** The facts about an accepted move that the next theorems start from. *)
Lemma accepted_move (from to : Position) (gs gs' : GameState) :
  wellFormedBoard (board gs) ->
  makeMove from to gs = Normal (Some gs') ->
  exists p,
    cell (board gs) (row from) (col from) = Some p
    /\ board gs' = boardAfter p from to gs
    /\ isValidMove from to gs = true
    /\ isPieceMovementValid p from to gs = true
    /\ (0 <= row from < 8 /\ 0 <= col from < 8)
    /\ (0 <= row to < 8 /\ 0 <= col to < 8)
    /\ (row from <> row to \/ col from <> col to)
    /\ List.length (board gs) = 8%nat.
Proof.
  intros [Hlen _] H.
  destruct (makeMove_inv _ _ _ _ H) as [p [text [Hvalid [Hp Hgs]]]].
  cbv zeta in Hgs. destruct Hgs as [Hboard _].
  destruct (isValidMove_inv _ _ _ Hvalid)
    as [q [Hq [_ [Hto [Hother [Hmove _]]]]]].
  destruct (getPieceAt_cell _ _ _ Hq) as [Hq' [Hfr Hfc]].
  rewrite Hp in Hq'. injection Hq' as <-.
  exists p. repeat split; auto; try (unfold isValidPosition in Hto; lia).
  destruct (Z.eq_dec (row from) (row to)) as [Er|]; [|now left].
  destruct (Z.eq_dec (col from) (col to)) as [Ec|]; [|now right].
  exfalso. apply (Hother p); [|reflexivity].
  rewrite <- Hq. destruct from, to. cbn in Er, Ec. now subst.
Qed.

(** The square an accepted en-passant capture empties is beside the origin,
    on the column of the destination. *)
Lemma enPassant_square (p : ChessPiece) (from to : Position) (gs : GameState) :
  isPieceMovementValid p from to gs = true ->
  isEnPassantMove p from to gs = true ->
  (match color p with
   | white => row to + 1
   | black => row to - 1
   end) = row from
  /\ col to <> col from
  /\ row to <> row from.
Proof.
  intros Hmove. unfold isEnPassantMove. intros He. split_andb.
  apply hasType_eq in He.
  unfold isPieceMovementValid, isPieceMovementValid_with in Hmove.
  rewrite He in Hmove. cbn [returned] in Hmove.
  unfold isPawnMoveValid in Hmove.
  apply Z.eqb_eq in He2.
  replace (col to - col from =? 0) with false in Hmove
    by (symmetry; apply Z.eqb_neq; lia).
  destruct ((Z.abs (col to - col from) =? 1)
            && (row to - row from =? pawnDirection (color p))) eqn:Ed;
    [|discriminate].
  apply andb_prop in Ed. destruct Ed as [_ Ed]. apply Z.eqb_eq in Ed.
  destruct (color p); cbn [pawnDirection] in Ed; lia.
Qed.

(** X10.  An accepted move that is not a king's move of two columns puts the
    piece, marked as moved, on its destination and empties its origin; an
    en-passant capture also empties the square beside the origin, on the
    column of the destination; every other square keeps its content. *)
Theorem makeMove_ordinary (from to : Position) (gs gs' : GameState)
    (p : ChessPiece) :
  wellFormedBoard (board gs) ->
  makeMove from to gs = Normal (Some gs') ->
  cell (board gs) (row from) (col from) = Some p ->
  isCastlingMove p from to = false ->
  cell (board gs') (row to) (col to) = Some (withMoved p)
  /\ cell (board gs') (row from) (col from) = None
  /\ (isEnPassantMove p from to gs = true ->
      cell (board gs') (row from) (col to) = None)
  /\ forall r c,
       (r <> row to \/ c <> col to) ->
       (r <> row from \/ c <> col from) ->
       (isEnPassantMove p from to gs = false
        \/ r <> row from \/ c <> col to) ->
       cell (board gs') r c = cell (board gs) r c.
Proof.
  intros Hwf H Hp Hcastle.
  destruct (accepted_move _ _ _ _ Hwf H)
    as [q [Hq [Hboard [_ [Hmove [Hf [Ht [Hne Hlen]]]]]]]].
  rewrite Hp in Hq. injection Hq as <-.
  rewrite Hboard. unfold boardAfter. rewrite Hcastle. cbv zeta.
  pose proof (enPassant_square p from to gs Hmove) as Hrow.
  destruct (isEnPassantMove p from to gs) eqn:Eep.
  - destruct (Hrow eq_refl) as [-> [Hcol Hrw]].
    repeat split.
    + rewrite !cell_setCell_other by lia. apply cell_setCell_same; lia.
    + rewrite cell_setCell_other by lia.
      apply cell_setCell_same; rewrite ?length_setCell; lia.
    + intros _. apply cell_setCell_same; rewrite ?length_setCell; lia.
    + intros r c H1 H2 [H3|H3]; [discriminate|].
      now rewrite !cell_setCell_other by lia.
  - repeat split.
    + rewrite cell_setCell_other by lia. apply cell_setCell_same; lia.
    + apply cell_setCell_same; rewrite ?length_setCell; lia.
    + discriminate.
    + intros r c H1 H2 _. now rewrite !cell_setCell_other by lia.
Qed.

Lemma makeMove_ordinary_witness :
  let gs' := playMove (square 3 4) (square 2 3) plainEnPassant in
  cell (board gs') 2 3 = Some (withMoved (parsedPiece "P" 3 4))
  /\ cell (board gs') 3 4 = None
  /\ cell (board gs') 3 3 = None.
Proof.
  destruct (makeMove_ordinary (square 3 4) (square 2 3) plainEnPassant
              (playMove (square 3 4) (square 2 3) plainEnPassant)
              (parsedPiece "P" 3 4))
    as [H1 [H2 [H3 _]]].
  - split; [reflexivity|]. vm_compute. repeat constructor.
  - vm_compute. reflexivity.
  - vm_compute. reflexivity.
  - reflexivity.
  - split; [exact H1|]. split; [exact H2|]. apply H3. vm_compute. reflexivity.
Defined.

(** X11.  When a king on column 4 castles, the new board has the king two
    columns away and the rook of that corner on the column the king crossed,
    both marked as moved, the king's origin and the corner are empty, and
    every other square keeps its content. *)
Theorem makeMove_castles (from to : Position) (gs gs' : GameState)
    (p : ChessPiece) :
  wellFormedBoard (board gs) ->
  makeMove from to gs = Normal (Some gs') ->
  cell (board gs) (row from) (col from) = Some p ->
  type p = Some king ->
  col from = 4 ->
  Z.abs (col to - col from) = 2 ->
  let corner := if col to >? col from then 7 else 0 in
  let crossed := if col to >? col from then 5 else 3 in
  row to = row from
  /\ cell (board gs') (row from) (col to) = Some (withMoved p)
  /\ (exists cornerRook,
        cell (board gs) (row from) corner = Some cornerRook
        /\ type cornerRook = Some rook
        /\ color cornerRook = color p
        /\ cell (board gs') (row from) crossed = Some (withMoved cornerRook))
  /\ cell (board gs') (row from) 4 = None
  /\ cell (board gs') (row from) corner = None
  /\ forall r c,
       (r <> row from \/ (c <> 4 /\ c <> col to /\ c <> corner /\ c <> crossed))
       -> cell (board gs') r c = cell (board gs) r c.
Proof.
  intros Hwf H Hp Hking Hcol Habs corner crossed.
  destruct (accepted_move _ _ _ _ Hwf H)
    as [q [Hq [Hboard [_ [Hmove [Hf [Ht [Hne Hlen]]]]]]]].
  rewrite Hp in Hq. injection Hq as <-.
  rewrite (isPieceMovementValid_king _ _ _ _ Hking) in Hmove.
  replace (Z.abs (col to - col from) <=? 1) with false in Hmove
    by (symmetry; lia).
  rewrite andb_false_r, orb_false_l, isCastlingValid_unfold in Hmove.
  apply andb_prop in Hmove. destruct Hmove as [Hguard _].
  unfold castlingGuard in Hguard.
  destruct (getPieceAt (board gs)
              {| row := row from; col := rookColOf from to |})
    as [rk|] eqn:Erk; [|rewrite andb_false_r in Hguard; discriminate].
  split_andb. apply Z.eqb_eq in Hguard5.
  apply getPieceAt_cell in Erk. cbn [row col] in Erk.
  destruct Erk as [Erk _]. change (rookColOf from to) with corner in Erk.
  assert (Hep : isEnPassantMove p from to gs = false).
  { unfold isEnPassantMove, hasType. now rewrite Hking. }
  assert (Hcm : isCastlingMove p from to = true).
  { unfold isCastlingMove. apply andb_true_intro. split.
    - now apply hasType_eq.
    - apply Z.eqb_eq. exact Habs. }
  rewrite Hboard. unfold boardAfter. rewrite Hep, Hcm. cbv zeta.
  unfold handleCastling. fold corner. fold crossed.
  assert (Hcorner : corner = 7 /\ crossed = 5 /\ col to = 6
                    \/ corner = 0 /\ crossed = 3 /\ col to = 2).
  { unfold corner, crossed. destruct (col to >? col from) eqn:E; lia. }
  rewrite <- Hguard5 in *.
  assert (Hrook : cell (setCell
                          (setCell (board gs) (row from) (col to)
                             (Some (withMoved p)))
                          (row from) (col from) None) (row from) corner
                  = Some rk).
  { rewrite !cell_setCell_other by lia. exact Erk. }
  rewrite Hrook. cbn [option_map].
  split; [reflexivity|].
  split.
  { rewrite !cell_setCell_other by lia. apply cell_setCell_same; lia. }
  split.
  { exists rk. split; [exact Erk|]. split; [now apply hasType_eq|].
    split; [now apply PieceColor_eqb_eq|].
    rewrite cell_setCell_other by lia.
    apply cell_setCell_same; rewrite ?length_setCell; lia. }
  split.
  { rewrite !cell_setCell_other by lia. rewrite <- Hcol.
    apply cell_setCell_same; rewrite ?length_setCell; lia. }
  split.
  { apply cell_setCell_same; rewrite ?length_setCell; lia. }
  intros r c Hrc. now rewrite !cell_setCell_other by lia.
Qed.

Lemma makeMove_castles_witness :
  let gs' := playMove (square 7 4) (square 7 2) queensideReady in
  cell (board gs') 7 2 = Some (withMoved (parsedPiece "K" 7 4))
  /\ cell (board gs') 7 3 = Some (withMoved (parsedPiece "R" 7 0)).
Proof.
  destruct (makeMove_castles (square 7 4) (square 7 2) queensideReady
              (playMove (square 7 4) (square 7 2) queensideReady)
              (parsedPiece "K" 7 4))
    as [_ [H1 [[rk [Hrk [_ [_ H2]]]] _]]].
  - split; [reflexivity|]. vm_compute. repeat constructor.
  - vm_compute. reflexivity.
  - vm_compute. reflexivity.
  - reflexivity.
  - reflexivity.
  - reflexivity.
  - split; [exact H1|].
    assert (E : rk = parsedPiece "R" 7 0).
    { vm_compute in Hrk. injection Hrk as <-. reflexivity. }
    rewrite <- E. exact H2.
Defined.

(** ** A move that is neither castling nor en passant keeps the king safe *)

Lemma scanAny_mono (f g : Z * Z -> option bool) (l : list (Z * Z)) :
  (forall sq, In sq l -> f sq = Some true -> g sq = Some true) ->
  (forall sq, In sq l -> g sq <> None) ->
  scanAny f l = Some true -> scanAny g l = Some true.
Proof.
  induction l as [|sq rest IH]; intros Hfg Hg H; cbn [scanAny] in *;
    [discriminate|].
  assert (Hrest : scanAny f rest = Some true -> scanAny g rest = Some true).
  { apply IH; intros s Hs; [apply Hfg | apply Hg]; now right. }
  destruct (f sq) as [[|]|] eqn:Ef; try discriminate.
  - now rewrite (Hfg sq (or_introl eq_refl) Ef).
  - destruct (g sq) as [[|]|] eqn:Eg; auto.
    exfalso. exact (Hg sq (or_introl eq_refl) Eg).
Qed.

Lemma find_ext {A} (f g : A -> bool) (l : list A) :
  (forall x, f x = g x) -> find f l = find g l.
Proof.
  intros H. induction l as [|x l IH]; cbn; [reflexivity|].
  rewrite H, IH. reflexivity.
Qed.

Lemma existsb_same {A} (f g : A -> bool) (l : list A) :
  (forall x, f x = g x) -> existsb f l = existsb g l.
Proof.
  intros H. induction l as [|x l IH]; cbn; [reflexivity|].
  now rewrite H, IH.
Qed.

Section Similar.

Variables (side : PieceColor) (g1 g2 : GameState).
Hypothesis boards : similarBoards side (board g1) (board g2).

Lemma similar_isSome (r c : Z) :
  isSome (cell (board g1) r c) = isSome (cell (board g2) r c).
Proof.
  destruct (proj2 boards r c) as [E|[y [_ [E2 E1]]]]; [now rewrite E|].
  now rewrite E1, E2.
Qed.

Lemma similar_other_12 (r c : Z) (x : ChessPiece) :
  cell (board g1) r c = Some x -> color x <> side ->
  cell (board g2) r c = Some x.
Proof.
  intros Hx Hc.
  destruct (proj2 boards r c) as [E|[y [Hy [E2 E1]]]]; [congruence|].
  rewrite Hx in E1. injection E1 as ->. cbn in Hc. contradiction.
Qed.

Lemma similar_other_21 (r c : Z) (x : ChessPiece) :
  cell (board g2) r c = Some x -> color x <> side ->
  cell (board g1) r c = Some x.
Proof.
  intros Hx Hc.
  destruct (proj2 boards r c) as [E|[y [Hy [E2 E1]]]]; [congruence|].
  rewrite Hx in E2. injection E2 as ->. contradiction.
Qed.

Lemma similar_getPieceAt_isSome (pos : Position) :
  isSome (getPieceAt (board g1) pos) = isSome (getPieceAt (board g2) pos).
Proof.
  unfold getPieceAt. destruct (negb (isValidPosition pos)); [reflexivity|].
  apply similar_isSome.
Qed.

Lemma similar_pathLoop (n : nat) :
  forall r c sr sc to,
    pathLoop n r c sr sc to (board g1) = pathLoop n r c sr sc to (board g2).
Proof.
  induction n as [|n IH]; intros r c sr sc to; cbn [pathLoop];
    [reflexivity|].
  destruct (negb (r =? row to) || negb (c =? col to)); [|reflexivity].
  pose proof (similar_isSome r c) as H.
  destruct (cell (board g1) r c), (cell (board g2) r c);
    try discriminate H; auto.
Qed.

(** Pieces that are neither kings nor pawns move by kind and occupancy. *)
Lemma similar_movement_other (att1 att2 : attackFn) (a1 a2 : ChessPiece)
    (from to : Position) :
  type a1 = type a2 ->
  hasType a1 king = false -> hasType a1 pawn = false ->
  isPieceMovementValid_with att1 a1 from to g1
  = isPieceMovementValid_with att2 a2 from to g2.
Proof.
  intros Ht Hk Hp. unfold hasType in Hk, Hp.
  unfold isPieceMovementValid_with, isPathClear. rewrite <- Ht.
  destruct (type a1) as [[]|]; try discriminate; try reflexivity;
    now rewrite similar_pathLoop.
Qed.

Lemma similar_isKingOf (c : PieceColor) (sq : Z * Z) :
  isKingOf c (board g1) sq = isKingOf c (board g2) sq.
Proof.
  unfold isKingOf.
  destruct (proj2 boards (fst sq) (snd sq)) as [E|[y [_ [E2 E1]]]];
    [now rewrite E|].
  now rewrite E1, E2.
Qed.

(** The castling guard of a king of the other side survives from [g1] to
    [g2] when [g2] has the castling rights of [g1]. *)
Lemma similar_castlingGuard (a : ChessPiece) (from to : Position) :
  rightsWithin (castlingRights g1) (castlingRights g2) ->
  color a <> side ->
  castlingGuard a from to g1 = true ->
  castlingGuard a from to g2 = true.
Proof.
  intros Hrights Hc. unfold castlingGuard. intros H.
  destruct (getPieceAt (board g1)
              {| row := row from; col := rookColOf from to |})
    as [rk|] eqn:Erk; [|rewrite andb_false_r in H; discriminate].
  split_andb.
  assert (Hrk2 : getPieceAt (board g2)
                   {| row := row from; col := rookColOf from to |} = Some rk).
  { unfold getPieceAt in *.
    destruct (negb (isValidPosition
                      {| row := row from; col := rookColOf from to |}));
      [discriminate|].
    apply similar_other_12; [exact Erk|].
    apply PieceColor_eqb_eq in H4. congruence. }
  rewrite Hrk2, H, H5, H0, H4, H3. cbn [andb].
  rewrite rightsAllow_rightFor in H2 |- *.
  rewrite (Hrights _ _ H2). cbn [andb].
  rewrite <- H1. f_equal. apply existsb_same. intros c.
  symmetry. apply similar_isSome.
Qed.

(** Inside the king-path loop of a king of the other side whose guard
    passes in both states, the scan for attackers of [side] gives the same
    answer in both. *)
Lemma similar_nested (kingQ : ChessPiece) (fromQ toQ : Position) (c : Z) :
  color kingQ = opponentOf side ->
  castlingGuard kingQ fromQ toQ g1 = true ->
  castlingGuard kingQ fromQ toQ g2 = true ->
  cell (board g1) (row fromQ) (col fromQ) = Some kingQ ->
  cell (board g2) (row fromQ) (col fromQ) = Some kingQ ->
  0 <= col fromQ < 8 ->
  In c (kingPathOf fromQ toQ) ->
  isSquareUnderAttack_fuel 1 {| row := row fromQ; col := c |} side g1
  = isSquareUnderAttack_fuel 1 {| row := row fromQ; col := c |} side g2.
Proof.
  intros Hq G1 G2 C1 C2 Hcol Hc.
  assert (Hside : side = opponentOf (color kingQ))
    by (rewrite Hq; destruct side; reflexivity).
  change (isSquareUnderAttack_fuel 1) with (isSquareUnderAttack_with noAttack).
  unfold isSquareUnderAttack_with.
  apply scanAny_ext. intros [r b] Hin.
  apply squares_bounds in Hin. destruct Hin as [Hr Hb].
  assert (Hking : forall (g : GameState) (a : ChessPiece),
            castlingGuard kingQ fromQ toQ g = true ->
            cell (board g) (row fromQ) (col fromQ) = Some kingQ ->
            cell (board g) r b = Some a -> color a = side ->
            type a = Some king ->
            isPieceMovementValid_with noAttack a
              {| row := r; col := b |} {| row := row fromQ; col := c |} g
            = Some ((Z.abs (row fromQ - r) <=? 1) && (Z.abs (c - b) <=? 1))).
  { intros g a G C Ha Hca Hta. unfold isPieceMovementValid_with.
    rewrite Hta. cbn [row col].
    destruct ((Z.abs (row fromQ - r) <=? 1) && (Z.abs (c - b) <=? 1));
      [reflexivity|].
    rewrite isCastlingValid_with_guard.
    rewrite (castlingGuard_excludes kingQ a fromQ toQ {| row := r; col := b |}
               g c); auto.
    congruence. }
  unfold attackedFrom.
  destruct (proj2 boards r b) as [E|[y [Hy [E2 E1]]]].
  - rewrite E. destruct (cell (board g2) r b) as [a|] eqn:Ea; [|reflexivity].
    destruct (PieceColor_eqb (color a) side) eqn:Eca; [|reflexivity].
    apply PieceColor_eqb_eq in Eca.
    destruct (hasType a pawn) eqn:Epawn; [reflexivity|].
    destruct (hasType a king) eqn:Eking.
    + apply hasType_eq in Eking.
      rewrite (Hking g1 a G1 C1), (Hking g2 a G2 C2); auto.
    + now apply similar_movement_other.
  - rewrite E1, E2. cbn [color withMoved].
    destruct (PieceColor_eqb (color y) side) eqn:Eca; [|reflexivity].
    change (hasType (withMoved y) pawn) with (hasType y pawn).
    destruct (hasType y pawn) eqn:Epawn; [reflexivity|].
    destruct (hasType y king) eqn:Eking.
    + apply hasType_eq in Eking.
      rewrite (Hking g1 (withMoved y) G1 C1), (Hking g2 y G2 C2); auto.
    + now apply similar_movement_other.
Qed.

(** An attack by the other side in [g1] is an attack in [g2]. *)
Lemma similar_attack (position : Position) :
  rightsWithin (castlingRights g1) (castlingRights g2) ->
  isSquareUnderAttack position (opponentOf side) g1 = true ->
  isSquareUnderAttack position (opponentOf side) g2 = true.
Proof.
  intros Hrights. unfold isSquareUnderAttack, callDepth.
  assert (Hne : opponentOf side <> side) by (destruct side; discriminate).
  intros H.
  destruct (isSquareUnderAttack_fuel 2 position (opponentOf side) g1)
    as [[|]|] eqn:E1; try discriminate H.
  enough (E2 : isSquareUnderAttack_fuel 2 position (opponentOf side) g2
               = Some true) by now rewrite E2.
  revert E1.
  change (isSquareUnderAttack_fuel 2 position (opponentOf side) g1)
    with (scanAny (attackedFrom (isSquareUnderAttack_fuel 1) position
                     (opponentOf side) g1) squares).
  change (isSquareUnderAttack_fuel 2 position (opponentOf side) g2)
    with (scanAny (attackedFrom (isSquareUnderAttack_fuel 1) position
                     (opponentOf side) g2) squares).
  apply scanAny_mono.
  - intros [r b] Hin. apply squares_bounds in Hin. destruct Hin as [Hr Hb].
    unfold attackedFrom.
    destruct (cell (board g1) r b) as [a|] eqn:Ea; [|discriminate].
    destruct (PieceColor_eqb (color a) (opponentOf side)) eqn:Eca;
      [|discriminate].
    apply PieceColor_eqb_eq in Eca.
    assert (Ea2 : cell (board g2) r b = Some a)
      by (apply similar_other_12; [exact Ea | congruence]).
    rewrite Ea2. replace (PieceColor_eqb (color a) (opponentOf side))
      with true by (symmetry; now apply PieceColor_eqb_eq).
    destruct (hasType a pawn) eqn:Epawn; [auto|].
    destruct (hasType a king) eqn:Eking.
    2:{ now rewrite (similar_movement_other (isSquareUnderAttack_fuel 1)
                       (isSquareUnderAttack_fuel 1) a a
                       {| row := r; col := b |} position eq_refl Eking Epawn). }
    apply hasType_eq in Eking. unfold isPieceMovementValid_with.
    rewrite Eking.
    destruct ((Z.abs (row position - row {| row := r; col := b |}) <=? 1)
              && (Z.abs (col position - col {| row := r; col := b |}) <=? 1));
      [auto|].
    rewrite !isCastlingValid_with_guard.
    destruct (castlingGuard a {| row := r; col := b |} position g1) eqn:G1;
      [|discriminate].
    assert (G2 : castlingGuard a {| row := r; col := b |} position g2 = true)
      by (apply similar_castlingGuard; auto; congruence).
    rewrite G2. intros Hloop. rewrite <- Hloop. symmetry.
    rewrite Eca. replace (opponentOf (opponentOf side)) with side
      by (destruct side; reflexivity).
    apply kingPathLoop_ext. intros c Hc.
    exact (similar_nested a {| row := r; col := b |} position c
             Eca G1 G2 Ea Ea2 Hb Hc).
  - intros [r b] Hin. apply squares_bounds in Hin. destruct Hin as [Hr Hb].
    unfold attackedFrom.
    destruct (cell (board g2) r b) as [a|] eqn:Ea; [|discriminate].
    destruct (PieceColor_eqb (color a) (opponentOf side)); [|discriminate].
    destruct (hasType a pawn); [discriminate|].
    apply (isPieceMovementValid_with_depth 0 a {| row := r; col := b |}
             position g2 Ea Hb).
Qed.

End Similar.

Lemma similarBoards_refl (side : PieceColor) (b : Board) :
  similarBoards side b b.
Proof. split; [reflexivity | intros r c; now left]. Qed.

Lemma cell_outside (b : Board) (r c : Z) :
  ~ (0 <= r /\ (Z.to_nat r < List.length b)%nat /\ 0 <= c) ->
  cell b r c = None.
Proof.
  intros H. unfold cell.
  destruct ((r <? 0) || (c <? 0)) eqn:E; [reflexivity|].
  destruct (nth_error b (Z.to_nat r)) eqn:En; [|reflexivity].
  exfalso. apply H. assert (nth_error b (Z.to_nat r) <> None) by congruence.
  apply nth_error_Some in H0. lia.
Qed.

Lemma similarBoards_setCell (side : PieceColor) (b1 b2 : Board) (r c : Z)
    (v1 v2 : option ChessPiece) :
  similarBoards side b1 b2 ->
  (v1 = v2
   \/ exists y, color y = side /\ v2 = Some y /\ v1 = Some (withMoved y)) ->
  similarBoards side (setCell b1 r c v1) (setCell b2 r c v2).
Proof.
  intros [Hlen Hcells] Hv. split; [now rewrite !length_setCell|].
  intros r' c'.
  destruct (Z.eq_dec r' r) as [->|Hr];
    [|rewrite !cell_setCell_other by (now left); apply Hcells].
  destruct (Z.eq_dec c' c) as [->|Hc];
    [|rewrite !cell_setCell_other by (now right); apply Hcells].
  destruct (Z_le_gt_dec 0 r) as [H0r|H0r];
    [|left; rewrite !cell_outside by (rewrite ?length_setCell; lia);
      reflexivity].
  destruct (Z_le_gt_dec 0 c) as [H0c|H0c];
    [|left; rewrite !cell_outside by (rewrite ?length_setCell; lia);
      reflexivity].
  destruct (Nat.lt_ge_cases (Z.to_nat r) (List.length b1)) as [Hl|Hl];
    [|left; rewrite !cell_outside by (rewrite ?length_setCell; lia);
      reflexivity].
  rewrite !cell_setCell_same by lia.
  destruct Hv as [->|[y [Hy [-> ->]]]]; [now left|].
  right. exists y. auto.
Qed.

(** X12.  After an accepted move that is neither a king's move of two
    columns nor an en-passant capture, the first king of the side that has
    moved, in the order of the scan, is not attacked by the other side. *)
Theorem makeMove_ordinary_keeps_king_safe (from to : Position)
    (gs gs' : GameState) (p : ChessPiece) :
  makeMove from to gs = Normal (Some gs') ->
  cell (board gs) (row from) (col from) = Some p ->
  isCastlingMove p from to = false ->
  isEnPassantMove p from to gs = false ->
  forall r c,
    find (isKingOf (currentPlayer gs) (board gs')) squares = Some (r, c) ->
    isSquareUnderAttack {| row := r; col := c |}
      (opponentOf (currentPlayer gs)) gs' = false.
Proof.
  intros H Hp Hcastle Hep r c Hfind.
  destruct (makeMove_inv _ _ _ _ H) as [q [text [Hvalid [Hq Hgs]]]].
  cbv zeta in Hgs. destruct Hgs as [Hboard _].
  rewrite Hp in Hq. injection Hq as <-.
  destruct (isValidMove_inv _ _ _ Hvalid)
    as [q [Hq [Hcolor [_ [_ [_ Hsafe]]]]]].
  apply getPieceAt_cell in Hq. destruct Hq as [Hq _].
  rewrite Hp in Hq. injection Hq as <-.
  set (temp := makeTemporaryMove from to gs) in *.
  assert (Hsim : similarBoards (currentPlayer gs) (board gs') (board temp)).
  { rewrite Hboard. unfold boardAfter. rewrite Hcastle, Hep. cbv zeta.
    unfold temp, makeTemporaryMove, withBoard. cbn [board]. rewrite Hp.
    apply similarBoards_setCell; [|now left].
    apply similarBoards_setCell; [apply similarBoards_refl|].
    right. exists p. auto. }
  assert (Hrights : rightsWithin (castlingRights gs') (castlingRights temp))
    by exact (rights_after_within _ _ _ _ H).
  destruct (isSquareUnderAttack {| row := r; col := c |}
              (opponentOf (currentPlayer gs)) gs') eqn:E; [|reflexivity].
  apply (similar_attack (currentPlayer gs) gs' temp Hsim _ Hrights) in E.
  unfold wouldLeaveKingInCheck in Hsafe. fold temp in Hsafe.
  unfold isInCheck in Hsafe.
  change (currentPlayer temp) with (currentPlayer gs) in Hsafe.
  rewrite <- (find_ext _ _ squares
                (similar_isKingOf (currentPlayer gs) gs' temp Hsim
                   (currentPlayer gs))) in Hsafe.
  rewrite Hfind in Hsafe. congruence.
Qed.

Lemma makeMove_ordinary_keeps_king_safe_witness :
  isSquareUnderAttack (square 7 4) black
    (playMove (square 4 4) (square 3 3) beforeCapture) = false.
Proof.
  apply (makeMove_ordinary_keeps_king_safe (square 4 4) (square 3 3)
           beforeCapture (playMove (square 4 4) (square 3 3) beforeCapture)
           (withMoved (parsedPiece "P" 6 4))).
  - vm_compute. reflexivity.
  - vm_compute. reflexivity.
  - reflexivity.
  - vm_compute. reflexivity.
  - vm_compute. reflexivity.
Defined.

(** ** What counts as an attack *)




(** ** Material *)

Lemma worth_withMoved (side : PieceColor) (p : ChessPiece) :
  worth side (Some (withMoved p)) = worth side (Some p).
Proof. reflexivity. Qed.

Lemma worth_king (side : PieceColor) (p : ChessPiece) :
  type p = Some king -> worth side (Some p) = 0.
Proof.
  intros H. unfold worth. rewrite H.
  now destruct (PieceColor_eqb (color p) side).
Qed.

Lemma worthOver_other (side : PieceColor) (b : Board) (r c : Z)
    (v : option ChessPiece) (sqs : list (Z * Z)) :
  ~ In (r, c) sqs ->
  worthOver side (setCell b r c v) sqs = worthOver side b sqs.
Proof.
  induction sqs as [|[r' c'] rest IH]; intros Hn; [reflexivity|].
  cbn [worthOver fst snd]. rewrite IH by (intros H; apply Hn; now right).
  rewrite cell_setCell_other; [reflexivity|].
  destruct (Z.eq_dec r' r) as [->|]; [|now left].
  destruct (Z.eq_dec c' c) as [->|]; [|now right].
  exfalso. apply Hn. now left.
Qed.

Lemma worthOver_same (side : PieceColor) (b : Board) (r c : Z)
    (v : option ChessPiece) (sqs : list (Z * Z)) :
  0 <= r -> (Z.to_nat r < List.length b)%nat -> 0 <= c ->
  NoDup sqs -> In (r, c) sqs ->
  worthOver side (setCell b r c v) sqs
  = worthOver side b sqs - worth side (cell b r c) + worth side v.
Proof.
  intros Hr Hlen Hc. induction sqs as [|[r' c'] rest IH]; intros Hnd Hin;
    [destruct Hin|].
  inversion Hnd as [|x l Hx Hrest E]; subst. cbn [worthOver fst snd].
  destruct Hin as [Heq | Hin].
  - injection Heq as -> ->.
    rewrite cell_setCell_same by assumption.
    rewrite worthOver_other by exact Hx. lia.
  - rewrite (IH Hrest Hin). rewrite cell_setCell_other; [lia|].
    destruct (Z.eq_dec r' r) as [->|]; [|now left].
    destruct (Z.eq_dec c' c) as [->|]; [|now right].
    contradiction.
Qed.

Lemma material_setCell (side : PieceColor) (b : Board) (r c : Z)
    (v : option ChessPiece) :
  List.length b = 8%nat -> 0 <= r < 8 -> 0 <= c < 8 ->
  material side (setCell b r c v)
  = material side b - worth side (cell b r c) + worth side v.
Proof.
  intros Hlen Hr Hc. unfold material.
  apply worthOver_same; try lia.
  - apply squares_NoDup.
  - now apply squares_bounds.
Qed.

(** The loop of [calculateMaterialBalance] from totals that are numbers. *)
Lemma balance_worthOver (b : Board) (sqs : list (Z * Z)) :
  (forall sq x, In sq sqs -> cell b (fst sq) (snd sq) = Some x ->
                type x <> None) ->
  forall w k,
    fold_left
      (fun (totals : number * number) (sq : Z * Z) =>
         match cell b (fst sq) (snd sq) with
         | Some piece =>
             let value := valueOf piece in
             match color piece with
             | white => (plus (fst totals) value, snd totals)
             | black => (fst totals, plus (snd totals) value)
             end
         | None => totals
         end)
      sqs (Num w, Num k)
    = (Num (w + worthOver white b sqs), Num (k + worthOver black b sqs)).
Proof.
  induction sqs as [|sq rest IH]; intros Hk w k; cbn [fold_left worthOver].
  - now rewrite !Z.add_0_r.
  - assert (Hrest : forall sq' x, In sq' rest ->
                      cell b (fst sq') (snd sq') = Some x -> type x <> None)
      by (intros sq' x Hin; apply Hk; now right).
    pose proof (Hk sq) as Hsq.
    destruct (cell b (fst sq) (snd sq)) as [x|].
    + specialize (Hsq x (or_introl eq_refl) eq_refl).
      unfold valueOf, worth. cbv zeta.
      destruct (type x) as [t|]; [|congruence].
      destruct (color x); cbn [fst snd plus PieceColor_eqb];
        rewrite (IH Hrest); f_equal; f_equal; lia.
    + cbn [worth]. rewrite (IH Hrest). f_equal; f_equal; lia.
Qed.

Lemma balance_material (gs : GameState) :
  kindsDefined (board gs) ->
  calculateMaterialBalance gs
  = (Num (material white (board gs)), Num (material black (board gs))).
Proof.
  intros Hk. unfold calculateMaterialBalance.
  rewrite balance_worthOver; [reflexivity|].
  intros sq x _ H. exact (Hk _ _ _ H).
Qed.

Lemma kindsDefined_boardAfter (p : ChessPiece) (from to : Position)
    (gs : GameState) :
  kindsDefined (board gs) ->
  cell (board gs) (row from) (col from) = Some p ->
  kindsDefined (boardAfter p from to gs).
Proof.
  intros Hk Hp r c q Hq.
  destruct (piecesOf_boardAfter p from to gs Hp r c q Hq)
    as [r' [c' [x [Hx [Ht _]]]]].
  rewrite Ht. exact (Hk _ _ _ Hx).
Qed.

(** The squares between a castling king and its corner are empty. *)
Lemma castlingGuard_path (p : ChessPiece) (from to : Position)
    (gs : GameState) :
  castlingGuard p from to gs = true ->
  row from = row to
  /\ (exists cornerRook,
        cell (board gs) (row from) (rookColOf from to) = Some cornerRook
        /\ color cornerRook = color p)
  /\ forall c,
       Z.min (col from) (rookColOf from to) + 1 <= c
       < Z.max (col from) (rookColOf from to) ->
       cell (board gs) (row from) c = None.
Proof.
  unfold castlingGuard. intros Hguard.
  destruct (getPieceAt (board gs)
              {| row := row from; col := rookColOf from to |})
    as [rk|] eqn:Erk; [|rewrite andb_false_r in Hguard; discriminate].
  split_andb. apply Z.eqb_eq in Hguard5.
  apply getPieceAt_cell in Erk. cbn [row col] in Erk. destruct Erk as [Erk _].
  split; [exact Hguard5|]. split.
  - exists rk. split; [exact Erk | now apply PieceColor_eqb_eq].
  - intros c Hc.
    match goal with
    | Hclear : negb (existsb _ _) = true |- _ =>
        apply negb_true_iff in Hclear
    end.
    destruct (cell (board gs) (row from) c) as [x|] eqn:Ex; [|reflexivity].
    assert (F : existsb (fun c => isSome (cell (board gs) (row from) c))
                  (between (Z.min (col from) (rookColOf from to) + 1)
                           (Z.max (col from) (rookColOf from to))) = true).
    { apply existsb_exists. exists c. split; [now apply between_In|].
      now rewrite Ex. }
    congruence.
Qed.

Lemma material_boardAfter (side : PieceColor) (from to : Position)
    (gs gs' : GameState) (p : ChessPiece) :
  wellFormedBoard (board gs) ->
  makeMove from to gs = Normal (Some gs') ->
  cell (board gs) (row from) (col from) = Some p ->
  material side (board gs')
  = material side (board gs)
    - worth side (cell (board gs) (row to) (col to))
    - worth side (passantCell p from to gs).
Proof.
  intros Hwf H Hp.
  destruct (accepted_move _ _ _ _ Hwf H)
    as [q [Hq [Hboard [Hvalid [Hmove [Hf [Ht [Hne Hlen]]]]]]]].
  rewrite Hp in Hq. injection Hq as <-.
  rewrite Hboard. unfold boardAfter, passantCell. cbv zeta.
  destruct (isCastlingMove p from to) eqn:Ecm.
  - unfold isCastlingMove in Ecm. apply andb_prop in Ecm.
    destruct Ecm as [Hking Habs]. apply hasType_eq in Hking.
    apply Z.eqb_eq in Habs.
    assert (Hep : isEnPassantMove p from to gs = false).
    { unfold isEnPassantMove, hasType. now rewrite Hking. }
    rewrite Hep. cbn [worth].
    rewrite (isPieceMovementValid_king _ _ _ _ Hking) in Hmove.
    replace (Z.abs (col to - col from) <=? 1) with false in Hmove
      by (symmetry; lia).
    rewrite andb_false_r, orb_false_l, isCastlingValid_unfold in Hmove.
    apply andb_prop in Hmove. destruct Hmove as [Hguard _].
    destruct (castlingGuard_path _ _ _ _ Hguard)
      as [Hrow [[rk [Erk Hcolor]] Hpath]].
    destruct (isValidMove_inv _ _ _ Hvalid) as [q [Hq [_ [_ [Hother _]]]]].
    apply getPieceAt_cell in Hq. destruct Hq as [Hq _].
    rewrite Hp in Hq. injection Hq as <-.
    assert (Hnc : col to <> rookColOf from to).
    { intros E. apply (Hother rk); [|exact Hcolor].
      rewrite <- (getPieceAt_valid (board gs)) in Erk by
        (unfold rookColOf; destruct (col to >? col from); lia).
      rewrite <- Erk. f_equal. destruct to as [tr tc]. cbn in *. congruence. }
    rewrite <- Hrow in *.
    unfold handleCastling. cbv zeta. unfold rookColOf in *.
    pose proof (worth_king side p Hking) as Wk.
    destruct (col to >? col from) eqn:Eside.
    + assert (Hto : cell (board gs) (row from) (col to) = None)
        by (apply Hpath; lia).
      rewrite !material_setCell by (rewrite ?length_setCell; lia).
      rewrite (cell_setCell_other _ _ _ (row from) (col from)) by lia.
      rewrite Hto, Hp, worth_withMoved, Wk.
      assert (Hrk : cell (setCell
                            (setCell (board gs) (row from) (col to)
                               (Some (withMoved p)))
                            (row from) (col from) None) (row from) 7
                    = Some rk)
        by (rewrite !cell_setCell_other by lia; exact Erk).
      rewrite Hrk. cbn [option_map].
      rewrite (cell_setCell_other _ _ _ (row from) 7) by lia.
      rewrite Hrk, worth_withMoved.
      assert (W5 : worth side
                     (cell (setCell
                              (setCell (board gs) (row from) (col to)
                                 (Some (withMoved p)))
                              (row from) (col from) None) (row from) 5) = 0).
      { destruct (Z.eq_dec 5 (col from)) as [E5|N5].
        - rewrite E5, cell_setCell_same by (rewrite ?length_setCell; lia).
          reflexivity.
        - rewrite cell_setCell_other by lia.
          destruct (Z.eq_dec 5 (col to)) as [E5'|N5'].
          + rewrite E5', cell_setCell_same by lia.
            now rewrite worth_withMoved.
          + rewrite cell_setCell_other by lia.
            rewrite Hpath by lia. reflexivity. }
      rewrite W5. cbn [worth]. lia.
    + assert (Hto : cell (board gs) (row from) (col to) = None)
        by (apply Hpath; lia).
      rewrite !material_setCell by (rewrite ?length_setCell; lia).
      rewrite (cell_setCell_other _ _ _ (row from) (col from)) by lia.
      rewrite Hto, Hp, worth_withMoved, Wk.
      assert (Hrk : cell (setCell
                            (setCell (board gs) (row from) (col to)
                               (Some (withMoved p)))
                            (row from) (col from) None) (row from) 0
                    = Some rk)
        by (rewrite !cell_setCell_other by lia; exact Erk).
      rewrite Hrk. cbn [option_map].
      rewrite (cell_setCell_other _ _ _ (row from) 0) by lia.
      rewrite Hrk, worth_withMoved.
      assert (W3 : worth side
                     (cell (setCell
                              (setCell (board gs) (row from) (col to)
                                 (Some (withMoved p)))
                              (row from) (col from) None) (row from) 3) = 0).
      { destruct (Z.eq_dec 3 (col from)) as [E3|N3].
        - rewrite E3, cell_setCell_same by (rewrite ?length_setCell; lia).
          reflexivity.
        - rewrite cell_setCell_other by lia.
          destruct (Z.eq_dec 3 (col to)) as [E3'|N3'].
          + rewrite E3', cell_setCell_same by lia.
            now rewrite worth_withMoved.
          + rewrite cell_setCell_other by lia.
            rewrite Hpath by lia. reflexivity. }
      rewrite W3. cbn [worth]. lia.
  - destruct (isEnPassantMove p from to gs) eqn:Eep.
    + destruct (enPassant_square p from to gs Hmove Eep) as [-> [Hcol Hrw]].
      rewrite !material_setCell by (rewrite ?length_setCell; lia).
      rewrite !(cell_setCell_other _ _ _ (row from) (col to)) by lia.
      rewrite (cell_setCell_other _ _ _ (row from) (col from)) by lia.
      rewrite Hp, worth_withMoved. cbn [worth]. lia.
    + rewrite !material_setCell by (rewrite ?length_setCell; lia).
      rewrite (cell_setCell_other _ _ _ (row from) (col from)) by lia.
      rewrite Hp, worth_withMoved. cbn [worth]. lia.
Qed.

(** X14.  An accepted move changes the material balance by what it removes
    from the board only: each side's total decreases by the value of its
    piece on the destination, if any, and, for an en-passant capture, by the
    value of its piece on the square beside the origin; castling changes
    neither total. *)
Theorem makeMove_material (src dst : Position) (gs gs' : GameState)
    (p : ChessPiece) :
  wellFormedBoard (board gs) ->
  kindsDefined (board gs) ->
  makeMove src dst gs = Normal (Some gs') ->
  cell (board gs) (row src) (col src) = Some p ->
  exists w k,
    calculateMaterialBalance gs = (Num w, Num k)
    /\ calculateMaterialBalance gs'
       = (Num (w - worth white (cell (board gs) (row dst) (col dst))
                 - worth white (passantCell p src dst gs)),
          Num (k - worth black (cell (board gs) (row dst) (col dst))
                 - worth black (passantCell p src dst gs))).
Proof.
  intros Hwf Hk H Hp.
  exists (material white (board gs)), (material black (board gs)).
  split; [now apply balance_material|].
  assert (Hk' : kindsDefined (board gs')).
  { destruct (makeMove_inv _ _ _ _ H) as [q [text [_ [Hq Hgs]]]].
    cbv zeta in Hgs. destruct Hgs as [Hboard _]. rewrite Hboard.
    now apply kindsDefined_boardAfter. }
  rewrite (balance_material gs' Hk').
  now rewrite !(material_boardAfter _ _ _ _ _ _ Hwf H Hp).
Qed.

Lemma makeMove_material_witness :
  exists w k,
    calculateMaterialBalance beforeCapture = (Num w, Num k)
    /\ calculateMaterialBalance
         (playMove (square 4 4) (square 3 3) beforeCapture)
       = (Num (w - worth white (cell (board beforeCapture) 3 3)
                 - worth white
                     (passantCell (withMoved (parsedPiece "P" 6 4))
                        (square 4 4) (square 3 3) beforeCapture)),
          Num (k - worth black (cell (board beforeCapture) 3 3)
                 - worth black
                     (passantCell (withMoved (parsedPiece "P" 6 4))
                        (square 4 4) (square 3 3) beforeCapture))).
Proof.
  apply (makeMove_material (square 4 4) (square 3 3) beforeCapture
           (playMove (square 4 4) (square 3 3) beforeCapture)
           (withMoved (parsedPiece "P" 6 4))).
  - split; [reflexivity|]. vm_compute. repeat constructor.
  - apply CodecFacts.kindsDefined_check. vm_compute. reflexivity.
  - vm_compute. reflexivity.
  - vm_compute. reflexivity.
Defined.

(** A king's move of two columns is accepted on one row only. *)
Lemma accepted_castling (from to : Position) (gs gs' : GameState)
    (p : ChessPiece) :
  makeMove from to gs = Normal (Some gs') ->
  cell (board gs) (row from) (col from) = Some p ->
  isCastlingMove p from to = true ->
  row from = row to /\ Z.abs (col to - col from) = 2.
Proof.
  intros H Hp Ecm.
  destruct (makeMove_inv _ _ _ _ H) as [q [text [Hvalid [Hq _]]]].
  rewrite Hp in Hq. injection Hq as <-.
  destruct (isValidMove_inv _ _ _ Hvalid) as [q [Hq [_ [_ [_ [Hmove _]]]]]].
  apply getPieceAt_cell in Hq. destruct Hq as [Hq _].
  rewrite Hp in Hq. injection Hq as <-.
  unfold isCastlingMove in Ecm. apply andb_prop in Ecm.
  destruct Ecm as [Hking Habs]. apply hasType_eq in Hking.
  apply Z.eqb_eq in Habs. split; [|exact Habs].
  rewrite (isPieceMovementValid_king _ _ _ _ Hking) in Hmove.
  replace (Z.abs (col to - col from) <=? 1) with false in Hmove
    by (symmetry; lia).
  rewrite andb_false_r, orb_false_l, isCastlingValid_unfold in Hmove.
  apply andb_prop in Hmove. destruct Hmove as [Hguard _].
  now destruct (castlingGuard_path _ _ _ _ Hguard) as [Hrow _].
Qed.

End EngineExtras.

(** * Further properties of the FEN codec and of the square labels *)

Module CodecExtras.

Import ChessUtils ChessEngine ChessAI Reading Positions EngineFacts CodecFacts.
Local Open Scope string_scope.
Local Open Scope Z_scope.

(** ** Square labels *)

Lemma letter_cases (x : ascii) (lo : Z) :
  lo <= Z.of_nat (nat_of_ascii x) <= lo + 7 ->
  exists k, 0 <= k <= 7 /\ x = ascii_of_nat (Z.to_nat (lo + k)).
Proof.
  intros H. exists (Z.of_nat (nat_of_ascii x) - lo). split; [lia|].
  replace (lo + (Z.of_nat (nat_of_ascii x) - lo))
    with (Z.of_nat (nat_of_ascii x)) by lia.
  now rewrite Nat2Z.id, ascii_nat_embedding.
Qed.

Lemma isSquareLabel_inv (s : string) :
  isSquareLabel s = true ->
  exists i j, 0 <= i <= 7 /\ 0 <= j <= 7
    /\ s = String (ascii_of_nat (Z.to_nat (97 + i)))
             (String (ascii_of_nat (Z.to_nat (49 + j))) "").
Proof.
  destruct s as [|f [|d [|x rest]]]; cbn [isSquareLabel]; try discriminate.
  intros H. apply andb_prop in H. destruct H as [H Hd].
  apply andb_prop in H. destruct H as [H1 H2].
  unfold isDigit1to8 in Hd. apply andb_prop in Hd. destruct Hd as [H3 H4].
  apply Z.leb_le in H1, H2, H3, H4.
  destruct (letter_cases f 97) as [i [Hi ->]]; [lia|].
  destruct (letter_cases d 49) as [j [Hj ->]]; [lia|].
  exists i, j. auto.
Qed.

Lemma label_of_position (r c : Z) :
  isValidPosition {| row := r; col := c |} = true ->
  isSquareLabel (positionToChessNotation {| row := r; col := c |}) = true
  /\ chessNotationToPosition (positionToChessNotation {| row := r; col := c |})
     = (Num r, c).
Proof.
  intros Hv. unfold isValidPosition in Hv. cbn [row col] in Hv.
  apply andb_prop in Hv. destruct Hv as [Hv H4].
  apply andb_prop in Hv. destruct Hv as [Hv H3].
  apply andb_prop in Hv. destruct Hv as [H1 H2].
  assert (Hr : 0 <= r <= 8) by lia. assert (Hc : 0 <= c <= 8) by lia.
  by_small_cases r Hr; try lia;
    by_small_cases c Hc; try lia; split; reflexivity.
Qed.

Lemma position_of_label (s : string) :
  isSquareLabel s = true ->
  exists r c,
    chessNotationToPosition s = (Num r, c)
    /\ isValidPosition {| row := r; col := c |} = true
    /\ positionToChessNotation {| row := r; col := c |} = s.
Proof.
  intros Hs. destruct (isSquareLabel_inv s Hs) as [i [j [Hi [Hj ->]]]].
  exists (7 - j), i.
  assert (Hi' : 0 <= i <= 8) by lia. assert (Hj' : 0 <= j <= 8) by lia.
  by_small_cases i Hi'; try lia;
    by_small_cases j Hj'; try lia; repeat split; reflexivity.
Qed.

(** X15.  A text is the label of a square of the board, read by
    [chessNotationToPosition] as row [r] and column [c], exactly when [(r,
    c)] is a square of the board and the text is what
    [positionToChessNotation] writes for it. *)
Theorem square_label_iff (s : string) (r c : Z) :
  isSquareLabel s = true /\ chessNotationToPosition s = (Num r, c)
  <-> isValidPosition {| row := r; col := c |} = true
      /\ positionToChessNotation {| row := r; col := c |} = s.
Proof.
  split.
  - intros [Hs Hpos].
    destruct (position_of_label s Hs) as [r' [c' [E [Hv Hl]]]].
    rewrite E in Hpos. injection Hpos as <- <-. auto.
  - intros [Hv <-]. now apply label_of_position.
Qed.

(** ** The text of a state *)

Lemma digits_without_space (d : Decimal.uint) :
  includes (NilEmpty.string_of_uint d) " " = false.
Proof. induction d; cbn; auto. Qed.

Lemma toString_without_space (z : Z) : includes (toString z) " " = false.
Proof.
  unfold toString, NilZero.string_of_int, NilZero.string_of_uint.
  destruct (Z.to_int z) as [d|d]; destruct d; cbn [includes Ascii.eqb];
    try reflexivity;
    match goal with
    | |- context [NilEmpty.string_of_uint ?u] =>
        apply (digits_without_space u)
    end.
Qed.

Lemma fileAt_without_space (i : Z) : includes (fileAt i) " " = false.
Proof.
  unfold fileAt. destruct ((0 <=? i) && (i <? 8)) eqn:E; [|reflexivity].
  apply andb_prop in E. destruct E as [E1 E2].
  assert (Hi : 0 <= i <= 8) by lia.
  by_small_cases i Hi; try lia; reflexivity.
Qed.

Lemma targetText_without_space (ep : option Position) :
  includes (targetText ep) " " = false.
Proof.
  destruct ep as [pos|]; [|reflexivity].
  unfold targetText, positionToChessNotation.
  now rewrite includes_append, fileAt_without_space, toString_without_space.
Qed.

Lemma colorText_without_space (c : PieceColor) :
  includes (colorText c) " " = false.
Proof. now destruct c. Qed.

(** X16.  For a board of eight rows of eight cells whose pieces all have a
    kind, the text has exactly six fields separated by single spaces: the
    board, the side to move, the castling rights, the en-passant square, a
    zero, and the number of the move; the board field has eight rows. *)
Theorem gameStateToFEN_fields (p : GameState) :
  wellFormedBoard (board p) ->
  kindsDefined (board p) ->
  exists fen,
    gameStateToFEN p = Normal fen
    /\ split " " fen
       = [boardText (board p) indices8;
          colorText (currentPlayer p);
          castlingText (castlingRights p);
          targetText (enPassantTarget p);
          "0";
          toString (Z.of_nat (List.length (moveHistory p)) / 2 + 1)]
    /\ List.length (split "/" (boardText (board p) indices8)) = 8%nat.
Proof.
  intros _ Hk.
  exists (boardText (board p) indices8
          ++ String " " (colorText (currentPlayer p)
          ++ String " " (castlingText (castlingRights p)
          ++ String " " (targetText (enPassantTarget p)
          ++ String " " ("0"
          ++ String " "
               (toString
                  (Z.of_nat (List.length (moveHistory p)) / 2 + 1))))))).
  split; [|split].
  - unfold gameStateToFEN.
    rewrite (fenRows_boardText _ _ Hk). cbn [append]. f_equal.
    change (match currentPlayer p with white => "w" | black => "b" end)
      with (colorText (currentPlayer p)).
    destruct (enPassantTarget p) as [ep|]; cbn [targetText];
      rewrite !append_assoc; cbn [append]; reflexivity.
  - destruct (boardText_split _ Hk) as [Hb _].
    destruct (castlingText_facts (castlingRights p)) as [Hc _].
    rewrite (split_append _ _ _ Hb).
    rewrite (split_append _ _ _ (colorText_without_space _)).
    rewrite (split_append _ _ _ Hc).
    rewrite (split_append _ _ _ (targetText_without_space _)).
    rewrite split_append by reflexivity.
    rewrite (split_without _ _ (toString_without_space _)).
    reflexivity.
  - destruct (boardText_split _ Hk) as [_ ->]. reflexivity.
Qed.

Lemma gameStateToFEN_fields_witness :
  exists fen,
    gameStateToFEN beforeCapture = Normal fen
    /\ split " " fen
       = [boardText (board beforeCapture) indices8;
          colorText (currentPlayer beforeCapture);
          castlingText (castlingRights beforeCapture);
          targetText (enPassantTarget beforeCapture);
          "0";
          toString
            (Z.of_nat (List.length (moveHistory beforeCapture)) / 2 + 1)]
    /\ List.length (split "/" (boardText (board beforeCapture) indices8))
       = 8%nat.
Proof.
  apply (gameStateToFEN_fields beforeCapture).
  - split; [reflexivity|]. vm_compute. repeat constructor.
  - apply kindsDefined_check. vm_compute. reflexivity.
Defined.

(** ** When the encoder raises *)

Lemma pieceToFENChar_raises (x : ChessPiece) :
  pieceToFENChar x = TypeError <-> type x = None /\ color x = white.
Proof.
  unfold pieceToFENChar. destruct (type x) as [t|], (color x);
    split; try discriminate; try tauto; intros [H1 H2]; discriminate.
Qed.

Lemma fenCells_raises (cells : list (option ChessPiece)) :
  forall fen n,
    fenCells cells fen n = TypeError
    <-> exists x, In (Some x) cells /\ type x = None /\ color x = white.
Proof.
  induction cells as [|[x|] rest IH]; intros fen n; cbn [fenCells].
  - split; [discriminate | intros [x [[] _]]].
  - destruct (pieceToFENChar x) as [ch|] eqn:E.
    + rewrite IH. split.
      * intros [y [Hin Hy]]. exists y. split; [now right | exact Hy].
      * intros [y [[Heq | Hin] Hy]]; [|exists y; auto].
        injection Heq as <-. apply pieceToFENChar_raises in Hy. congruence.
    + split; [|reflexivity]. intros _. exists x.
      split; [now left | now apply pieceToFENChar_raises].
  - rewrite IH. split.
    + intros [y [Hin Hy]]. exists y. split; [now right | exact Hy].
    + intros [y [[Heq | Hin] Hy]]; [discriminate | exists y; auto].
Qed.

Lemma fenRows_raises (b : Board) (rows : list Z) :
  forall fen,
    fenRows b rows fen = TypeError
    <-> exists r x, In r rows /\ In (Some x) (map (cell b r) indices8)
                    /\ type x = None /\ color x = white.
Proof.
  induction rows as [|r rest IH]; intros fen; cbn [fenRows].
  - split; [discriminate | intros [r [x [[] _]]]].
  - destruct (fenCells (map (cell b r) indices8) fen 0) as [[fen1 n]|] eqn:E.
    + rewrite IH. split.
      * intros [r' [x [Hin H]]]. exists r', x. split; [now right | exact H].
      * intros [r' [x [[<- | Hin] [Hx Hy]]]]; [|exists r', x; auto].
        assert (F : fenCells (map (cell b r) indices8) fen 0 = TypeError)
          by (apply fenCells_raises; exists x; auto).
        congruence.
    + split; [|reflexivity]. intros _.
      apply fenCells_raises in E. destruct E as [x [Hin Hx]].
      exists r, x. split; [now left | auto].
Qed.

(** X17.  On a board of eight rows of eight cells the encoder raises exactly
    when a white piece without a kind stands on one of the sixty-four
    squares; it returns a text for every other state. *)
Theorem gameStateToFEN_raises_iff (p : GameState) :
  wellFormedBoard (board p) ->
  gameStateToFEN p = TypeError
  <-> exists r c x,
        0 <= r < 8 /\ 0 <= c < 8
        /\ cell (board p) r c = Some x
        /\ type x = None /\ color x = white.
Proof.
  intros _. unfold gameStateToFEN.
  destruct (fenRows (board p) indices8 "") as [fen|] eqn:E.
  - split; [discriminate|]. intros [r [c [x [Hr [Hc [Hcell Hx]]]]]].
    assert (F : fenRows (board p) indices8 "" = TypeError).
    { apply fenRows_raises. exists r, x. split; [|split; [|exact Hx]].
      - unfold indices8. simpl. lia.
      - apply in_map_iff. exists c. split; [exact Hcell|].
        unfold indices8. simpl. lia. }
    congruence.
  - split; [|reflexivity]. intros _.
    apply fenRows_raises in E. destruct E as [r [x [Hr [Hin Hx]]]].
    apply in_map_iff in Hin. destruct Hin as [c [Hcell Hc]].
    exists r, c, x. split; [|split; [|split; [exact Hcell | exact Hx]]].
    + unfold indices8 in Hr. simpl in Hr. lia.
    + unfold indices8 in Hc. simpl in Hc. lia.
Qed.

(** The letter X of the board field is read as a white piece without a
    kind. *)
Lemma gameStateToFEN_raises_iff_witness :
  gameStateToFEN (stateOfFEN "4k3/8/8/8/8/8/8/X3K3 w - - 0 1") = TypeError
  <-> exists r c x,
        0 <= r < 8 /\ 0 <= c < 8
        /\ cell (board (stateOfFEN "4k3/8/8/8/8/8/8/X3K3 w - - 0 1")) r c
           = Some x
        /\ type x = None /\ color x = white.
Proof.
  apply (gameStateToFEN_raises_iff
           (stateOfFEN "4k3/8/8/8/8/8/8/X3K3 w - - 0 1")).
  split; [reflexivity|]. vm_compute. repeat constructor.
Defined.

(** ** The decoder *)

Lemma FENToGameState_inv (fen : string) (gs : GameState) :
  returnedState (FENToGameState fen) = Some gs ->
  parseRows indices8 (split "/" (nth 0 (split " " fen) "")) emptyBoard
  = Normal (board gs)
  /\ moveHistory gs = []
  /\ capturedPieces gs = []
  /\ gameStatus gs = playing
  /\ winner gs = None
  /\ lastMove gs = None.
Proof.
  unfold FENToGameState.
  destruct (nth_error (split " " fen) 3) as [part3|]; [|discriminate].
  destruct (parseRows indices8 _ emptyBoard) as [b|]; [|discriminate].
  destruct (String.eqb part3 "-").
  - cbn [returnedState]. intros H. injection H as <-. cbn. auto 6.
  - destruct (chessNotationToPosition part3) as [[r|] c];
      cbn [returnedState]; intros H; injection H as <-; cbn; auto 6.
Qed.

(** An invariant of the row parser is one of the parser of the board. *)
Lemma parseRows_invariant (P : Board -> Prop) (rows : list string) :
  forall idx b b',
    parseRows idx rows b = Normal b' ->
    P b ->
    (forall r s b0,
        In r idx -> nth_error rows (Z.to_nat r) = Some s ->
        P b0 -> P (parseRowChars s r 0 b0)) ->
    P b'.
Proof.
  induction idx as [|r rest IH]; intros b b' H Hb Hstep; cbn [parseRows] in H.
  - injection H as <-. exact Hb.
  - destruct (nth_error rows (Z.to_nat r)) as [s|] eqn:E; [|discriminate].
    apply (IH _ _ H).
    + apply (Hstep r s b); [now left | exact E | exact Hb].
    + intros r' s' b0 Hin. apply Hstep. now right.
Qed.

Lemma length_setNth_le (cells : list (option ChessPiece)) (n : nat)
    (v : option ChessPiece) :
  (List.length cells <= List.length (setNth cells n v))%nat.
Proof.
  revert cells. induction n as [|n IH]; intros [|h t]; cbn; try lia.
  specialize (IH t). lia.
Qed.

Lemma wideRows_setCell (b : Board) (r c : Z) (v : option ChessPiece) :
  Forall (fun cells => (8 <= List.length cells)%nat) b ->
  Forall (fun cells => (8 <= List.length cells)%nat) (setCell b r c v).
Proof.
  intros Hrows. unfold setCell.
  destruct ((r <? 0) || (c <? 0)); [exact Hrows|].
  generalize (Z.to_nat r) as n.
  induction Hrows as [|cells rest Hcells Hrest IH]; intros n.
  - destruct n; constructor.
  - destruct n; cbn [mapNth]; constructor; auto.
    pose proof (length_setNth_le cells (Z.to_nat c) v). lia.
Qed.

Lemma wideRows_parseRowChars (s : string) (r : Z) :
  forall c b,
    Forall (fun cells => (8 <= List.length cells)%nat) b ->
    Forall (fun cells => (8 <= List.length cells)%nat)
      (parseRowChars s r c b).
Proof.
  induction s as [|x s IH]; intros c b Hb; [exact Hb|].
  rewrite parseRowChars_step. apply IH.
  destruct (isDigit1to8 x); [exact Hb | now apply wideRows_setCell].
Qed.

Lemma textWidth_nonneg (s : string) : 0 <= textWidth s.
Proof.
  induction s as [|x s IH]; cbn [textWidth]; [lia|].
  pose proof (charWidth_pos x). lia.
Qed.

Lemma wellFormedBoard_parseRowChars (s : string) (r : Z) :
  forall c b,
    0 <= c -> c + textWidth s <= 8 ->
    wellFormedBoard b -> wellFormedBoard (parseRowChars s r c b).
Proof.
  induction s as [|x s IH]; intros c b Hc Hw Hb; [exact Hb|].
  rewrite parseRowChars_step. cbn [textWidth] in Hw.
  pose proof (charWidth_pos x). pose proof (textWidth_nonneg s).
  apply IH; [lia | lia |].
  destruct (isDigit1to8 x); [exact Hb|].
  apply EngineExtras.wellFormedBoard_setCell; [exact Hb | lia].
Qed.

Lemma wellFormedBoard_emptyBoard : wellFormedBoard emptyBoard.
Proof. split; [reflexivity | repeat constructor]. Qed.

(** X18.  The board the decoder returns has eight rows of at least eight
    cells each; when no row of the text is wider than eight columns, every
    row has exactly eight. *)
Theorem FENToGameState_board (fen : string) (gs : GameState) :
  returnedState (FENToGameState fen) = Some gs ->
  List.length (board gs) = 8%nat
  /\ Forall (fun cells => (8 <= List.length cells)%nat) (board gs)
  /\ ((forall s,
          In s (firstn 8 (split "/" (nth 0 (split " " fen) ""))) ->
          textWidth s <= 8) ->
      wellFormedBoard (board gs)).
Proof.
  intros H. destruct (FENToGameState_inv _ _ H) as [Hrows _].
  split; [|split].
  - apply (parseRows_invariant (fun b => List.length b = 8%nat) _ _ _ _ Hrows);
      [reflexivity|].
    intros r s b0 _ _ Hb. now rewrite parseRowChars_length.
  - apply (parseRows_invariant _ _ _ _ _ Hrows).
    + repeat constructor.
    + intros r s b0 _ _ Hb. now apply wideRows_parseRowChars.
  - intros Hwidth.
    apply (parseRows_invariant _ _ _ _ _ Hrows);
      [exact wellFormedBoard_emptyBoard|].
    intros r s b0 Hr Hs Hb.
    apply wellFormedBoard_parseRowChars; [lia | | exact Hb].
    cbn [Z.add]. apply Hwidth.
    assert (Hr8 : (Z.to_nat r < 8)%nat)
      by (unfold indices8 in Hr; simpl in Hr; lia).
    rewrite <- (firstn_skipn 8 (split "/" (nth 0 (split " " fen) ""))) in Hs.
    assert (Hlen : (Z.to_nat r
                    < List.length
                        (firstn 8 (split "/" (nth 0 (split " " fen) ""))))%nat).
    { rewrite length_firstn. apply Nat.min_glb_lt; [exact Hr8|].
      apply nth_error_Some.
      rewrite <- (firstn_skipn 8 (split "/" (nth 0 (split " " fen) ""))).
      congruence. }
    rewrite nth_error_app1 in Hs by exact Hlen.
    now apply nth_error_In in Hs.
Qed.

Lemma FENToGameState_board_witness :
  List.length (board initialState) = 8%nat
  /\ Forall (fun cells => (8 <= List.length cells)%nat) (board initialState)
  /\ ((forall s,
          In s (firstn 8
                  (split "/" (nth 0 (split " " INITIAL_BOARD_FEN) ""))) ->
          textWidth s <= 8) ->
      wellFormedBoard (board initialState)).
Proof.
  apply (FENToGameState_board INITIAL_BOARD_FEN initialState).
  vm_compute. reflexivity.
Defined.

Lemma fresh_parseRowChars (s : string) (r : Z) :
  forall c b,
    (forall r' c' q, cell b r' c' = Some q -> hasMoved q = false) ->
    forall r' c' q,
      cell (parseRowChars s r c b) r' c' = Some q -> hasMoved q = false.
Proof.
  induction s as [|x s IH]; intros c b Hb; [exact Hb|].
  rewrite parseRowChars_step. apply IH.
  destruct (isDigit1to8 x); [exact Hb|].
  intros r' c' q Hq.
  destruct (cell_setCell_cases b r c r' c'
              (Some (FENCharToPiece x (pieceId x r c)))) as [E | E];
    rewrite E in Hq.
  - now apply (Hb r' c').
  - injection Hq as <-. reflexivity.
Qed.

(** X19.  The state the decoder returns is that of a game not yet played: no
    move in the history, nothing captured, status playing, no winner, no
    last move, and no piece on the board marked as moved, whatever the
    position of the text. *)
Theorem FENToGameState_fresh (fen : string) (gs : GameState) :
  returnedState (FENToGameState fen) = Some gs ->
  moveHistory gs = []
  /\ capturedPieces gs = []
  /\ gameStatus gs = playing
  /\ winner gs = None
  /\ lastMove gs = None
  /\ forall r c q, cell (board gs) r c = Some q -> hasMoved q = false.
Proof.
  intros H.
  destruct (FENToGameState_inv _ _ H) as [Hrows [H1 [H2 [H3 [H4 H5]]]]].
  repeat (split; [assumption|]).
  apply (parseRows_invariant
           (fun b => forall r c q, cell b r c = Some q -> hasMoved q = false)
           _ _ _ _ Hrows).
  - intros r c q Hq. rewrite cell_emptyBoard in Hq. discriminate.
  - intros r s b0 _ _ Hb. now apply fresh_parseRowChars.
Qed.

Lemma FENToGameState_fresh_witness :
  moveHistory queensideCrossed = []
  /\ capturedPieces queensideCrossed = []
  /\ gameStatus queensideCrossed = playing
  /\ winner queensideCrossed = None
  /\ lastMove queensideCrossed = None
  /\ forall r c q,
       cell (board queensideCrossed) r c = Some q -> hasMoved q = false.
Proof.
  apply (FENToGameState_fresh "3rk3/8/8/8/8/8/8/R3K3 w Q - 0 1"
           queensideCrossed).
  vm_compute. reflexivity.
Defined.

(** ** The notation of a move *)

Lemma label_without_marks (pos : Position) (x : ascii) :
  isValidPosition pos = true ->
  x = "+"%char \/ x = "#"%char \/ x = "="%char ->
  includes (positionToChessNotation pos) x = false.
Proof.
  destruct pos as [r c]. intros Hv Hx.
  unfold isValidPosition in Hv. cbn [row col] in Hv.
  apply andb_prop in Hv. destruct Hv as [Hv H4].
  apply andb_prop in Hv. destruct Hv as [Hv H3].
  apply andb_prop in Hv. destruct Hv as [H1 H2].
  assert (Hr : 0 <= r <= 8) by lia. assert (Hc : 0 <= c <= 8) by lia.
  by_small_cases r Hr; try lia;
    by_small_cases c Hc; try lia;
    destruct Hx as [-> | [-> | ->]]; reflexivity.
Qed.

Lemma typeInitial_without_marks (t : PieceType) (x : ascii) :
  x = "+"%char \/ x = "#"%char \/ x = "="%char ->
  includes (typeInitial t) x = false.
Proof. intros [-> | [-> | ->]]; destruct t; reflexivity. Qed.

(** The move record that [makeMove] stores for an accepted move. *)
Lemma makeMove_recorded (src dst : Position) (gs gs' : GameState) :
  makeMove src dst gs = Normal (Some gs') ->
  exists p m,
    cell (board gs) (row src) (col src) = Some p
    /\ lastMove gs' = Some m
    /\ from m = src /\ to m = dst /\ piece m = p
    /\ isCastling m = isCastlingMove p src dst
    /\ isValidPosition src = true /\ isValidPosition dst = true
    /\ notation m
       = if isCastlingMove p src dst
         then if col dst >? col src then "O-O" else "O-O-O"
         else match type p with
              | Some pawn | None => ""
              | Some t => typeInitial t
              end
              ++ positionToChessNotation src
              ++ match cell (board gs) (row dst) (col dst) with
                 | Some _ => "x"
                 | None => ""
                 end
              ++ positionToChessNotation dst.
Proof.
  unfold makeMove. intros H.
  destruct (isValidMove src dst gs) eqn:EV; cbn [negb] in H; [|discriminate].
  destruct (isValidMove_inv _ _ _ EV) as [q [Hq [_ [Hdst _]]]].
  assert (Hsrc : isValidPosition src = true).
  { unfold getPieceAt in Hq.
    destruct (isValidPosition src); [reflexivity | discriminate]. }
  destruct (cell (board gs) (row src) (col src)) as [p|] eqn:Ep;
    [|discriminate].
  cbv zeta in H. unfold generateMoveNotation in H.
  cbn [isCastling piece capturedPiece promotion isCheckmate isCheck from to]
    in H.
  exists p.
  destruct (isCastlingMove p src dst) eqn:Ecm.
  - injection H as <-. eexists. split; [reflexivity|].
    split; [reflexivity|]. cbn. auto 8.
  - destruct (type p) as [t|] eqn:Et; [|discriminate].
    destruct (cell (board gs) (row dst) (col dst)) as [captured|];
      destruct t; injection H as <-;
      (eexists; split; [reflexivity|]; split; [reflexivity|]; cbn;
       rewrite ?append_assoc; auto 8).
Qed.

Lemma recorded_without_marks (src dst : Position) (gs gs' : GameState)
    (m : ChessMove) (x : ascii) :
  makeMove src dst gs = Normal (Some gs') ->
  lastMove gs' = Some m ->
  x = "+"%char \/ x = "#"%char \/ x = "="%char ->
  includes (notation m) x = false.
Proof.
  intros H Hm Hx. destruct (makeMove_recorded _ _ _ _ H)
    as [p [m' [Hp [Hm' [_ [_ [_ [_ [Hsrc [Hdst Htext]]]]]]]]]].
  rewrite Hm in Hm'. injection Hm' as <-. rewrite Htext.
  destruct (isCastlingMove p src dst).
  - destruct (col dst >? col src);
      destruct Hx as [-> | [-> | ->]]; reflexivity.
  - rewrite !includes_append.
    rewrite (label_without_marks src x Hsrc Hx).
    rewrite (label_without_marks dst x Hdst Hx).
    assert (E1 : includes match type p with
                          | Some pawn | None => ""
                          | Some t => typeInitial t
                          end x = false).
    { destruct (type p) as [t|]; [|reflexivity].
      destruct t; try reflexivity;
        apply (typeInitial_without_marks _ x Hx). }
    assert (E2 : includes match cell (board gs) (row dst) (col dst) with
                          | Some _ => "x"
                          | None => ""
                          end x = false).
    { destruct (cell (board gs) (row dst) (col dst));
        destruct Hx as [-> | [-> | ->]]; reflexivity. }
    rewrite E1, E2. reflexivity.
Qed.

(** X20.  The notation [makeMove] records for an accepted move is that of
    castling, or the initial of the piece (none for a pawn), the label of
    the origin, an x when the destination is occupied, and the label of the
    destination; it never carries a check mark, a mate mark or a promotion
    suffix. *)
Theorem makeMove_notation (src dst : Position) (gs gs' : GameState) :
  makeMove src dst gs = Normal (Some gs') ->
  exists p m,
    cell (board gs) (row src) (col src) = Some p
    /\ lastMove gs' = Some m
    /\ notation m
       = (if isCastlingMove p src dst
          then if col dst >? col src then "O-O" else "O-O-O"
          else match type p with
               | Some pawn | None => ""
               | Some t => typeInitial t
               end
               ++ positionToChessNotation src
               ++ match cell (board gs) (row dst) (col dst) with
                  | Some _ => "x"
                  | None => ""
                  end
               ++ positionToChessNotation dst)
    /\ includes (notation m) "+" = false
    /\ includes (notation m) "#" = false
    /\ includes (notation m) "=" = false.
Proof.
  intros H. destruct (makeMove_recorded _ _ _ _ H)
    as [p [m [Hp [Hm [_ [_ [_ [_ [_ [_ Htext]]]]]]]]]].
  exists p, m. split; [exact Hp|]. split; [exact Hm|]. split; [exact Htext|].
  repeat split; apply (recorded_without_marks _ _ _ _ _ _ H Hm); auto.
Qed.

Lemma makeMove_notation_witness :
  exists p m,
    cell (board beforeCapture) 4 4 = Some p
    /\ lastMove (playMove (square 4 4) (square 3 3) beforeCapture) = Some m
    /\ notation m
       = (if isCastlingMove p (square 4 4) (square 3 3)
          then if 3 >? 4 then "O-O" else "O-O-O"
          else match type p with
               | Some pawn | None => ""
               | Some t => typeInitial t
               end
               ++ positionToChessNotation (square 4 4)
               ++ match cell (board beforeCapture) 3 3 with
                  | Some _ => "x"
                  | None => ""
                  end
               ++ positionToChessNotation (square 3 3))
    /\ includes (notation m) "+" = false
    /\ includes (notation m) "#" = false
    /\ includes (notation m) "=" = false.
Proof.
  apply (makeMove_notation (square 4 4) (square 3 3) beforeCapture
           (playMove (square 4 4) (square 3 3) beforeCapture)).
  vm_compute. reflexivity.
Defined.

(** ** Reading the notation back *)

Lemma removeFirstMark_without (s : string) :
  includes s "+" = false -> includes s "#" = false -> removeFirstMark s = s.
Proof.
  induction s as [|x s IH]; cbn [includes removeFirstMark]; intros H1 H2;
    [reflexivity|].
  apply orb_false_elim in H1, H2. destruct H1 as [H1 H1'], H2 as [H2 H2'].
  rewrite H1, H2. cbn [orb]. now rewrite IH.
Qed.

Lemma fileAt_head (c : Z) :
  0 <= c < 8 ->
  exists x, fileAt c = String x "" /\ Ascii.eqb x "O" = false.
Proof.
  intros Hc. assert (Hc' : 0 <= c <= 8) by lia.
  by_small_cases c Hc'; try lia; eexists; split; reflexivity.
Qed.

Lemma eqb_head (x y : ascii) (s t : string) :
  Ascii.eqb x y = false -> String.eqb (String x s) (String y t) = false.
Proof. intros H. cbn [String.eqb]. now rewrite H. Qed.

(** X21.  [parseAlgebraicNotation] reads no move from the notation that
    [makeMove] records for a move that is not castling, in any state; from
    the notation of a castling move of a king on the e-file of the home row
    of the side to move, it reads the origin, the destination and the piece
    of that move. *)
Theorem parseAlgebraicNotation_of_recorded (src dst : Position)
    (gs gs' : GameState) (m : ChessMove) :
  makeMove src dst gs = Normal (Some gs') ->
  lastMove gs' = Some m ->
  if isCastling m
  then col src = 4 -> row src = homeRow (currentPlayer gs) ->
       exists m',
         parseAlgebraicNotation (notation m) gs = Some m'
         /\ from m' = src /\ to m' = dst /\ piece m' = piece m
         /\ isCastling m' = true /\ notation m' = notation m
  else forall g, parseAlgebraicNotation (notation m) g = None.
Proof.
  intros H Hm.
  pose proof (recorded_without_marks _ _ _ _ _ "+" H Hm (or_introl eq_refl))
    as Hplus.
  pose proof (recorded_without_marks _ _ _ _ _ "#" H Hm
                (or_intror (or_introl eq_refl))) as Hhash.
  pose proof (removeFirstMark_without _ Hplus Hhash) as Hclean.
  destruct (makeMove_recorded _ _ _ _ H)
    as [p [m' [Hp [Hm' [Hfrom [Hto [Hpiece [Hcm [Hsrc [Hdst Htext]]]]]]]]]].
  rewrite Hm in Hm'. injection Hm' as <-.
  rewrite Hcm. destruct (isCastlingMove p src dst) eqn:Ecm.
  - intros Hcol Hrow.
    destruct (EngineExtras.accepted_castling _ _ _ _ _ H Hp Ecm)
      as [Hsame Habs].
    unfold parseAlgebraicNotation. rewrite Hclean, Htext.
    change (match currentPlayer gs with white => 7 | black => 0 end)
      with (homeRow (currentPlayer gs)).
    rewrite <- Hrow, <- Hcol.
    assert (Hking : getPieceAt (board gs)
                      {| row := row src; col := col src |} = Some p).
    { unfold getPieceAt. destruct src as [r c]. cbn [row col] in *.
      now rewrite Hsrc, Hp. }
    destruct (col dst >? col src) eqn:Eside; cbn [String.eqb Ascii.eqb
      Bool.eqb orb]; rewrite Hking; eexists;
      (split; [reflexivity|]); cbn [from to piece isCastling notation];
      (split; [now destruct src|]);
      (split; [destruct dst as [r c]; cbn [row col] in *; f_equal; lia|]);
      auto.
  - intros g.
    assert (Hhead : exists x rest,
               notation m = String x rest /\ Ascii.eqb x "O" = false).
    { rewrite Htext.
      unfold isValidPosition in Hsrc.
      destruct (fileAt_head (col src)) as [x [Ex Hx]]; [lia|].
      unfold positionToChessNotation at 1. rewrite Ex.
      destruct (type p) as [[]|]; cbn [typeInitial append];
        eexists; eexists; split; try reflexivity; exact Hx. }
    destruct Hhead as [x [rest [Ex Hx]]].
    unfold parseAlgebraicNotation. rewrite Hclean, Ex.
    now rewrite !(eqb_head _ _ _ _ Hx).
Qed.

Lemma parseAlgebraicNotation_of_recorded_witness :
  parseAlgebraicNotation "e4xd5" initialState = None.
Proof.
  apply (parseAlgebraicNotation_of_recorded (square 4 4) (square 3 3)
           beforeCapture (playMove (square 4 4) (square 3 3) beforeCapture)
           {| from := square 4 4; to := square 3 3;
              piece := withMoved (parsedPiece "P" 6 4);
              capturedPiece := Some (withMoved (parsedPiece "p" 1 3));
              isCheck := false; isCheckmate := false; isStalemate := false;
              isCastling := false; isEnPassant := false; promotion := None;
              notation := "e4xd5" |}).
  - vm_compute. reflexivity.
  - vm_compute. reflexivity.
Defined.

End CodecExtras.

(** * Properties of the move validation and of the fallback moves *)

Module AIExtras.

Import ChessUtils ChessEngine ChessAI Reading Positions EngineFacts CodecFacts.
Local Open Scope string_scope.
Local Open Scope Z_scope.


(** ** The list of all moves *)

Lemma allMoves_In (from to : Position) (gs : GameState) :
  In (from, to) (allMoves gs) <-> isValidMove from to gs = true.
Proof.
  unfold allMoves. rewrite in_flat_map. split.
  - intros [[r c] [Hsq Hin]]. cbn [fst snd] in Hin.
    destruct (cell (board gs) r c) as [p|]; [|destruct Hin].
    destruct (PieceColor_eqb (color p) (currentPlayer gs)); [|destruct Hin].
    apply in_map_iff in Hin. destruct Hin as [t [Heq Ht]].
    injection Heq as <- <-. now apply EngineExtras.getValidMoves_In.
  - intros H. destruct (isValidMove_inv _ _ _ H) as [p [Hp [Hc _]]].
    apply getPieceAt_cell in Hp. destruct Hp as [Hp [Hr Hcol]].
    exists (row from, col from). split; [now apply squares_bounds|].
    cbn [fst snd]. rewrite Hp.
    replace (PieceColor_eqb (color p) (currentPlayer gs)) with true
      by (symmetry; now apply PieceColor_eqb_eq).
    rewrite positionOf_eta. apply in_map.
    now apply EngineExtras.getValidMoves_In.
Qed.

Lemma allMoves_nil (gs : GameState) :
  allMoves gs = [] <-> hasValidMoves gs = false.
Proof.
  split.
  - intros E. destruct (hasValidMoves gs) eqn:Eh; [|reflexivity].
    apply hasValidMoves_spec in Eh. destruct Eh as [f [t H]].
    apply allMoves_In in H. rewrite E in H. destruct H.
  - intros Eh. destruct (allMoves gs) as [|[f t] rest] eqn:E; [reflexivity|].
    assert (H : isValidMove f t gs = true)
      by (apply allMoves_In; rewrite E; now left).
    assert (F : hasValidMoves gs = true)
      by (apply hasValidMoves_spec; eauto).
    congruence.
Qed.

(** ** Reading a move text *)

Lemma validateSimpleMove_spec (s : string) (r c : Z) (gs : GameState) :
  chessNotationToPosition s = (Num r, c) ->
  validateSimpleMove s gs = true
  <-> exists from, isValidMove from {| row := r; col := c |} gs = true.
Proof.
  intros E. unfold validateSimpleMove. rewrite E, existsb_exists.
  cbn [isValidMoveTo]. split.
  - intros [sq [_ H]]. eauto.
  - intros [from H]. exists (row from, col from).
    rewrite positionOf_eta. split; [|exact H].
    destruct (isValidMove_inv _ _ _ H) as [p [Hp _]].
    apply getPieceAt_cell in Hp. now apply squares_bounds.
Qed.

Lemma findMover_spec (to : Position) (gs : GameState) :
  match find (fun sq =>
                match cell (board gs) (fst sq) (snd sq) with
                | Some piece =>
                    PieceColor_eqb (color piece) (currentPlayer gs)
                    && isValidMove (positionOf sq) to gs
                | None => false
                end)
             squares with
  | Some sq => isValidMove (positionOf sq) to gs = true
  | None => forall from, isValidMove from to gs = false
  end.
Proof.
  destruct (find _ squares) as [sq|] eqn:E.
  - apply find_some in E. destruct E as [_ E].
    destruct (cell (board gs) (fst sq) (snd sq)); [|discriminate].
    now apply andb_prop in E.
  - intros from. destruct (isValidMove from to gs) eqn:H; [|reflexivity].
    destruct (isValidMove_inv _ _ _ H) as [p [Hp [Hc _]]].
    apply getPieceAt_cell in Hp. destruct Hp as [Hp [Hr Hcol]].
    pose proof (find_none _ _ E (row from, col from)) as F.
    cbn beta in F. cbn [fst snd] in F.
    rewrite Hp, positionOf_eta, H in F.
    apply PieceColor_eqb_eq in Hc. rewrite Hc in F.
    specialize (F (proj2 (squares_bounds _ _) (conj Hr Hcol))).
    discriminate.
Qed.

Lemma isSquareLabel_not_castling (s : string) :
  isSquareLabel s = true ->
  (String.eqb s "O-O" || String.eqb s "O-O-O") = false.
Proof.
  destruct s as [|f [|d [|x rest]]]; cbn [isSquareLabel]; try discriminate.
  intros _. cbn [String.eqb].
  destruct (Ascii.eqb f "O"); [|reflexivity].
  destruct (Ascii.eqb d "-"); reflexivity.
Qed.

(** What [parseSimpleMove] returns for the label of a square. *)
Lemma parseSimpleMove_label (s : string) (r c : Z) (gs : GameState) :
  isSquareLabel s = true ->
  chessNotationToPosition s = (Num r, c) ->
  (exists from,
      parseSimpleMove s gs = Some (from, {| row := r; col := c |})
      /\ isValidMove from {| row := r; col := c |} gs = true)
  \/ (parseSimpleMove s gs = None
      /\ forall from, isValidMove from {| row := r; col := c |} gs = false).
Proof.
  intros Hs E. unfold parseSimpleMove.
  rewrite Hs, E, (isSquareLabel_not_castling s Hs).
  pose proof (findMover_spec {| row := r; col := c |} gs) as F.
  destruct (find _ squares) as [sq|].
  - left. exists (positionOf sq). auto.
  - right. auto.
Qed.

(** X22.  A move that [parseSimpleMove] returns is one that [isValidMove]
    accepts, so [makeMove] plays it; its destination is the square the text
    labels, or the text is a castling token and the move is that of the king
    from the e-file of its home row to the g-file or the c-file. *)
Theorem parseSimpleMove_sound (s : string) (gs : GameState)
    (src dst : Position) :
  parseSimpleMove s gs = Some (src, dst) ->
  isValidMove src dst gs = true
  /\ (exists gs', makeMove src dst gs = Normal (Some gs'))
  /\ ((isSquareLabel s = true /\ positionToChessNotation dst = s)
      \/ (s = "O-O"
          /\ src = {| row := homeRow (currentPlayer gs); col := 4 |}
          /\ dst = {| row := homeRow (currentPlayer gs); col := 6 |})
      \/ (s = "O-O-O"
          /\ src = {| row := homeRow (currentPlayer gs); col := 4 |}
          /\ dst = {| row := homeRow (currentPlayer gs); col := 2 |})).
Proof.
  intros H.
  assert (G : isValidMove src dst gs = true
              /\ ((isSquareLabel s = true /\ positionToChessNotation dst = s)
                  \/ (s = "O-O"
                      /\ src = {| row := homeRow (currentPlayer gs);
                                  col := 4 |}
                      /\ dst = {| row := homeRow (currentPlayer gs);
                                  col := 6 |})
                  \/ (s = "O-O-O"
                      /\ src = {| row := homeRow (currentPlayer gs);
                                  col := 4 |}
                      /\ dst = {| row := homeRow (currentPlayer gs);
                                  col := 2 |}))).
  { destruct (isSquareLabel s) eqn:Hs.
    - destruct (CodecExtras.position_of_label s Hs) as [r [c [E [Hv Hl]]]].
      destruct (parseSimpleMove_label s r c gs Hs E)
        as [[from [Hp Hvalid]] | [Hp _]]; rewrite Hp in H; [|discriminate].
      injection H as <- <-. split; [exact Hvalid|]. left. auto.
    - unfold parseSimpleMove in H. rewrite Hs in H.
      change (match currentPlayer gs with white => 7 | black => 0 end)
        with (homeRow (currentPlayer gs)) in H.
      destruct (String.eqb s "O-O") eqn:E1.
      + apply String.eqb_eq in E1. subst s. cbn [orb] in H.
        destruct (isValidMove _ _ gs) eqn:Hvalid; [|discriminate].
        injection H as <- <-. split; [exact Hvalid|]. right. left. auto.
      + destruct (String.eqb s "O-O-O") eqn:E2; cbn [orb] in H;
          [|discriminate].
        apply String.eqb_eq in E2. subst s.
        destruct (isValidMove _ _ gs) eqn:Hvalid; [|discriminate].
        injection H as <- <-. split; [exact Hvalid|]. right. right. auto. }
  destruct G as [Hvalid Hshape]. split; [exact Hvalid|]. split; [|exact Hshape].
  now apply EngineExtras.makeMove_accepts.
Qed.

Lemma parseSimpleMove_sound_witness :
  isValidMove (square 7 4) (square 7 2) queensideReady = true
  /\ (exists gs',
         makeMove (square 7 4) (square 7 2) queensideReady
         = Normal (Some gs'))
  /\ ((isSquareLabel "O-O-O" = true
       /\ positionToChessNotation (square 7 2) = "O-O-O")
      \/ ("O-O-O" = "O-O"
          /\ square 7 4
             = {| row := homeRow (currentPlayer queensideReady); col := 4 |}
          /\ square 7 2
             = {| row := homeRow (currentPlayer queensideReady); col := 6 |})
      \/ ("O-O-O" = "O-O-O"
          /\ square 7 4
             = {| row := homeRow (currentPlayer queensideReady); col := 4 |}
          /\ square 7 2
             = {| row := homeRow (currentPlayer queensideReady);
                  col := 2 |})).
Proof.
  apply (parseSimpleMove_sound "O-O-O" queensideReady).
  vm_compute. reflexivity.
Defined.

(** X23.  On the label of a square and on a castling token, [validateAIMove]
    accepts the text exactly when [parseSimpleMove] returns a move for it. *)
Theorem validateAIMove_agrees (s : string) (gs : GameState) :
  isSquareLabel s = true \/ s = "O-O" \/ s = "O-O-O" ->
  validateAIMove s gs = true
  <-> exists src dst, parseSimpleMove s gs = Some (src, dst).
Proof.
  intros [Hs | Hs].
  - unfold validateAIMove. rewrite Hs.
    destruct (CodecExtras.position_of_label s Hs) as [r [c [E _]]].
    rewrite (validateSimpleMove_spec s r c gs E).
    destruct (parseSimpleMove_label s r c gs Hs E)
      as [[from [Hp Hvalid]] | [Hp Hnone]]; rewrite Hp.
    + split; eauto.
    + split.
      * intros [from H]. rewrite Hnone in H. discriminate.
      * intros [src [dst H]]. discriminate.
  - assert (Hl : isSquareLabel s = false)
      by (destruct Hs as [-> | ->]; reflexivity).
    assert (Ht : (String.eqb s "O-O" || String.eqb s "O-O-O") = true)
      by (destruct Hs as [-> | ->]; reflexivity).
    unfold validateAIMove, validateCastling, parseSimpleMove.
    rewrite Hl, Ht.
    destruct (isValidMove _ _ gs); split; eauto; try discriminate.
    intros [src [dst H]]. discriminate.
Qed.

Lemma validateAIMove_agrees_witness :
  validateAIMove "e4" initialState = true
  <-> exists src dst, parseSimpleMove "e4" initialState = Some (src, dst).
Proof.
  apply (validateAIMove_agrees "e4" initialState).
  left. vm_compute. reflexivity.
Defined.

(** X24.  [validateAIMove] accepts a text for which [parseSimpleMove]
    returns no move exactly when the text is neither the label of a square
    nor a castling token: on labels and tokens the validator never accepts
    what the parser cannot read, and it accepts every other text. *)
Theorem validateAIMove_accepts_unparsed (s : string) (gs : GameState) :
  validateAIMove s gs = true /\ parseSimpleMove s gs = None
  <-> isSquareLabel s = false /\ s <> "O-O" /\ s <> "O-O-O".
Proof.
  split.
  - intros [Hv Hp].
    destruct (isSquareLabel s) eqn:Hs.
    + exfalso. unfold validateAIMove in Hv. rewrite Hs in Hv.
      destruct (CodecExtras.position_of_label s Hs) as [r [c [E _]]].
      apply (validateSimpleMove_spec s r c gs E) in Hv.
      destruct Hv as [from Hfrom].
      destruct (parseSimpleMove_label s r c gs Hs E)
        as [[from' [Hp' _]] | [_ Hnone]]; [congruence|].
      rewrite Hnone in Hfrom. discriminate.
    + split; [reflexivity|].
      unfold validateAIMove, validateCastling, parseSimpleMove in Hv, Hp.
      rewrite Hs in Hv, Hp.
      split; intros ->; cbn [String.eqb Ascii.eqb Bool.eqb orb andb] in Hv, Hp;
        destruct (isValidMove _ _ gs); discriminate.
  - intros [Hl [H1 H2]]. apply String.eqb_neq in H1, H2.
    unfold validateAIMove, parseSimpleMove. rewrite Hl, H1, H2. auto.
Qed.

(** ** The fallback moves *)

Lemma allMoves_length (gs : GameState) :
  (List.length (allMoves gs) =? 0)%nat = negb (hasValidMoves gs).
Proof.
  destruct (hasValidMoves gs) eqn:E; cbn [negb].
  - destruct (allMoves gs) eqn:Ea; [|reflexivity].
    apply allMoves_nil in Ea. congruence.
  - apply allMoves_nil in E. now rewrite E.
Qed.





(** X27.  The fallback of [chess-ai.ts] returns [null] exactly when the side
    to move has no valid move, whatever the number drawn; that of the game
    page returns no move exactly then or when the number drawn is no index
    of the list of moves. *)
Theorem fallback_null_iff (gs : GameState) (pick : nat) :
  (generateFallbackMove gs pick = Normal None <-> hasValidMoves gs = false)
  /\ (pageFallbackMove gs pick = None
      <-> hasValidMoves gs = false
          \/ (List.length (allMoves gs) <= pick)%nat).
Proof.
  unfold generateFallbackMove, pageFallbackMove. cbv zeta.
  rewrite allMoves_length.
  destruct (hasValidMoves gs) eqn:E; cbn [negb].
  - split.
    + destruct (nth_error (allMoves gs) pick); split; discriminate.
    + rewrite nth_error_None. split; [now right|].
      intros [H | H]; [discriminate | exact H].
  - split; split; auto.
Qed.

End AIExtras.

(** * Properties of the status panel *)

Module ViewExtras.

Import ChessUtils ChessEngine GameStatusView Reading Positions EngineFacts.
Local Open Scope string_scope.
Local Open Scope Z_scope.

Lemma balance_by_side (b : Board) (sqs : list (Z * Z)) :
  forall w k,
    fold_left
      (fun (totals : number * number) (sq : Z * Z) =>
         match cell b (fst sq) (snd sq) with
         | Some piece =>
             let value := valueOf piece in
             match color piece with
             | white => (plus (fst totals) value, snd totals)
             | black => (fst totals, plus (snd totals) value)
             end
         | None => totals
         end)
      sqs (w, k)
    = (fold_left
         (fun (total : number) (sq : Z * Z) =>
            match cell b (fst sq) (snd sq) with
            | Some piece =>
                if PieceColor_eqb (color piece) white
                then plus total (valueOf piece)
                else total
            | None => total
            end)
         sqs w,
       fold_left
         (fun (total : number) (sq : Z * Z) =>
            match cell b (fst sq) (snd sq) with
            | Some piece =>
                if PieceColor_eqb (color piece) black
                then plus total (valueOf piece)
                else total
            | None => total
            end)
         sqs k).
Proof.
  induction sqs as [|sq rest IH]; intros w k; cbn [fold_left];
    [reflexivity|].
  destruct (cell b (fst sq) (snd sq)) as [x|]; [|apply IH].
  cbv zeta. destruct (color x); cbn [PieceColor_eqb fst snd]; apply IH.
Qed.

(** X28.  The two totals the status panel shows are the two totals of
    [calculateMaterialBalance], for every state, [NaN] included. *)
Theorem calculateMaterial_agrees (gs : GameState) :
  calculateMaterialBalance gs
  = (calculateMaterial gs white, calculateMaterial gs black).
Proof. apply balance_by_side. Qed.

(** X29.  After an accepted move the panel announces a win exactly at
    checkmate, and the winner it names is the side that has moved: the
    player for a move of white, the machine for a move of black; it
    announces a draw exactly at stalemate; the game is over exactly when the
    side to move has no valid move. *)
Theorem getStatusMessage_after_makeMove (src dst : Position)
    (gs gs' : GameState) (isPlayerTurn isAiThinking : bool) :
  makeMove src dst gs = Normal (Some gs') ->
  (getStatusMessage gs' isPlayerTurn isAiThinking = "You Win!"
   <-> currentPlayer gs = white
       /\ hasValidMoves gs' = false /\ isInCheck gs' = true)
  /\ (getStatusMessage gs' isPlayerTurn isAiThinking = "AI Wins!"
      <-> currentPlayer gs = black
          /\ hasValidMoves gs' = false /\ isInCheck gs' = true)
  /\ (getStatusMessage gs' isPlayerTurn isAiThinking = "Draw - Stalemate"
      <-> hasValidMoves gs' = false /\ isInCheck gs' = false)
  /\ (isGameOver gs' = true <-> hasValidMoves gs' = false).
Proof.
  intros H.
  destruct (makeMove_inv _ _ _ _ H) as [p [text [_ [_ Hgs]]]].
  cbv zeta in Hgs.
  destruct Hgs as [_ [Hplayer [_ [_ [_ [_ Hstatus]]]]]].
  unfold getStatusMessage, isGameOver. rewrite Hstatus, Hplayer.
  unfold getGameStatus.
  destruct (hasValidMoves gs'), (isInCheck gs'), (currentPlayer gs),
    isAiThinking, isPlayerTurn; cbn;
    repeat split; intros; try discriminate; try tauto;
    repeat match goal with
           | Hx : _ /\ _ |- _ => destruct Hx
           end; try discriminate.
Qed.

Lemma getStatusMessage_after_makeMove_witness :
  let gs' := playMove (square 0 3) (square 4 7) beforeFoolsMate in
  (getStatusMessage gs' true false = "You Win!"
   <-> currentPlayer beforeFoolsMate = white
       /\ hasValidMoves gs' = false /\ isInCheck gs' = true)
  /\ (getStatusMessage gs' true false = "AI Wins!"
      <-> currentPlayer beforeFoolsMate = black
          /\ hasValidMoves gs' = false /\ isInCheck gs' = true)
  /\ (getStatusMessage gs' true false = "Draw - Stalemate"
      <-> hasValidMoves gs' = false /\ isInCheck gs' = false)
  /\ (isGameOver gs' = true <-> hasValidMoves gs' = false).
Proof.
  apply (getStatusMessage_after_makeMove (square 0 3) (square 4 7)
           beforeFoolsMate).
  vm_compute. reflexivity.
Defined.

End ViewExtras.
